(** * specbridge: the spec-to-tool compiler and the request executor

    A shallow embedding of [src/utils/openapi-parser.ts], [src/utils/auth.ts]
    and [src/utils/http-client.ts], and the properties of the design
    document checked against it; then the rest of these files and the
    input schemas that [src/server.ts] builds, with properties read off
    the code.

    Conventions of the embedding.
    - A JavaScript string is a [string]: a sequence of 8-bit code units.
      Text is read as its UTF-8 bytes, which is what [Buffer.from] and
      [encodeURIComponent] work on; case conversion is the ASCII one.
    - A JavaScript value is a [JsValue]; an object is the list of its own
      enumerable properties in [Object.entries] order, and reading a
      property that is not there gives [JUndefined].
    - A JavaScript number is an integer [Z] printed in decimal, which is how
      every integer of magnitude below 10^21 prints.
    - Objects used as dictionaries keyed by name (the request headers, the
      credential map) are [gmap string _], the map of their own
      properties.
    - A read under a name that comes from a document or from the
      environment (a parameter name, a namespace) follows the prototype
      chain: see [read] and [load_step].  The built-in objects are those
      of a fresh process: what the resolver writes on [Object] and on
      [Object.prototype] for an entry of the namespace [constructor] or
      [__proto__] is not followed, and a request is one of a process
      whose environment has no entry of the namespace [__proto__].  The
      keys of the arguments of a call and the header name of a
      credential are ordinary names, not [__proto__]. *)

From Stdlib Require Import ZArith Ascii DecimalString.
From stdpp Require Import gmap strings list fin_maps.

Set Warnings "-register-all".

(* ===================================================================== *)
(** ** JavaScript strings and values *)
(* ===================================================================== *)

Module Js.

(** *** Characters *)

Definition code (c : ascii) : nat := nat_of_ascii c.

Definition in_range (lo hi : nat) (c : ascii) : bool :=
  (Nat.leb lo (code c)) && (Nat.leb (code c) hi).

Definition is_upper (c : ascii) : bool := in_range 65 90 c.
Definition is_lower (c : ascii) : bool := in_range 97 122 c.
Definition is_digit (c : ascii) : bool := in_range 48 57 c.

(** The character class [[a-zA-Z0-9]]. *)
Definition is_alnum (c : ascii) : bool :=
  is_lower c || is_upper c || is_digit c.

Definition dquote : ascii := "034"%char.
Definition backslash : ascii := "092"%char.
Definition newline : ascii := "010"%char.

Definition lower_char (c : ascii) : ascii :=
  if is_upper c then ascii_of_nat (code c + 32) else c.

(** *** Strings *)

Definition str1 (c : ascii) : string := String c EmptyString.

Fixpoint smap (f : ascii -> ascii) (s : string) : string :=
  match s with
  | EmptyString => EmptyString
  | String c s' => String (f c) (smap f s')
  end.

Fixpoint sfilter (f : ascii -> bool) (s : string) : string :=
  match s with
  | EmptyString => EmptyString
  | String c s' => if f c then String c (sfilter f s') else sfilter f s'
  end.

Fixpoint sforall (f : ascii -> bool) (s : string) : bool :=
  match s with
  | EmptyString => true
  | String c s' => f c && sforall f s'
  end.

Fixpoint sdrop (n : nat) (s : string) : string :=
  match n, s with
  | O, _ => s
  | S n', String _ s' => sdrop n' s'
  | S _, EmptyString => EmptyString
  end.

Definition is_empty (s : string) : bool :=
  match s with EmptyString => true | _ => false end.

(** [s.toLowerCase()] *)
Definition toLowerCase (s : string) : string := smap lower_char s.

Definition upper_char (c : ascii) : ascii :=
  if is_lower c then ascii_of_nat (code c - 32) else c.

(** [s.toUpperCase()] *)
Definition toUpperCase (s : string) : string := smap upper_char s.

(** [s.startsWith(p)] *)
Fixpoint startsWith (p s : string) : bool :=
  match p with
  | EmptyString => true
  | String a p' =>
      match s with
      | EmptyString => false
      | String b s' => Ascii.eqb a b && startsWith p' s'
      end
  end.

Fixpoint stake (n : nat) (s : string) : string :=
  match n, s with
  | S n', String c s' => String c (stake n' s')
  | _, _ => EmptyString
  end.

(** [s.endsWith(suf)], returning what stands before the suffix. *)
Fixpoint strip_suffix (suf s : string) : option string :=
  if String.eqb s suf then Some EmptyString
  else match s with
       | EmptyString => None
       | String c s' =>
           match strip_suffix suf s' with
           | Some p => Some (String c p)
           | None => None
           end
       end.

(** [s.endsWith(suf)] *)
Definition endsWith (suf s : string) : bool :=
  match strip_suffix suf s with Some _ => true | None => false end.

(** [s.includes(p)] *)
Fixpoint includes (p s : string) : bool :=
  if startsWith p s then true
  else match s with
       | EmptyString => false
       | String _ s' => includes p s'
       end.

(** [s.split(sep)] for a separator of one character: the pieces between
    the separators, empty pieces included. *)
Fixpoint split_go (sep : ascii) (cur : string) (s : string) : list string :=
  match s with
  | EmptyString => [cur]
  | String c s' =>
      if Ascii.eqb c sep then cur :: split_go sep EmptyString s'
      else split_go sep (cur +:+ str1 c) s'
  end.

Definition split (sep : ascii) (s : string) : list string :=
  split_go sep EmptyString s.

(** [parts.join(sep)] *)
Definition join (sep : string) (parts : list string) : string :=
  String.concat sep parts.

(** [s.indexOf(pat)]: the least position at which [pat] occurs. *)
Fixpoint indexOf (pat s : string) : option nat :=
  if startsWith pat s then Some O
  else match s with
       | EmptyString => None
       | String _ s' => option_map S (indexOf pat s')
       end.

(** [s.replace(pat, rep)] with a string pattern: the first occurrence of
    [pat] is replaced, the rest of [s] is kept.  The [$]-patterns of the
    replacement text are not modelled: every replacement the program
    builds comes out of [encodeURIComponent], which writes no [$]
    (lemma [encodeURIComponent_no_dollar] below). *)
Fixpoint replace (pat rep s : string) : string :=
  if startsWith pat s then rep +:+ sdrop (String.length pat) s
  else match s with
       | EmptyString => EmptyString
       | String c s' => String c (replace pat rep s')
       end.

(** [s.replace(/\/$/, '')] *)
Fixpoint strip_trailing_slash (s : string) : string :=
  match s with
  | EmptyString => EmptyString
  | String c s' =>
      if Ascii.eqb c "/" && is_empty s' then EmptyString
      else String c (strip_trailing_slash s')
  end.

(** *** Numbers *)

Definition string_of_Z (z : Z) : string :=
  NilZero.string_of_int (Z.to_int z).

Definition hex_digit (n : nat) : ascii :=
  if Nat.ltb n 10 then ascii_of_nat (48 + n) else ascii_of_nat (55 + n).

Definition hex_digit_lower (n : nat) : ascii :=
  if Nat.ltb n 10 then ascii_of_nat (48 + n) else ascii_of_nat (87 + n).

(** *** Values *)

Inductive JsValue : Type :=
| JUndefined
| JNull
| JBool (b : bool)
| JNum (z : Z)
| JStr (s : string)
| JArr (items : list JsValue)
| JObj (props : list (string * JsValue))
| JFun (name : string).

(** ToBoolean *)
Definition truthy (v : JsValue) : bool :=
  match v with
  | JUndefined | JNull => false
  | JBool b => b
  | JNum z => negb (Z.eqb z 0)
  | JStr s => negb (is_empty s)
  | JArr _ | JObj _ | JFun _ => true
  end.

Definition is_undefined (v : JsValue) : bool :=
  match v with JUndefined => true | _ => false end.

(** [o[k]] on the list of own properties. *)
Fixpoint lookup_prop (k : string) (props : list (string * JsValue)) : JsValue :=
  match props with
  | [] => JUndefined
  | (k', v) :: rest => if String.eqb k' k then v else lookup_prop k rest
  end.

(** [v[k]] for a key that is a property of [v] itself or of nothing on
    its prototype chain.  The program reads the documents this way under
    fixed names ([summary], [parameters], [name], [in], the methods
    ...), none of which a built-in object has, but for the [name] of a
    function. *)
Definition get (v : JsValue) (k : string) : JsValue :=
  match v with
  | JObj props => lookup_prop k props
  | JFun name => if String.eqb k "name" then JStr name else JUndefined
  | _ => JUndefined
  end.

(** The members of [Object.prototype], which every plain object
    inherits: eleven built-in functions, [constructor] being [Object],
    and under [__proto__] the prototype itself, an object without
    enumerable properties. *)
Definition object_prototype (k : string) : JsValue :=
  if String.eqb k "constructor" then JFun "Object"
  else if existsb (String.eqb k)
            ["toString"; "valueOf"; "hasOwnProperty"; "isPrototypeOf";
             "propertyIsEnumerable"; "toLocaleString"; "__defineGetter__";
             "__defineSetter__"; "__lookupGetter__"; "__lookupSetter__"]
  then JFun k
  else if String.eqb k "__proto__" then JObj []
  else JUndefined.

(** [obj[k]] on a plain object with the own properties [props]: the own
    property when there is one, else the member that the object
    inherits. *)
Definition read (props : list (string * JsValue)) (k : string) : JsValue :=
  if existsb (fun kv => String.eqb (fst kv) k) props then lookup_prop k props
  else object_prototype k.

(** [k in v] *)
Definition has (v : JsValue) (k : string) : bool :=
  match v with
  | JObj props => existsb (fun kv => String.eqb (fst kv) k) props
  | _ => false
  end.

(** [v === 'lit'] *)
Definition is_str (lit : string) (v : JsValue) : bool :=
  match v with
  | JStr s => String.eqb s lit
  | _ => false
  end.

(** [a || b] *)
Definition js_or (a b : JsValue) : JsValue := if truthy a then a else b.

(** [String(v)], also the coercion of a template literal. *)
Fixpoint toString (v : JsValue) : string :=
  match v with
  | JUndefined => "undefined"
  | JNull => "null"
  | JBool true => "true"
  | JBool false => "false"
  | JNum z => string_of_Z z
  | JStr s => s
  | JArr items =>
      join "," (map (fun x => match x with
                              | JUndefined | JNull => EmptyString
                              | _ => toString x
                              end) items)
  | JObj _ => "[object Object]"
  | JFun name => "function " +:+ name +:+ "() { [native code] }"
  end.

(** *** JSON.stringify(v, null, 2) *)

Definition escape_char (c : ascii) : string :=
  if Ascii.eqb c dquote then String backslash (str1 dquote)
  else if Ascii.eqb c backslash then String backslash (str1 backslash)
  else if Nat.eqb (code c) 8 then String backslash "b"
  else if Nat.eqb (code c) 9 then String backslash "t"
  else if Nat.eqb (code c) 10 then String backslash "n"
  else if Nat.eqb (code c) 12 then String backslash "f"
  else if Nat.eqb (code c) 13 then String backslash "r"
  else if Nat.ltb (code c) 32 then
    String backslash ("u00" +:+ String (hex_digit_lower (Nat.div (code c) 16))
                                 (str1 (hex_digit_lower (Nat.modulo (code c) 16))))
  else str1 c.

Fixpoint escape (s : string) : string :=
  match s with
  | EmptyString => EmptyString
  | String c s' => escape_char c +:+ escape s'
  end.

(** QuoteJSONString *)
Definition quote (s : string) : string :=
  String dquote (escape s +:+ str1 dquote).

Definition gap : string := "  ".

Definition wrap (open close stepback indent : string)
    (partial : list string) : string :=
  match partial with
  | [] => open +:+ close
  | _ => open +:+ str1 newline +:+ indent
         +:+ join ("," +:+ str1 newline +:+ indent) partial
         +:+ str1 newline +:+ stepback +:+ close
  end.

(** SerializeJSONProperty at the current indentation; [None] stands for
    the [undefined] that [JSON.stringify] gives for an [undefined] and
    for a function. *)
Fixpoint serialize (indent : string) (v : JsValue) : option string :=
  match v with
  | JUndefined | JFun _ => None
  | JNull => Some "null"
  | JBool true => Some "true"
  | JBool false => Some "false"
  | JNum z => Some (string_of_Z z)
  | JStr s => Some (quote s)
  | JArr items =>
      let inner := indent +:+ gap in
      Some (wrap "[" "]" indent inner
              (map (fun x => match serialize inner x with
                             | Some s => s
                             | None => "null"
                             end) items))
  | JObj props =>
      let inner := indent +:+ gap in
      Some (wrap "{" "}" indent inner
              ((fix members (ps : list (string * JsValue)) : list string :=
                  match ps with
                  | [] => []
                  | (k, x) :: ps' =>
                      match serialize inner x with
                      | Some s => (quote k +:+ ": " +:+ s) :: members ps'
                      | None => members ps'
                      end
                  end) props))
  end.

(** [JSON.stringify(v, null, 2)] spliced into a template literal. *)
Definition stringify2 (v : JsValue) : string :=
  match serialize EmptyString v with
  | Some s => s
  | None => "undefined"
  end.

(** The members of an object at one level of nesting: the properties
    whose value is neither [undefined] nor a function, each as
    [ "key": value ]. *)
Definition members_at (inner : string) (props : list (string * JsValue))
    : list string :=
  omap (fun kv => match serialize inner (snd kv) with
                  | Some s => Some (quote (fst kv) +:+ ": " +:+ s)
                  | None => None
                  end) props.

(** Lines between two brackets, each two spaces deeper than the line of
    the brackets and separated by commas; the brackets alone when there
    is no line. *)
Definition pretty_2 (open close indent : string) (lines : list string) : string :=
  match lines with
  | [] => open +:+ close
  | _ => open +:+ str1 newline +:+ (indent +:+ "  ")
         +:+ join ("," +:+ str1 newline +:+ (indent +:+ "  ")) lines
         +:+ str1 newline +:+ indent +:+ close
  end.

(** *** encodeURIComponent *)

(** The characters that [encodeURIComponent] leaves as they are:
    letters, digits and [- _ . ! ~ * ' ( )]. *)
Definition uri_unreserved (c : ascii) : bool :=
  is_alnum c
  || existsb (Ascii.eqb c)
       ["-"; "_"; "."; "!"; "~"; "*"; "'"; "("; ")"]%char.

Definition percent_encode (c : ascii) : string :=
  String "%" (String (hex_digit (Nat.div (code c) 16))
                (str1 (hex_digit (Nat.modulo (code c) 16)))).

Fixpoint encodeURIComponent (s : string) : string :=
  match s with
  | EmptyString => EmptyString
  | String c s' =>
      (if uri_unreserved c then str1 c else percent_encode c)
      +:+ encodeURIComponent s'
  end.

(** The characters that [encodeURIComponent] can write. *)
Definition uri_safe (c : ascii) : bool :=
  uri_unreserved c || Ascii.eqb c "%".

(** Text without braces. *)
Definition brace_free (s : string) : bool :=
  sforall (fun c => negb (Ascii.eqb c "{") && negb (Ascii.eqb c "}")) s.

(** *** Buffer.from(s).toString('base64') *)

Definition b64_alphabet : string :=
  "ABCDEFGHIJKLMNOPQRSTUVWXYZabcdefghijklmnopqrstuvwxyz0123456789+/".

Definition b64_char (n : nat) : ascii :=
  match String.get n b64_alphabet with
  | Some c => c
  | None => "="%char
  end.

Fixpoint base64_bytes (bs : list nat) : string :=
  match bs with
  | [] => EmptyString
  | [a] =>
      String (b64_char (Nat.div a 4))
        (String (b64_char (Nat.modulo a 4 * 16)) "==")
  | [a; b] =>
      String (b64_char (Nat.div a 4))
        (String (b64_char (Nat.modulo a 4 * 16 + Nat.div b 16))
           (String (b64_char (Nat.modulo b 16 * 4)) "="))
  | a :: b :: c :: rest =>
      String (b64_char (Nat.div a 4))
        (String (b64_char (Nat.modulo a 4 * 16 + Nat.div b 16))
           (String (b64_char (Nat.modulo b 16 * 4 + Nat.div c 64))
              (String (b64_char (Nat.modulo c 64)) (base64_bytes rest))))
  end.

Fixpoint bytes_of (s : string) : list nat :=
  match s with
  | EmptyString => []
  | String c s' => code c :: bytes_of s'
  end.

Definition base64 (s : string) : string := base64_bytes (bytes_of s).

End Js.

(* ===================================================================== *)
(** ** The description compiler: [src/utils/openapi-parser.ts] *)
(* ===================================================================== *)

Module OpenapiParser.
Import Js.

(** Modelled from the spec: the interface [ToolParameter] of
    [src/types.ts], a file that is not among the sources.  The fields are
    those of the Parameter Spec of the design document, which are also
    those of the object that [extractParameters] builds; each holds the
    value read off the document. *)
Record ToolParameter : Type := mkToolParameter {
  name : JsValue;
  in_ : JsValue;
  required : JsValue;
  schema : JsValue;
  description : JsValue
}.

(** Modelled from the spec: the interface [GeneratedTool] of
    [src/types.ts], the Tool Definition of the design document.  The
    fields are those of the object that [createToolFromOperation]
    builds; the fields [name] and [description] are written [tool_name]
    and [tool_description] here. *)
Record GeneratedTool : Type := mkGeneratedTool {
  tool_name : string;
  tool_description : JsValue;
  operationId : JsValue;
  method : string;
  path : string;
  parameters : list ToolParameter;
  requestBody : JsValue;
  responses : JsValue;
  security : JsValue;
  baseUrl : string
}.

(** The segments of the path template that go into a synthesized name:
    [pathTemplate.split('/').filter(part => part && !part.startsWith('{'))
      .map(part => part.replace(/[^a-zA-Z0-9]/g, ''))]. *)
Definition pathParts (pathTemplate : string) : list string :=
  map (sfilter is_alnum)
    (List.filter (fun part => negb (is_empty part) && negb (startsWith "{" part))
       (split "/" pathTemplate)).

Definition generateToolName (apiName : string) (operation : JsValue)
    (pathTemplate : string) (method : string) : string :=
  if truthy (get operation "operationId") then
    apiName +:+ "_" +:+ toString (get operation "operationId")
  else
    let joined := join "_" (pathParts pathTemplate) in
    let pathName := if is_empty joined then "root" else joined in
    apiName +:+ "_" +:+ method +:+ "_" +:+ pathName.

(** One turn of the loop of [extractParameters]: [None] when the entry is
    skipped, the parameter that is pushed otherwise. *)
Definition extract_entry (param : list (string * JsValue)) : option ToolParameter :=
  if has (JObj param) "$ref" then None
  else if truthy (get (JObj param) "in") && truthy (get (JObj param) "name")
          && truthy (get (JObj param) "schema")
  then Some {| name := get (JObj param) "name";
               in_ := get (JObj param) "in";
               required := js_or (get (JObj param) "required")
                             (JBool (is_str "path" (get (JObj param) "in")));
               schema := get (JObj param) "schema";
               description := get (JObj param) "description" |}
  else None.

(** [extractParameters]: [None] stands for the [TypeError] that
    ['$ref' in paramRef] raises on an entry that is not an object.  An
    array, like a function, is an object without the field [in], and is
    skipped. *)
Fixpoint extract_loop (paramRefs : list JsValue) (parameters : list ToolParameter)
    : option (list ToolParameter) :=
  match paramRefs with
  | [] => Some parameters
  | JObj param :: rest =>
      match extract_entry param with
      | Some p => extract_loop rest (parameters ++ [p])
      | None => extract_loop rest parameters
      end
  | JArr _ :: rest | JFun _ :: rest => extract_loop rest parameters
  | _ :: _ => None
  end.

Definition extractParameters (paramRefs : list JsValue) : option (list ToolParameter) :=
  extract_loop paramRefs [].

(** [...(v || [])]: the elements of an array; anything else that is
    truthy either cannot be spread or spreads into entries that are not
    objects, and the operation fails both ways. *)
Definition spread_or_empty (v : JsValue) : option (list JsValue) :=
  match js_or v (JArr []) with
  | JArr items => Some items
  | _ => None
  end.

(** [createToolFromOperation]: [None] is the [null] of the [catch]. *)
Definition createToolFromOperation (apiName pathTemplate method : string)
    (operation : JsValue) (baseUrl : string) (pathLevelParams : JsValue)
    : option GeneratedTool :=
  let toolName := generateToolName apiName operation pathTemplate method in
  let description :=
    js_or (get operation "summary")
      (js_or (get operation "description")
         (JStr (toUpperCase method +:+ " " +:+ pathTemplate))) in
  match spread_or_empty pathLevelParams,
        spread_or_empty (get operation "parameters") with
  | Some pl, Some ol =>
      match extractParameters (pl ++ ol) with
      | Some parameters =>
          Some {| tool_name := toolName;
                  tool_description := description;
                  operationId := get operation "operationId";
                  method := toUpperCase method;
                  path := pathTemplate;
                  parameters := parameters;
                  requestBody := get operation "requestBody";
                  responses := get operation "responses";
                  security := js_or (get operation "security") (JArr []);
                  baseUrl := baseUrl |}
      | None => None
      end
  | _, _ => None
  end.

(** The name as the design document words it, for comparison with
    [generateToolName]: the operation's identifier when it has one, else
    the kept segments joined, [root] when no segment remains. *)
Definition spec_pathName (pathTemplate : string) : string :=
  match pathParts pathTemplate with
  | [] => "root"
  | parts => join "_" parts
  end.

Definition spec_toolName (namespace : string) (operationId : option string)
    (pathTemplate method : string) : string :=
  match operationId with
  | Some opId => namespace +:+ "_" +:+ opId
  | None => namespace +:+ "_" +:+ method +:+ "_" +:+ spec_pathName pathTemplate
  end.

End OpenapiParser.

(* ===================================================================== *)
(** ** The credential resolver: [src/utils/auth.ts] *)
(* ===================================================================== *)

Module Auth.
Import Js.

(** Modelled from the spec: one descriptor of the interface [AuthConfig]
    of [src/types.ts], the Credential Descriptor of the design document,
    with the fields that [loadAuthConfig] writes and [applyAuthentication]
    reads; a field that is not set is [None]. *)
Record AuthEntry : Type := mkAuthEntry {
  type : string;
  token : option string;
  headerName : option string;
  username : option string;
  password : option string
}.

(** The property that an environment entry writes. *)
Inductive ConfigKey : Type := KToken | KUsername | KPassword.

(** Truth value of an optional string field. *)
Definition set_and_nonempty (o : option string) : bool :=
  match o with
  | Some s => negb (is_empty s)
  | None => false
  end.

(** A field spliced into a template literal. *)
Definition field_text (o : option string) : string :=
  match o with
  | Some s => s
  | None => "undefined"
  end.

(** The line terminators, which the [.] of a pattern does not match:
    the line feed and the carriage return, of one byte each, and the
    line separator U+2028 and the paragraph separator U+2029, which are
    three bytes each in the UTF-8 reading of text. *)
Definition is_lf_or_cr (c : ascii) : bool :=
  Nat.eqb (code c) 10 || Nat.eqb (code c) 13.

Definition line_separator : string :=
  String (ascii_of_nat 226) (String (ascii_of_nat 128) (str1 (ascii_of_nat 168))).

Definition paragraph_separator : string :=
  String (ascii_of_nat 226) (String (ascii_of_nat 128) (str1 (ascii_of_nat 169))).

Definition has_line_terminator (p : string) : bool :=
  negb (sforall (fun c => negb (is_lf_or_cr c)) p)
  || includes line_separator p || includes paragraph_separator p.

(** [key.match(/^(.+)SUFFIX$/)]: the captured group.  The group is not
    empty and, [.] matching no line terminator, holds none. *)
Definition match_suffix (suffix key : string) : option string :=
  match strip_suffix suffix key with
  | Some p =>
      if negb (is_empty p) && negb (has_line_terminator p)
      then Some p else None
  | None => None
  end.

(** The chain of patterns of [loadAuthConfig]: namespace, kind and the
    property written, for a key that one of them recognises. *)
Definition classify (key : string) : option (string * string * ConfigKey) :=
  let apiKeyMatch := match_suffix "_API_KEY" key in
  let tokenMatch := match_suffix "_TOKEN" key in
  let bearerMatch := match_suffix "_BEARER_TOKEN" key in
  let basicUserMatch := match_suffix "_USERNAME" key in
  let basicPassMatch := match_suffix "_PASSWORD" key in
  match bearerMatch with
  | Some m => Some (toLowerCase m, "bearer", KToken)
  | None =>
  match apiKeyMatch with
  | Some m => Some (toLowerCase m, "apiKey", KToken)
  | None =>
  match (if includes "BEARER" key then None else tokenMatch) with
  | Some m => Some (toLowerCase m, "bearer", KToken)
  | None =>
  match basicUserMatch with
  | Some m => Some (toLowerCase m, "basic", KUsername)
  | None =>
  match basicPassMatch with
  | Some m => Some (toLowerCase m, "basic", KPassword)
  | None => None
  end end end end end.

Definition set_type (t : string) (e : AuthEntry) : AuthEntry :=
  {| type := t; token := token e; headerName := headerName e;
     username := username e; password := password e |}.

Definition set_headerName (h : string) (e : AuthEntry) : AuthEntry :=
  {| type := type e; token := token e; headerName := Some h;
     username := username e; password := password e |}.

(** [entry[configKey] = value] *)
Definition set_field (k : ConfigKey) (value : string) (e : AuthEntry) : AuthEntry :=
  match k with
  | KToken =>
      {| type := type e; token := Some value; headerName := headerName e;
         username := username e; password := password e |}
  | KUsername =>
      {| type := type e; token := token e; headerName := headerName e;
         username := Some value; password := password e |}
  | KPassword =>
      {| type := type e; token := token e; headerName := headerName e;
         username := username e; password := Some value |}
  end.

(** [{ type: authType }] *)
Definition new_entry (authType : string) : AuthEntry :=
  {| type := authType; token := None; headerName := None;
     username := None; password := None |}.

(** What a recognised entry does to the descriptor of its namespace. *)
Definition update_entry (authType : string) (configKey : ConfigKey)
    (value : string) (old : option AuthEntry) : AuthEntry :=
  let e0 := match old with Some e => e | None => new_entry authType end in
  let e1 := if String.eqb authType "bearer" && negb (String.eqb (type e0) "bearer")
            then set_type authType e0 else e0 in
  let e2 := set_field configKey value e1 in
  if String.eqb authType "apiKey" && negb (set_and_nonempty (headerName e2))
  then set_headerName "X-API-Key" e2 else e2.

(** The two namespaces under which an object without such a property
    of its own answers with a built-in object: [Object] for
    [constructor] and [Object.prototype] for [__proto__].  No other
    member of [Object.prototype] has a name in lower case. *)
Definition builtin_namespace (apiName : string) : bool :=
  String.eqb apiName "constructor" || String.eqb apiName "__proto__".

(** The body of the loop over [Object.entries(process.env)], on the map
    of the descriptors that [authConfig] holds as its own properties.
    For a namespace that [authConfig] has no descriptor of,
    [authConfig[apiName]] is [undefined] and a descriptor is created,
    but for the two built-in namespaces: there the read gives the
    built-in object, which is truthy, no descriptor is created, and the
    assignments that follow write on [Object] or on [Object.prototype].
    The map is then left as it is.  The built-in objects themselves are
    not followed: the map is what the program reads as long as nothing
    has been written on [Object.prototype], and the properties below
    that depend on it take an environment without an entry of the
    namespace [__proto__]. *)
Definition load_step (authConfig : gmap string AuthEntry) (entry : string * string)
    : gmap string AuthEntry :=
  let '(key, value) := entry in
  if is_empty value then authConfig
  else match classify key with
       | Some (apiName, authType, configKey) =>
           if negb (is_empty apiName) then
             match authConfig !! apiName with
             | None =>
                 if builtin_namespace apiName then authConfig
                 else <[apiName := update_entry authType configKey value None]>
                        authConfig
             | Some e =>
                 <[apiName := update_entry authType configKey value (Some e)]>
                   authConfig
             end
           else authConfig
       | None => authConfig
       end.

(** [loadAuthConfig] on the environment, the entries of the [.env] file
    already merged into it. *)
Definition loadAuthConfig (env : list (string * string)) : gmap string AuthEntry :=
  fold_left load_step env ∅.

(** An environment that makes the resolver write nothing on
    [Object.prototype]: no entry with a value is of the namespace
    [__proto__]. *)
Definition prototype_untouched (env : list (string * string)) : bool :=
  forallb
    (fun entry =>
       is_empty (snd entry)
       || match classify (fst entry) with
          | Some (apiName, _, _) => negb (String.eqb apiName "__proto__")
          | None => true
          end)
    env.

Definition applyAuthentication (headers : gmap string string)
    (authConfig : option AuthEntry) : gmap string string :=
  match authConfig with
  | None => headers
  | Some a =>
      if String.eqb (type a) "bearer" then
        if set_and_nonempty (token a)
        then <["Authorization" := "Bearer " +:+ field_text (token a)]> headers
        else headers
      else if String.eqb (type a) "apiKey" then
        if set_and_nonempty (token a) && set_and_nonempty (headerName a)
        then <[field_text (headerName a) := field_text (token a)]> headers
        else headers
      else if String.eqb (type a) "basic" then
        if set_and_nonempty (username a) && set_and_nonempty (password a)
        then <["Authorization" :=
                 "Basic " +:+ base64 (field_text (username a) +:+ ":"
                                      +:+ field_text (password a))]> headers
        else headers
      else headers
  end.

(** What holds of every descriptor that the resolver builds: the header
    name is the default one if it is set at all, and a descriptor of
    kind [apiKey] has it set, together with a token that is not empty. *)
Definition resolved (a : AuthEntry) : Prop :=
  (headerName a = None \/ headerName a = Some "X-API-Key")
  /\ (type a = "apiKey" ->
      headerName a = Some "X-API-Key"
      /\ exists t, token a = Some t /\ t <> EmptyString).

End Auth.

(* ===================================================================== *)
(** ** The request builder and executor: [src/utils/http-client.ts] *)
(* ===================================================================== *)

Module HttpClient.
Import Js OpenapiParser Auth.

(** Modelled from the spec: the interface [ToolExecutionContext] of
    [src/types.ts], with the fields of the object that the registry
    passes to [executeRequest]. *)
Record ToolExecutionContext : Type := mkContext {
  apiName : string;
  tool : GeneratedTool;
  authConfig : option AuthEntry
}.

(** The fields of the HTTP library's [AxiosRequestConfig] that the
    builder sets; [params] and [data] are [None] when the property is
    left out.  The field [method] is written [config_method] here. *)
Record AxiosRequestConfig : Type := mkConfig {
  config_method : string;
  url : string;
  headers : gmap string string;
  timeout : Z;
  params : option (list (string * JsValue));
  data : option JsValue
}.

(** The fields of the HTTP library's [AxiosResponse] that are read;
    [headers] and [data] are written [response_headers] and
    [response_data] here. *)
Record AxiosResponse : Type := mkResponse {
  status : Z;
  statusText : string;
  response_headers : list (string * JsValue);
  response_data : JsValue
}.

(** What a [catch] can receive. *)
Inductive Thrown : Type :=
| AxiosError (response : option AxiosResponse) (message : string)
| ErrorObject (message : string)
| ThrownValue (v : JsValue).

(** The outcome of a call that may throw, or of a promise. *)
Inductive Completion (A : Type) : Type :=
| Returned (a : A)
| Threw (e : Thrown).
Arguments Returned {A} a.
Arguments Threw {A} e.

Definition bind {A B} (c : Completion A) (k : A -> Completion B) : Completion B :=
  match c with
  | Returned a => k a
  | Threw e => Threw e
  end.

(** [try { body } catch (error) { handler }] *)
Definition try_catch {A} (body : Completion A) (handler : Thrown -> Completion A)
    : Completion A :=
  match body with
  | Returned a => Returned a
  | Threw e => handler e
  end.

Notation "'let*' x ':=' c 'in' k" := (bind c (fun x => k))
  (at level 10, x name, c at level 100, k at level 200).

(** [args[param.name]].  The arguments are a plain object: under a name
    that is no argument of the call, the read still finds the member
    that every object inherits under that name, if there is one
    ([toString], [constructor] ...), and is [undefined] otherwise. *)
Definition arg (args : list (string * JsValue)) (p : ToolParameter) : JsValue :=
  read args (toString (name p)).

(** [__proto__] is no key of a plain object but the accessor of its
    prototype: an assignment [obj[k] = v] under that name adds no
    property to [obj]. *)
Definition is_proto (k : string) : bool := String.eqb k "__proto__".

(** [obj[k] = v] on the list of own properties. *)
Fixpoint set_prop (k : string) (v : JsValue) (props : list (string * JsValue))
    : list (string * JsValue) :=
  match props with
  | [] => [(k, v)]
  | (k', v') :: rest =>
      if String.eqb k' k then (k', v) :: rest else (k', v') :: set_prop k v rest
  end.

(** The body of the loop of [buildUrl]. *)
Definition substitute (args : list (string * JsValue)) (url : string)
    (param : ToolParameter) : string :=
  if is_str "path" (in_ param) && negb (is_undefined (arg args param)) then
    replace ("{" +:+ toString (name param) +:+ "}")
      (encodeURIComponent (toString (arg args param))) url
  else url.

Definition buildUrl (tool : GeneratedTool) (args : list (string * JsValue)) : string :=
  fold_left (substitute args) (parameters tool)
    (strip_trailing_slash (baseUrl tool) +:+ path tool).

Definition addHeaderParameters (tool : GeneratedTool) (args : list (string * JsValue))
    (headers : gmap string string) : gmap string string :=
  fold_left
    (fun (hs : gmap string string) param =>
       if is_str "header" (in_ param) && negb (is_undefined (arg args param))
       then (if is_proto (toString (name param)) then hs
             else <[toString (name param) := toString (arg args param)]> hs)
       else hs)
    (parameters tool) headers.

Definition buildQueryParameters (tool : GeneratedTool) (args : list (string * JsValue))
    : list (string * JsValue) :=
  fold_left
    (fun ps param =>
       if is_str "query" (in_ param) && negb (is_undefined (arg args param))
       then (if is_proto (toString (name param)) then ps
             else set_prop (toString (name param)) (arg args param) ps)
       else ps)
    (parameters tool) [].

(** [paramNames.has(key)] *)
Definition is_param_name (tool : GeneratedTool) (key : string) : bool :=
  existsb (fun p => is_str key (name p)) (parameters tool).

(** The arguments that are no declared parameter, gathered in [bodyArgs]. *)
Definition collect_body_args (tool : GeneratedTool) (args : list (string * JsValue))
    : list (string * JsValue) :=
  fold_left
    (fun bodyArgs kv =>
       if negb (is_param_name tool (fst kv)) then set_prop (fst kv) (snd kv) bodyArgs
       else bodyArgs)
    args [].

(** [buildRequestBody]; [JNull] is the [null] that means no body. *)
Definition buildRequestBody (tool : GeneratedTool) (args : list (string * JsValue))
    : JsValue :=
  if negb (truthy (requestBody tool)) then JNull
  else if negb (is_undefined (lookup_prop "body" args)) then lookup_prop "body" args
  else if negb (is_undefined (lookup_prop "requestBody" args))
  then lookup_prop "requestBody" args
  else
    let bodyArgs := collect_body_args tool args in
    if Nat.ltb 0 (length bodyArgs) then JObj bodyArgs else JNull.

Definition base_headers : gmap string string :=
  <["User-Agent" := "specbridge/1.0.2"]>
    (<["Content-Type" := "application/json"]> ∅).

Definition is_null (v : JsValue) : bool :=
  match v with JNull => true | _ => false end.

Definition buildRequestConfig (context : ToolExecutionContext)
    (args : list (string * JsValue)) : AxiosRequestConfig :=
  let tool := tool context in
  let url := buildUrl tool args in
  let headers := applyAuthentication base_headers (authConfig context) in
  let headers := addHeaderParameters tool args headers in
  let params := buildQueryParameters tool args in
  let data := buildRequestBody tool args in
  {| config_method := toLowerCase (method tool);
     url := url;
     headers := headers;
     timeout := 30000%Z;
     params := if Nat.ltb 0 (length params) then Some params else None;
     data := if negb (is_null data) then Some data else None |}.

Definition formatResponse (response : AxiosResponse) : string :=
  let headers :=
    join (str1 newline)
      (map (fun kv => fst kv +:+ ": " +:+ toString (snd kv))
         (response_headers response)) in
  let body :=
    match response_data response with
    | JStr s => s
    | JNull | JUndefined => "(empty response)"
    | other => stringify2 other
    end in
  "Status: " +:+ string_of_Z (status response) +:+ " " +:+ statusText response
  +:+ str1 newline +:+ str1 newline +:+ "Headers:" +:+ str1 newline +:+ headers
  +:+ str1 newline +:+ str1 newline +:+ "Body:" +:+ str1 newline +:+ body.

(** The part of the rendering that stands before the body. *)
Definition status_and_headers (response : AxiosResponse) : string :=
  "Status: " +:+ string_of_Z (status response) +:+ " " +:+ statusText response
  +:+ str1 newline +:+ str1 newline +:+ "Headers:" +:+ str1 newline
  +:+ join (str1 newline)
        (map (fun kv => fst kv +:+ ": " +:+ toString (snd kv))
           (response_headers response))
  +:+ str1 newline +:+ str1 newline +:+ "Body:" +:+ str1 newline.

(** The [catch] of [executeRequest]. *)
Definition render_failure (error : Thrown) : string :=
  match error with
  | AxiosError response message =>
      let status :=
        match response with
        | Some r => if Z.eqb (status r) 0 then "Unknown" else string_of_Z (status r)
        | None => "Unknown"
        end in
      let message :=
        match response with
        | Some r => js_or (response_data r) (JStr message)
        | None => JStr message
        end in
      "HTTP Error " +:+ status +:+ ": " +:+ stringify2 message
  | ErrorObject message => "Request failed: " +:+ message
  | ThrownValue v => "Request failed: " +:+ toString v
  end.

(** [executeRequest], the HTTP library being [axios]. *)
Definition executeRequest (axios : AxiosRequestConfig -> Completion AxiosResponse)
    (context : ToolExecutionContext) (args : list (string * JsValue))
    : Completion string :=
  try_catch
    (let* requestConfig := Returned (buildRequestConfig context args) in
     let* response := axios requestConfig in
     Returned (formatResponse response))
    (fun error => Returned (render_failure error)).

End HttpClient.

(* ===================================================================== *)
(** ** URL templates read as tokens *)
(* ===================================================================== *)

Module UrlTemplate.
Import Js OpenapiParser HttpClient.

(** A URL whose placeholders are not nested is a sequence of literal
    pieces and placeholders. *)
Inductive token : Type :=
| Lit (s : string)
| Hole (x : string).

Definition render_token (t : token) : string :=
  match t with
  | Lit s => s
  | Hole x => "{" +:+ x +:+ "}"
  end.

Fixpoint render (ts : list token) : string :=
  match ts with
  | [] => EmptyString
  | t :: ts' => render_token t +:+ render ts'
  end.

(** No brace inside a literal piece or inside a placeholder's name. *)
Definition flat_token (t : token) : bool :=
  match t with
  | Lit s => brace_free s
  | Hole x => brace_free x
  end.

Definition flat (ts : list token) : bool := forallb flat_token ts.

(** The first placeholder named [n] becomes the text [v]. *)
Fixpoint fill_first (n v : string) (ts : list token) : list token :=
  match ts with
  | [] => []
  | Lit s :: ts' => Lit s :: fill_first n v ts'
  | Hole x :: ts' =>
      if String.eqb x n then Lit v :: ts' else Hole x :: fill_first n v ts'
  end.

(** The number of placeholders named [n]. *)
Fixpoint holes (n : string) (ts : list token) : nat :=
  match ts with
  | [] => O
  | Lit _ :: ts' => holes n ts'
  | Hole x :: ts' => (if String.eqb x n then 1 else 0) + holes n ts'
  end.

(** A parameter that [buildUrl] substitutes: a path parameter with an
    argument. *)
Definition substituted (args : list (string * JsValue)) (p : ToolParameter) : bool :=
  is_str "path" (in_ p) && negb (is_undefined (arg args p)).

(** The loop body of [buildUrl], on tokens. *)
Definition fill (args : list (string * JsValue)) (ts : list token)
    (p : ToolParameter) : list token :=
  if substituted args p
  then fill_first (toString (name p)) (encodeURIComponent (toString (arg args p))) ts
  else ts.

End UrlTemplate.

(* ===================================================================== *)
(** ** Sample documents, tools and calls *)
(* ===================================================================== *)

Module Samples.
Import Js OpenapiParser Auth HttpClient.

(** A path parameter entry of a document, with its [required] field. *)
Definition petId_entry (declared : JsValue) : list (string * JsValue) :=
  [("name", JStr "petId"); ("in", JStr "path"); ("required", declared);
   ("schema", JObj [("type", JStr "string")])].

(** The parameter extracted from [petId_entry]. *)
Definition petId_param : ToolParameter :=
  {| name := JStr "petId"; in_ := JStr "path"; required := JBool true;
     schema := JObj [("type", JStr "string")]; description := JUndefined |}.

(** [POST /pet] of the Petstore document. *)
Definition addPet : GeneratedTool :=
  {| tool_name := "petstore_addPet"; tool_description := JStr "Add a pet";
     operationId := JStr "addPet"; method := "POST"; path := "/pet";
     parameters :=
       [{| name := JStr "verbose"; in_ := JStr "query"; required := JBool false;
           schema := JObj [("type", JStr "boolean")];
           description := JUndefined |}];
     requestBody := JObj [("required", JBool true)];
     responses := JObj []; security := JArr [];
     baseUrl := "https://petstore.example.com/v1" |}.

(** [GET /pet/{petId}] of the Petstore document. *)
Definition getPetById : GeneratedTool :=
  {| tool_name := "petstore_getPetById"; tool_description := JStr "Find pet by ID";
     operationId := JStr "getPetById"; method := "GET"; path := "/pet/{petId}";
     parameters :=
       [{| name := JStr "petId"; in_ := JStr "path"; required := JBool true;
           schema := JObj [("type", JStr "integer")];
           description := JUndefined |}];
     requestBody := JUndefined;
     responses := JObj []; security := JArr [];
     baseUrl := "https://petstore.example.com/v1" |}.

Definition petstore_call : ToolExecutionContext :=
  {| apiName := "petstore"; tool := getPetById; authConfig := None |}.

Definition not_found : AxiosResponse :=
  {| status := 404; statusText := "Not Found"; response_headers := [];
     response_data := JObj [("message", JStr "not found")] |}.

Definition path_param (n : string) : ToolParameter :=
  {| name := JStr n; in_ := JStr "path"; required := JBool true;
     schema := JObj [("type", JStr "string")]; description := JUndefined |}.

Definition query_param (n : string) : ToolParameter :=
  {| name := JStr n; in_ := JStr "query"; required := JBool false;
     schema := JObj [("type", JStr "string")]; description := JUndefined |}.

Definition get_tool (base path : string) (params : list ToolParameter)
    : GeneratedTool :=
  {| tool_name := "api_get"; tool_description := JStr "GET";
     operationId := JUndefined; method := "GET"; path := path;
     parameters := params; requestBody := JUndefined;
     responses := JObj []; security := JArr []; baseUrl := base |}.

End Samples.

(* ===================================================================== *)
(** ** File names: Node's [path] module, and [getApiNameFromFile] *)
(* ===================================================================== *)

Module NodePath.
Import Js.

(** The last piece of a list of pieces that is not empty, [best] when
    there is none. *)
Definition last_nonempty (pieces : list string) : string :=
  fold_left (fun best piece => if is_empty piece then best else piece)
    pieces EmptyString.

(** [path.basename(p)] of the POSIX flavour: the last run of characters
    other than [/]; slashes at the end are not part of it. *)
Definition basename (p : string) : string := last_nonempty (split "/" p).

(** The text before the last [.] of [s] and the text from that [.] on. *)
Fixpoint last_dot (s : string) : option (string * string) :=
  match s with
  | EmptyString => None
  | String c s' =>
      match last_dot s' with
      | Some (pre, ext) => Some (String c pre, ext)
      | None => if Ascii.eqb c "." then Some (EmptyString, String c s') else None
      end
  end.

(** [path.extname(p)]: from the last [.] of the base name to its end;
    empty when the base name has no [.], when its only [.] is its first
    character, and for the base name [..]. *)
Definition extname (p : string) : string :=
  match last_dot (basename p) with
  | None => EmptyString
  | Some (pre, ext) =>
      if is_empty pre then EmptyString
      else if String.eqb (basename p) ".." then EmptyString
      else ext
  end.

(** The slashes that end [p]. *)
Fixpoint trailing_slashes (p : string) : string :=
  match p with
  | EmptyString => EmptyString
  | String c p' =>
      if sforall (fun x => Ascii.eqb x "/") (String c p') then String c p'
      else trailing_slashes p'
  end.

(** [path.basename(p, suffix)]: the base name without [suffix] when it
    ends with it and is more than it.  The two odd answers of Node are
    kept: the empty string when [suffix] is the whole of [p], and the base
    name with the slashes that follow it (the whole of [p] when the base
    name is empty) when the base name is shorter than [suffix] and ends
    it. *)
Definition basename_without (p suffix : string) : string :=
  if is_empty suffix || Nat.ltb (String.length p) (String.length suffix)
  then basename p
  else if String.eqb suffix p then EmptyString
  else
    let b := basename p in
    if Nat.ltb (String.length b) (String.length suffix) && endsWith b suffix
    then (if is_empty b then p else b +:+ trailing_slashes p)
    else match strip_suffix suffix b with
         | Some stem => if is_empty stem then b else stem
         | None => b
         end.

(** Text without [/], and text without [.]. *)
Definition no_slash (s : string) : bool :=
  sforall (fun c => negb (Ascii.eqb c "/")) s.

Definition no_dot (s : string) : bool :=
  sforall (fun c => negb (Ascii.eqb c ".")) s.

End NodePath.

Module AuthFile.
Import Js Auth NodePath.

(** The characters that [/[-_]/g] matches. *)
Definition is_separator (c : ascii) : bool := Ascii.eqb c "-" || Ascii.eqb c "_".

(** The characters of a namespace: no capital letter, no [-], no [_]. *)
Definition namespace_char (c : ascii) : bool :=
  negb (is_upper c) && negb (is_separator c).

(** [getApiNameFromFile] of [src/utils/auth.ts]. *)
Definition getApiNameFromFile (filePath : string) : string :=
  let fileName := basename_without filePath (extname filePath) in
  sfilter (fun c => negb (is_separator c)) (toLowerCase fileName).

(** An entry of the environment that [loadAuthConfig] processes for the
    namespace [ns]: its value is not empty and its key is recognised with
    that namespace. *)
Definition concerns (ns : string) (entry : string * string) : bool :=
  negb (is_empty (snd entry))
  && match classify (fst entry) with
     | Some (ns', _, _) => String.eqb ns' ns
     | None => false
     end.

Definition ConfigKey_eqb (a b : ConfigKey) : bool :=
  match a, b with
  | KToken, KToken | KUsername, KUsername | KPassword, KPassword => true
  | _, _ => false
  end.

(** An entry that writes the field [k] of the descriptor of [ns]. *)
Definition writes (ns : string) (k : ConfigKey) (entry : string * string) : bool :=
  negb (is_empty (snd entry))
  && match classify (fst entry) with
     | Some (ns', _, k') => String.eqb ns' ns && ConfigKey_eqb k' k
     | None => false
     end.

(** An entry that names a bearer token of [ns]. *)
Definition bearer_entry (ns : string) (entry : string * string) : bool :=
  negb (is_empty (snd entry))
  && match classify (fst entry) with
     | Some (ns', ty, _) => String.eqb ns' ns && String.eqb ty "bearer"
     | None => false
     end.

(** The value of the last entry of [env] that writes the field [k] of
    [ns]. *)
Definition last_written (ns : string) (k : ConfigKey) (env : list (string * string))
    : option string :=
  fold_left (fun acc entry => if writes ns k entry then Some (snd entry) else acc)
    env None.

(** The field of a descriptor that a [ConfigKey] names. *)
Definition field_of (k : ConfigKey) (a : AuthEntry) : option string :=
  match k with
  | KToken => token a
  | KUsername => username a
  | KPassword => password a
  end.

End AuthFile.

(* ===================================================================== *)
(** ** The rest of the description compiler: [src/utils/openapi-parser.ts] *)
(* ===================================================================== *)

Module OpenapiDocument.
Import Js OpenapiParser Auth HttpClient NodePath AuthFile.

(** Modelled from the spec: the validated document, which the source
    names [OpenAPIV3.Document], with the two parts that the compiler
    reads.  [servers] is the list of the servers' [url] when the document
    has the field; [paths] is the list of the entries of the [paths]
    object, in the order of [Object.entries], when it has one. *)
Record Document : Type := mkDocument {
  servers : option (list string);
  paths : option (list (string * JsValue))
}.

(** Modelled from the spec: the interface [ParsedSpec] of [src/types.ts],
    with the fields of the object that [parseOpenAPISpec] returns. *)
Record ParsedSpec : Type := mkParsedSpec {
  spec_apiName : string;
  filePath : string;
  spec : Document;
  tools : list GeneratedTool
}.

Definition getBaseUrl (spec : Document) : string :=
  match servers spec with
  | Some (url :: _) => url
  | _ => "https://api.example.com"
  end.

Definition methods : list string :=
  ["get"; "post"; "put"; "patch"; "delete"; "head"; "options"].

(** [pathItem && typeof pathItem === 'object'] *)
Definition is_object (v : JsValue) : bool :=
  match v with
  | JObj _ | JArr _ => true
  | _ => false
  end.

(** The inner loop of [generateToolsFromSpec], over the methods of one
    path item. *)
Definition tools_of_path (apiName baseUrl pathTemplate : string) (pathItem : JsValue)
    (tools : list GeneratedTool) : list GeneratedTool :=
  fold_left
    (fun tools method =>
       let operation := get pathItem method in
       if negb (truthy operation) then tools
       else match createToolFromOperation apiName pathTemplate method operation
                    baseUrl (get pathItem "parameters") with
            | Some tool => tools ++ [tool]
            | None => tools
            end)
    methods tools.

Definition generateToolsFromSpec (spec : Document) (apiName : string)
    : list GeneratedTool :=
  let baseUrl := getBaseUrl spec in
  match paths spec with
  | None => []
  | Some entries =>
      fold_left
        (fun tools entry =>
           if negb (is_object (snd entry)) then tools
           else tools_of_path apiName baseUrl (fst entry) (snd entry) tools)
        entries []
  end.

(** What [parseOpenAPISpec] writes to the console when the validator
    fails. *)
Inductive FailureLog : Type :=
| LoggedAsError
| LoggedAsSkipped.

(** The outcome of [parseOpenAPISpec]: the parsed document, or [null]
    with the line written to the console. *)
Inductive ParseOutcome : Type :=
| Parsed (parsed : ParsedSpec)
| NotParsed (log : FailureLog).

(** [parseOpenAPISpec], the validator being [SwaggerParser.validate]. *)
Definition parseOpenAPISpec (validate : string -> Completion Document)
    (filePath : string) : ParseOutcome :=
  match validate filePath with
  | Returned spec =>
      let apiName := getApiNameFromFile filePath in
      let tools := generateToolsFromSpec spec apiName in
      Parsed {| spec_apiName := apiName; filePath := filePath;
                spec := spec; tools := tools |}
  | Threw _ =>
      let filename := basename filePath in
      if includes "openapi" (toLowerCase filename)
         || includes "swagger" (toLowerCase filename)
         || includes "api" (toLowerCase filename)
      then NotParsed LoggedAsError
      else NotParsed LoggedAsSkipped
  end.

Definition isOpenAPIFile (filePath : string) : bool :=
  let ext := toLowerCase (extname filePath) in
  let filename := toLowerCase (basename filePath) in
  if negb (existsb (String.eqb ext) [".json"; ".yaml"; ".yml"]) then false
  else if existsb (String.eqb filename)
            ["package.json"; "package-lock.json"; "tsconfig.json";
             ".eslintrc.json"; "jest.config.json"; "webpack.config.js";
             "rollup.config.js"]
  then false
  else true.

End OpenapiDocument.

(* ===================================================================== *)
(** ** The input schemas of the tools: [src/server.ts] *)
(* ===================================================================== *)

Module Server.
Import Js OpenapiParser Auth HttpClient OpenapiDocument.

(** The validation rules that the registry builds, as the calls of the
    validation library that build them. *)
Inductive Zod : Type :=
| ZString                                  (* z.string() *)
| ZNumber                                  (* z.number() *)
| ZInt                                     (* z.number().int() *)
| ZBoolean                                 (* z.boolean() *)
| ZArray (element : Zod)                   (* z.array(element) *)
| ZRecordAny                               (* z.record(z.any()) *)
| ZAny                                     (* z.any() *)
| ZDescribe (rule : Zod) (text : JsValue)  (* rule.describe(text) *)
| ZOptional (rule : Zod).                  (* rule.optional() *)

(** [openAPISchemaToZod]; the inner loop finds [schema.items]. *)
Fixpoint openAPISchemaToZod (schema : JsValue) : Zod :=
  match schema with
  | JObj props =>
      let type := lookup_prop "type" props in
      if is_str "string" type then ZString
      else if is_str "number" type then ZNumber
      else if is_str "integer" type then ZInt
      else if is_str "boolean" type then ZBoolean
      else if is_str "array" type then
        ZArray ((fix items (ps : list (string * JsValue)) : Zod :=
                   match ps with
                   | [] => ZAny
                   | (k, v) :: ps' =>
                       if String.eqb k "items"
                       then (if truthy v then openAPISchemaToZod v else ZAny)
                       else items ps'
                   end) props)
      else if is_str "object" type then ZRecordAny
      else ZAny
  | _ => ZAny
  end.

(** The rule of one parameter, as the loop of [buildZodSchema] builds it. *)
Definition parameter_rule (param : ToolParameter) : Zod :=
  let fieldSchema := openAPISchemaToZod (schema param) in
  let fieldSchema :=
    if truthy (description param) then ZDescribe fieldSchema (description param)
    else fieldSchema in
  if negb (truthy (required param)) then ZOptional fieldSchema else fieldSchema.

Definition body_rule : Zod := ZDescribe (ZOptional ZAny) (JStr "Request body data").

(** [buildZodSchema]: the fields of the object rule, by name.  A
    parameter called [__proto__] gives no field: the assignment
    [schemaFields[param.name] = fieldSchema] then sets the prototype of
    [schemaFields], and the object rule is made of its own properties. *)
Definition buildZodSchema (tool : GeneratedTool) : gmap string Zod :=
  let schemaFields :=
    fold_left
      (fun fields param =>
         if is_proto (toString (name param)) then fields
         else <[toString (name param) := parameter_rule param]> fields)
      (parameters tool) (∅ : gmap string Zod) in
  if truthy (requestBody tool) then <["body" := body_rule]> schemaFields
  else schemaFields.

End Server.

(* ===================================================================== *)
(** ** Vocabulary for the properties of a request *)
(* ===================================================================== *)

Module Request.
Import Js OpenapiParser Auth HttpClient.

(** A parameter of location [loc] is called [h] and [args[h]] is not
    [undefined]. *)
Definition supplied (loc : string) (tool : GeneratedTool)
    (args : list (string * JsValue)) (h : string) : bool :=
  existsb
    (fun p => is_str loc (in_ p) && negb (is_undefined (arg args p))
              && String.eqb (toString (name p)) h)
    (parameters tool).

(** The tool without the parameters that no part of the request reads:
    those whose location is none of [path], [query] and [header]. *)
Definition placed (p : ToolParameter) : bool :=
  is_str "path" (in_ p) || is_str "query" (in_ p) || is_str "header" (in_ p).

Definition with_parameters (tool : GeneratedTool) (ps : list ToolParameter)
    : GeneratedTool :=
  {| tool_name := tool_name tool; tool_description := tool_description tool;
     operationId := operationId tool; method := method tool; path := path tool;
     parameters := ps; requestBody := requestBody tool;
     responses := responses tool; security := security tool;
     baseUrl := baseUrl tool |}.

(** The number of times the character [c] occurs in [s]. *)
Fixpoint count_char (c : ascii) (s : string) : nat :=
  match s with
  | EmptyString => O
  | String x s' => ((if Ascii.eqb x c then 1 else 0) + count_char c s')%nat
  end.

End Request.

(* ===================================================================== *)
(** ** More sample documents *)
(* ===================================================================== *)

Module Fixtures.
Import Js OpenapiParser Auth HttpClient OpenapiDocument Server.

(** A document with two servers and one path that has two operations. *)
Definition one_path_document : Document :=
  {| servers := Some ["https://petstore.example.com/v1"; "https://backup.example.com"];
     paths := Some [("/pet/{petId}",
                     JObj [("get", JObj [("operationId", JStr "getPetById")]);
                           ("delete", JObj [])])] |}.

(** The tool of its [get] operation, and the tool of its [delete]
    operation when the document is the file [store.yaml]. *)
Definition one_path_tool : GeneratedTool :=
  {| tool_name := "petstore_getPetById";
     tool_description := JStr "GET /pet/{petId}";
     operationId := JStr "getPetById"; method := "GET"; path := "/pet/{petId}";
     parameters := []; requestBody := JUndefined; responses := JUndefined;
     security := JArr []; baseUrl := "https://petstore.example.com/v1" |}.

Definition store_delete_tool : GeneratedTool :=
  {| tool_name := "store_delete_pet";
     tool_description := JStr "DELETE /pet/{petId}";
     operationId := JUndefined; method := "DELETE"; path := "/pet/{petId}";
     parameters := []; requestBody := JUndefined; responses := JUndefined;
     security := JArr []; baseUrl := "https://petstore.example.com/v1" |}.

(** A validator that accepts every file as [one_path_document]. *)
Definition accept_all (filePath : string) : Completion Document :=
  Returned one_path_document.

End Fixtures.

(* ===================================================================== *)
(** ** Facts about strings *)
(* ===================================================================== *)

#[local] Arguments String.append : simpl nomatch.

Section StringFacts.
Import Js.

Lemma sapp_assoc (a b c : string) : (a +:+ b) +:+ c = a +:+ (b +:+ c).
Proof. induction a as [|x a IH]; simpl; [done | by rewrite IH]. Qed.

Lemma is_empty_true (s : string) : is_empty s = true <-> s = EmptyString.
Proof. destruct s; simpl; split; intros; done. Qed.

Lemma is_empty_false (s : string) : is_empty s = false <-> s <> EmptyString.
Proof. destruct s; simpl; split; intros; done. Qed.

Lemma sapp_is_empty (a b : string) :
  a +:+ b = EmptyString -> a = EmptyString /\ b = EmptyString.
Proof. destruct a; simpl; intros H; [done | discriminate]. Qed.

Lemma startsWith_app (p s : string) : startsWith p (p +:+ s) = true.
Proof.
  induction p as [|a p IH]; simpl; [done |].
  rewrite Ascii.eqb_refl. exact IH.
Qed.

Lemma startsWith_inv (p s : string) :
  startsWith p s = true -> exists t, s = p +:+ t.
Proof.
  revert s. induction p as [|a p IH]; intros s H; simpl in *.
  - by exists s.
  - destruct s as [|b s]; [discriminate |].
    apply andb_true_iff in H as [Hab Hp].
    apply Ascii.eqb_eq in Hab. subst b.
    destruct (IH _ Hp) as [t ->]. by exists t.
Qed.

Lemma sdrop_app (p s : string) : sdrop (String.length p) (p +:+ s) = s.
Proof. induction p as [|a p IH]; simpl; [by destruct s | exact IH]. Qed.

Lemma sforall_app (f : ascii -> bool) (a b : string) :
  sforall f (a +:+ b) = sforall f a && sforall f b.
Proof.
  induction a as [|x a IH]; simpl; [done |].
  rewrite IH. by rewrite andb_assoc.
Qed.

(** A pattern whose first character does not occur in [s] does not
    occur in [s]. *)
Lemma startsWith_head_absent (c : ascii) (p s : string) :
  sforall (fun x => negb (Ascii.eqb x c)) s = true ->
  startsWith (String c p) s = false.
Proof.
  destruct s as [|b s]; simpl; [done |].
  intros H. apply andb_true_iff in H as [Hb _].
  rewrite Ascii.eqb_sym. apply negb_true_iff in Hb. by rewrite Hb.
Qed.

Lemma replace_absent (c : ascii) (p rep s : string) :
  sforall (fun x => negb (Ascii.eqb x c)) s = true ->
  replace (String c p) rep s = s.
Proof.
  induction s as [|b s IH]; intros H.
  - reflexivity.
  - cbn [replace]. rewrite (startsWith_head_absent c p _ H).
    simpl in H. apply andb_true_iff in H as [_ Hs].
    by rewrite (IH Hs).
Qed.

Lemma replace_skip (c : ascii) (p rep pre s : string) :
  sforall (fun x => negb (Ascii.eqb x c)) pre = true ->
  replace (String c p) rep (pre +:+ s) = pre +:+ replace (String c p) rep s.
Proof.
  induction pre as [|b pre IH]; intros H; [done |].
  simpl in H. apply andb_true_iff in H as [Hb Hpre].
  change (String b pre +:+ s) with (String b (pre +:+ s)).
  cbn [replace]. cbn [startsWith].
  rewrite Ascii.eqb_sym. apply negb_true_iff in Hb. rewrite Hb. simpl.
  by rewrite (IH Hpre).
Qed.

(** [replace] rewrites the occurrence that [indexOf] finds, and nothing
    else. *)
Lemma replace_indexOf (pat rep s : string) :
  replace pat rep s =
  match indexOf pat s with
  | Some i => stake i s +:+ rep +:+ sdrop (i + String.length pat) s
  | None => s
  end.
Proof.
  induction s as [|b s IH]; cbn [replace indexOf].
  - destruct (startsWith pat EmptyString); simpl; done.
  - destruct (startsWith pat (String b s)) eqn:Hp.
    + reflexivity.
    + rewrite IH. destruct (indexOf pat s) as [i|]; simpl; done.
Qed.

Lemma replace_first (pat rep pre post : string) :
  indexOf pat (pre +:+ pat +:+ post) = Some (String.length pre) ->
  replace pat rep (pre +:+ pat +:+ post) = pre +:+ rep +:+ post.
Proof.
  induction pre as [|b pre IH]; intros H.
  - simpl. destruct (pat +:+ post) eqn:E.
    + apply sapp_is_empty in E as [-> ->]. reflexivity.
    + rewrite <- E. cbn [replace].
      assert (Hs : startsWith pat (pat +:+ post) = true) by apply startsWith_app.
      rewrite E in Hs |- *. cbn [replace]. rewrite Hs. rewrite <- E.
      by rewrite sdrop_app.
  - change (String b pre +:+ pat +:+ post) with (String b (pre +:+ pat +:+ post)) in *.
    cbn [replace indexOf] in *.
    destruct (startsWith pat (String b (pre +:+ pat +:+ post))); [discriminate |].
    destruct (indexOf pat (pre +:+ pat +:+ post)) as [i|] eqn:Hi; [| discriminate].
    simpl in H. injection H as ->. simpl. by rewrite IH.
Qed.

Lemma includes_app_r (pat pre s : string) :
  includes pat s = true -> includes pat (pre +:+ s) = true.
Proof.
  intros H. induction pre as [|b pre IH]; [done |].
  change (String b pre +:+ s) with (String b (pre +:+ s)).
  cbn [includes]. rewrite IH. by destruct (startsWith _ _).
Qed.

Lemma includes_here (pat post : string) : includes pat (pat +:+ post) = true.
Proof.
  destruct (pat +:+ post) eqn:E.
  - apply sapp_is_empty in E as [-> _]. reflexivity.
  - cbn [includes]. rewrite <- E. by rewrite startsWith_app.
Qed.

Lemma strip_suffix_inv (suf s p : string) :
  strip_suffix suf s = Some p -> s = p +:+ suf.
Proof.
  revert p. induction s as [|b s IH]; intros p H; cbn [strip_suffix] in H.
  - destruct (String.eqb_spec EmptyString suf) as [<-|]; [| discriminate].
    by injection H as <-.
  - destruct (String.eqb_spec (String b s) suf) as [<-|].
    + by injection H as <-.
    + destruct (strip_suffix suf s) as [q|]; [| discriminate].
      injection H as <-. simpl. f_equal. by apply IH.
Qed.

Lemma length_sapp (a b : string) :
  String.length (a +:+ b) = (String.length a + String.length b)%nat.
Proof. induction a as [|x a IH]; simpl; [done | by rewrite IH]. Qed.

Lemma strip_suffix_app (suf p : string) : strip_suffix suf (p +:+ suf) = Some p.
Proof.
  induction p as [|b p IH].
  - simpl. destruct suf; cbn [strip_suffix]; by rewrite String.eqb_refl.
  - change (String b p +:+ suf) with (String b (p +:+ suf)).
    cbn [strip_suffix].
    destruct (String.eqb_spec (String b (p +:+ suf)) suf) as [E|_].
    + apply (f_equal String.length) in E. simpl in E.
      rewrite length_sapp in E. lia.
    + by rewrite IH.
Qed.

Lemma includes_mid (pat pre post : string) :
  includes pat (pre +:+ pat +:+ post) = true.
Proof. apply includes_app_r, includes_here. Qed.

(** [encodeURIComponent] writes unreserved characters, [%] and
    hexadecimal digits only; among others it writes no brace and no
    [$]. *)
Lemma percent_encode_safe (c : ascii) : sforall uri_safe (percent_encode c) = true.
Proof. destruct c as [[] [] [] [] [] [] [] []]; vm_compute; reflexivity. Qed.

Lemma encodeURIComponent_safe (s : string) :
  sforall uri_safe (encodeURIComponent s) = true.
Proof.
  induction s as [|c s IH]; [done |].
  cbn [encodeURIComponent]. rewrite sforall_app, IH, andb_true_r.
  destruct (uri_unreserved c) eqn:Hc.
  - simpl. unfold uri_safe. by rewrite Hc.
  - apply percent_encode_safe.
Qed.

Lemma uri_safe_not (c x : ascii) :
  uri_safe c = false -> uri_safe x = true -> negb (Ascii.eqb x c) = true.
Proof.
  intros Hc Hx. destruct (Ascii.eqb_spec x c) as [->|]; [congruence | done].
Qed.

Lemma sforall_impl (f g : ascii -> bool) (s : string) :
  (forall c, f c = true -> g c = true) -> sforall f s = true -> sforall g s = true.
Proof.
  intros Hfg. induction s as [|c s IH]; simpl; [done |].
  intros H. apply andb_true_iff in H as [Hc Hs].
  by rewrite (Hfg _ Hc), (IH Hs).
Qed.

(** In particular no [$], which [replace] would read as the start of a
    pattern of the replacement text. *)
Lemma encodeURIComponent_no_dollar (s : string) :
  sforall (fun c => negb (Ascii.eqb c "$")) (encodeURIComponent s) = true.
Proof.
  eapply sforall_impl; [| apply encodeURIComponent_safe].
  intros c Hc. destruct (Ascii.eqb_spec c "$") as [->|]; [discriminate | done].
Qed.

End StringFacts.

(* ===================================================================== *)
(** ** The description compiler *)
(* ===================================================================== *)

Section CompilerProperties.
Import Js OpenapiParser Samples.

Lemma join_two_nonempty (sep x y : string) (rest : list string) :
  sep <> EmptyString -> join sep (x :: y :: rest) <> EmptyString.
Proof.
  intros Hsep H. unfold join in H. cbn [String.concat] in H.
  apply sapp_is_empty in H as [_ H].
  apply sapp_is_empty in H as [H _]. done.
Qed.

(** The joined name is empty exactly when no segment is left or the
    only segment left has no letter or digit. *)
Lemma join_empty_iff (parts : list string) :
  join "_" parts = EmptyString <-> parts = [] \/ parts = [EmptyString].
Proof.
  split.
  - destruct parts as [|x [|y rest]]; intros H.
    + by left.
    + right. simpl in H. by subst x.
    + by apply join_two_nonempty in H.
  - intros [-> | ->]; reflexivity.
Qed.

(** C1, the claim as worded fails: on the path [/-] one segment remains
    after the filter, it is empty once stripped, and the code names the
    tool [ns_get_root] where the worded rule gives [ns_get_]. *)
Lemma generateToolName_root_counterexample :
  generateToolName "ns" (JObj []) "/-" "get" = "ns_get_root"
  /\ pathParts "/-" = [EmptyString]
  /\ spec_toolName "ns" None "/-" "get" = "ns_get_"
  /\ generateToolName "ns" (JObj []) "/-" "get"
     <> spec_toolName "ns" None "/-" "get".
Proof. repeat split; try reflexivity. vm_compute. discriminate. Qed.

(** C1, amended: the name is [{namespace}_{operationId}] when the
    operation has a non-empty identifier; otherwise it is
    [{namespace}_{method}_{pathName}], where [pathName] is the kept
    segments (split on [/], empty and braced segments dropped, characters
    other than letters and digits stripped) joined with [_], and [root]
    when that joined text is empty, which is when no segment remains or
    the single remaining segment strips to nothing.  Away from that last
    case the code agrees with the worded rule, and [GET /a/{id}/b] in
    namespace [ns] is named [ns_get_a_b].  The name of a compiled tool is
    the one that [generateToolName] gives. *)
Theorem generateToolName_name (apiName : string) (operation : JsValue)
    (pathTemplate method : string) :
  (forall opId : string,
      get operation "operationId" = JStr opId -> opId <> EmptyString ->
      generateToolName apiName operation pathTemplate method
      = spec_toolName apiName (Some opId) pathTemplate method
      /\ generateToolName apiName operation pathTemplate method
         = apiName +:+ "_" +:+ opId)
  /\ (truthy (get operation "operationId") = false ->
      generateToolName apiName operation pathTemplate method
      = apiName +:+ "_" +:+ method +:+ "_"
        +:+ (if is_empty (join "_" (pathParts pathTemplate)) then "root"
             else join "_" (pathParts pathTemplate)))
  /\ (truthy (get operation "operationId") = false ->
      pathParts pathTemplate <> [EmptyString] ->
      generateToolName apiName operation pathTemplate method
      = spec_toolName apiName None pathTemplate method)
  /\ (truthy (get operation "operationId") = false ->
      pathParts pathTemplate = [EmptyString] ->
      generateToolName apiName operation pathTemplate method
      = apiName +:+ "_" +:+ method +:+ "_root")
  /\ generateToolName apiName (JObj []) "/a/{id}/b" "get"
     = apiName +:+ "_get_a_b"
  /\ (forall baseUrl pathLevelParams t,
        createToolFromOperation apiName pathTemplate method operation baseUrl
          pathLevelParams = Some t ->
        tool_name t = generateToolName apiName operation pathTemplate method).
Proof.
  split; [| split; [| split; [| split; [| split]]]]; cycle 5.
  { intros baseUrl pathLevelParams t. unfold createToolFromOperation.
    destruct (spread_or_empty pathLevelParams); [| done].
    destruct (spread_or_empty (get operation "parameters")); [| done].
    destruct (extractParameters _); [| done]. by intros [= <-]. }
  - intros opId Hid Hne. unfold generateToolName, spec_toolName.
    rewrite Hid. simpl. apply is_empty_false in Hne. by rewrite Hne.
  - intros Hop. unfold generateToolName. by rewrite Hop.
  - intros Hop Hparts. unfold generateToolName, spec_toolName, spec_pathName.
    rewrite Hop.
    destruct (pathParts pathTemplate) as [|x rest] eqn:E; [reflexivity |].
    destruct (is_empty (join "_" (x :: rest))) eqn:Hj; [| reflexivity].
    apply is_empty_true, join_empty_iff in Hj as [Hj | Hj]; congruence.
  - intros Hop Hparts. unfold generateToolName. rewrite Hop, Hparts. reflexivity.
  - reflexivity.
Qed.

Lemma generateToolName_name_witness :
  generateToolName "petstore" (JObj [("operationId", JStr "getPetById")])
    "/pet/{petId}" "get" = "petstore_getPetById"
  /\ generateToolName "github" (JObj []) "/user/repos" "get"
     = spec_toolName "github" None "/user/repos" "get"
  /\ generateToolName "ns" (JObj []) "/-" "get" = "ns_get_root".
Proof.
  pose proof (generateToolName_name "petstore"
                (JObj [("operationId", JStr "getPetById")]) "/pet/{petId}" "get")
    as (H1 & _).
  pose proof (generateToolName_name "github" (JObj []) "/user/repos" "get")
    as (_ & _ & H3 & _).
  pose proof (generateToolName_name "ns" (JObj []) "/-" "get")
    as (_ & _ & _ & H4 & _).
  split; [| split].
  - apply (H1 "getPetById"); [reflexivity | discriminate].
  - apply H3; [reflexivity | vm_compute; discriminate].
  - apply H4; reflexivity.
Defined.

(** *** Parameter extraction *)

Lemma extract_loop_objects (es : list (list (string * JsValue)))
    (acc : list ToolParameter) :
  extract_loop (map JObj es) acc = Some (acc ++ omap extract_entry es).
Proof.
  revert acc. induction es as [|e es IH]; intros acc; simpl.
  - by rewrite app_nil_r.
  - destruct (extract_entry e) as [p|]; rewrite IH; [| done].
    by rewrite <- app_assoc.
Qed.

(** On a list of objects the extractor keeps, in order, the entries
    that [extract_entry] keeps. *)
Lemma extractParameters_objects (es : list (list (string * JsValue))) :
  extractParameters (map JObj es) = Some (omap extract_entry es).
Proof. unfold extractParameters. by rewrite extract_loop_objects. Qed.

Lemma extract_loop_app (l1 l2 : list JsValue) (acc : list ToolParameter) :
  extract_loop (l1 ++ l2) acc =
  match extract_loop l1 acc with
  | Some acc' => extract_loop l2 acc'
  | None => None
  end.
Proof.
  revert acc. induction l1 as [|v l1 IH]; intros acc; simpl; [done |].
  destruct v as [| | | | |items|props|f]; try done.
  destruct (extract_entry props); apply IH.
Qed.

Lemma extract_entry_required (e : list (string * JsValue)) (p : ToolParameter) :
  extract_entry e = Some p ->
  has (JObj e) "$ref" = false
  /\ name p = get (JObj e) "name"
  /\ in_ p = get (JObj e) "in"
  /\ schema p = get (JObj e) "schema"
  /\ required p = js_or (get (JObj e) "required") (JBool (is_str "path" (in_ p))).
Proof.
  unfold extract_entry. destruct (has (JObj e) "$ref"); [discriminate |].
  destruct (_ && _); [| discriminate].
  intros [= <-]. simpl. done.
Qed.

(** C5, the claim as worded fails: a path parameter declared
    [required: false] is extracted with [required] true. *)
Lemma required_path_counterexample :
  option_map (map required)
    (extractParameters
       [JObj [("name", JStr "petId"); ("in", JStr "path");
              ("required", JBool false);
              ("schema", JObj [("type", JStr "string")])]])
  = Some [JBool true]
  /\ JBool true <> JBool false.
Proof. split; [reflexivity | discriminate]. Qed.

(** C5, amended: every extracted parameter comes from a declared entry
    and its [required] flag is the declared value or-ed with
    [location = path]: left undeclared it is true for a path parameter
    and false otherwise, declared [true] it is true, and declared
    [false] it is still true for a path parameter and false for the
    other locations. *)
Theorem required_flag (es : list (list (string * JsValue)))
    (out : list ToolParameter) (p : ToolParameter) :
  extractParameters (map JObj es) = Some out ->
  p ∈ out ->
  exists e, e ∈ es
    /\ extract_entry e = Some p
    /\ name p = get (JObj e) "name"
    /\ in_ p = get (JObj e) "in"
    /\ (get (JObj e) "required" = JUndefined ->
        required p = JBool (is_str "path" (in_ p)))
    /\ (get (JObj e) "required" = JBool true -> required p = JBool true)
    /\ (get (JObj e) "required" = JBool false ->
        required p = JBool (is_str "path" (in_ p))).
Proof.
  rewrite extractParameters_objects. intros [= <-] Hp.
  apply list_elem_of_omap in Hp as (e & He & Hext).
  destruct (extract_entry_required e p Hext) as (_ & Hname & Hin & _ & Hreq).
  exists e. split; [done |]. split; [done |]. split; [done |]. split; [done |].
  split; [| split]; intros H; by rewrite Hreq, H.
Qed.

Lemma required_flag_witness :
  exists e, e ∈ [petId_entry (JBool false)]
    /\ extract_entry e = Some petId_param
    /\ name petId_param = get (JObj e) "name"
    /\ in_ petId_param = get (JObj e) "in"
    /\ (get (JObj e) "required" = JUndefined ->
        required petId_param = JBool (is_str "path" (in_ petId_param)))
    /\ (get (JObj e) "required" = JBool true -> required petId_param = JBool true)
    /\ (get (JObj e) "required" = JBool false ->
        required petId_param = JBool (is_str "path" (in_ petId_param))).
Proof.
  apply (required_flag [petId_entry (JBool false)] [petId_param] petId_param).
  - reflexivity.
  - apply list_elem_of_here.
Defined.

Lemma extract_entry_dropped (e : list (string * JsValue)) :
  has (JObj e) "$ref" = true
  \/ truthy (get (JObj e) "name") = false
  \/ truthy (get (JObj e) "in") = false
  \/ truthy (get (JObj e) "schema") = false ->
  extract_entry e = None.
Proof.
  unfold extract_entry.
  intros [-> | [H | [H | H]]]; [done | ..];
    destruct (has _ _); try done; rewrite H;
    rewrite ?andb_false_r; done.
Qed.

(** C9: an entry that carries a [$ref], or whose [name], [in] or
    [schema] is missing or falsy, leaves no trace in the extracted list,
    nor in the parameters of the tool built from the operation; an entry
    declared without a schema is a case of it.  An entry with the three
    fields and no [$ref] is kept. *)
Theorem extractParameters_drops (l1 l2 : list JsValue)
    (e : list (string * JsValue)) :
  (has (JObj e) "$ref" = true
   \/ truthy (get (JObj e) "name") = false
   \/ truthy (get (JObj e) "in") = false
   \/ truthy (get (JObj e) "schema") = false ->
   extractParameters (l1 ++ JObj e :: l2) = extractParameters (l1 ++ l2)
   /\ forall apiName pathTemplate method operation baseUrl,
       createToolFromOperation apiName pathTemplate method operation baseUrl
         (JArr (l1 ++ JObj e :: l2))
       = createToolFromOperation apiName pathTemplate method operation baseUrl
           (JArr (l1 ++ l2)))
  /\ (get (JObj e) "schema" = JUndefined ->
      extractParameters [JObj e] = Some [])
  /\ (has (JObj e) "$ref" = false ->
      truthy (get (JObj e) "name") = true ->
      truthy (get (JObj e) "in") = true ->
      truthy (get (JObj e) "schema") = true ->
      exists p, extractParameters [JObj e] = Some [p]
                /\ name p = get (JObj e) "name"
                /\ schema p = get (JObj e) "schema").
Proof.
  split; [| split].
  - intros Hdrop. apply extract_entry_dropped in Hdrop.
    assert (Hloop : forall rest acc,
               extract_loop (l1 ++ JObj e :: rest) acc
               = extract_loop (l1 ++ rest) acc).
    { intros rest acc. rewrite !extract_loop_app.
      destruct (extract_loop l1 acc); [| done]. simpl. by rewrite Hdrop. }
    split; [apply Hloop |].
    intros. unfold createToolFromOperation, spread_or_empty. simpl.
    destruct (js_or (get operation "parameters") (JArr [])); try done.
    unfold extractParameters.
    rewrite <- !app_assoc, <- app_comm_cons. by rewrite Hloop.
  - intros Hs. unfold extractParameters. simpl.
    rewrite extract_entry_dropped; [done |].
    right; right; right. by rewrite Hs.
  - intros Href Hn Hi Hs. unfold extractParameters. simpl.
    unfold extract_entry. rewrite Href, Hn, Hi, Hs. simpl.
    eexists. split; [reflexivity |]. done.
Qed.

Lemma extractParameters_drops_witness :
  extractParameters
    ([JObj (petId_entry (JBool true))]
     ++ JObj [("name", JStr "limit"); ("in", JStr "query")]
     :: [JObj [("name", JStr "tag"); ("in", JStr "query");
               ("schema", JObj [("type", JStr "string")])]])
  = extractParameters
      ([JObj (petId_entry (JBool true))]
       ++ [JObj [("name", JStr "tag"); ("in", JStr "query");
                 ("schema", JObj [("type", JStr "string")])]])
  /\ extractParameters [JObj [("name", JStr "limit"); ("in", JStr "query")]]
     = Some [].
Proof.
  split.
  - apply (proj1 (extractParameters_drops
                    [JObj (petId_entry (JBool true))]
                    [JObj [("name", JStr "tag"); ("in", JStr "query");
                           ("schema", JObj [("type", JStr "string")])]]
                    [("name", JStr "limit"); ("in", JStr "query")])).
    right; right; right. reflexivity.
  - apply (proj1 (proj2 (extractParameters_drops [] []
                           [("name", JStr "limit"); ("in", JStr "query")]))).
    reflexivity.
Defined.

End CompilerProperties.

(* ===================================================================== *)
(** ** The credential resolver *)
(* ===================================================================== *)

Section CredentialProperties.
Import Js Auth.

Lemma match_suffix_inv (suffix key m : string) :
  match_suffix suffix key = Some m ->
  key = m +:+ suffix /\ m <> EmptyString.
Proof.
  unfold match_suffix. destruct (strip_suffix suffix key) as [p|] eqn:E; [| done].
  destruct (is_empty p) eqn:Hp; simpl; [done |].
  destruct (has_line_terminator p); [done |]. intros [= <-].
  split; [by apply strip_suffix_inv | by apply is_empty_false].
Qed.

Lemma match_suffix_terminators (suffix key m : string) :
  match_suffix suffix key = Some m -> has_line_terminator m = false.
Proof.
  unfold match_suffix. destruct (strip_suffix suffix key) as [p|]; [| done].
  destruct (is_empty p); simpl; [done |].
  destruct (has_line_terminator p) eqn:E; [done |]. by intros [= <-].
Qed.

Lemma match_suffix_app (suffix m : string) :
  m <> EmptyString ->
  has_line_terminator m = false ->
  match_suffix suffix (m +:+ suffix) = Some m.
Proof.
  intros Hm Hlt. unfold match_suffix. rewrite strip_suffix_app.
  apply is_empty_false in Hm. by rewrite Hm, Hlt.
Qed.

Lemma toLowerCase_nonempty (s : string) :
  s <> EmptyString -> is_empty (toLowerCase s) = false.
Proof. by destruct s. Qed.

(** What the chain of patterns can answer. *)
Lemma classify_cases (key ns ty : string) (k : ConfigKey) :
  classify key = Some (ns, ty, k) ->
  is_empty ns = false
  /\ ((ty = "bearer" /\ k = KToken) \/ (ty = "apiKey" /\ k = KToken)
      \/ (ty = "basic" /\ (k = KUsername \/ k = KPassword))).
Proof.
  unfold classify.
  destruct (match_suffix "_BEARER_TOKEN" key) as [m|] eqn:E1.
  { intros [= <- <- <-]. apply match_suffix_inv in E1 as [_ Hm].
    split; [by apply toLowerCase_nonempty | auto]. }
  destruct (match_suffix "_API_KEY" key) as [m|] eqn:E2.
  { intros [= <- <- <-]. apply match_suffix_inv in E2 as [_ Hm].
    split; [by apply toLowerCase_nonempty | auto]. }
  destruct (if includes "BEARER" key then None else match_suffix "_TOKEN" key)
    as [m|] eqn:E3.
  { intros [= <- <- <-]. destruct (includes "BEARER" key); [done |].
    apply match_suffix_inv in E3 as [_ Hm].
    split; [by apply toLowerCase_nonempty | auto]. }
  destruct (match_suffix "_USERNAME" key) as [m|] eqn:E4.
  { intros [= <- <- <-]. apply match_suffix_inv in E4 as [_ Hm].
    split; [by apply toLowerCase_nonempty | auto]. }
  destruct (match_suffix "_PASSWORD" key) as [m|] eqn:E5; [| done].
  intros [= <- <- <-]. apply match_suffix_inv in E5 as [_ Hm].
  split; [by apply toLowerCase_nonempty | auto].
Qed.

Lemma set_field_type (k : ConfigKey) (v : string) (e : AuthEntry) :
  type (set_field k v e) = type e.
Proof. by destruct k. Qed.

(** The kind after an entry is processed: [bearer] for a bearer entry,
    the kind the descriptor had, or was created with, otherwise. *)
Lemma update_entry_type (authType : string) (k : ConfigKey) (value : string)
    (old : option AuthEntry) :
  type (update_entry authType k value old) =
  if String.eqb authType "bearer" then "bearer"
  else match old with Some e => type e | None => authType end.
Proof.
  unfold update_entry.
  set (e0 := match old with Some e => e | None => new_entry authType end).
  assert (He0 : type e0 = match old with Some e => type e | None => authType end)
    by (subst e0; by destruct old).
  rewrite <- He0. clear He0.
  destruct (String.eqb_spec authType "bearer") as [->|Hne]; simpl.
  - destruct (String.eqb_spec (type e0) "bearer") as [Hb|Hb]; simpl.
    + by rewrite set_field_type.
    + by rewrite set_field_type.
  - destruct (String.eqb authType "apiKey" && _); simpl;
      by rewrite set_field_type.
Qed.

(** An entry of a namespace that the map has a descriptor of, or that
    is none of the two built-in ones, rewrites the descriptor. *)
Lemma load_step_lookup (cfg : gmap string AuthEntry) (key value ns ty : string)
    (k : ConfigKey) :
  value <> EmptyString ->
  classify key = Some (ns, ty, k) ->
  builtin_namespace ns = false \/ is_Some (cfg !! ns) ->
  load_step cfg (key, value)
  = <[ns := update_entry ty k value (cfg !! ns)]> cfg.
Proof.
  intros Hv Hc Hns. unfold load_step. cbn beta iota zeta.
  apply is_empty_false in Hv. rewrite Hv, Hc.
  apply classify_cases in Hc as [-> _]. cbn [negb].
  destruct (cfg !! ns) as [e|] eqn:E; [done |].
  destruct Hns as [-> | [e He]]; done.
Qed.

(** An entry of a built-in namespace leaves a map without a descriptor
    of that name as it is. *)
Lemma load_step_builtin (cfg : gmap string AuthEntry) (key value ns ty : string)
    (k : ConfigKey) :
  classify key = Some (ns, ty, k) ->
  builtin_namespace ns = true -> cfg !! ns = None ->
  load_step cfg (key, value) = cfg.
Proof.
  intros Hc Hb Hn. unfold load_step. cbn beta iota zeta.
  destruct (is_empty value); [done |]. rewrite Hc.
  destruct (negb (is_empty ns)); [| done]. by rewrite Hn, Hb.
Qed.

(** Processing an entry either leaves the map as it is or rewrites the
    descriptor of the one namespace that the entry names. *)
Lemma load_step_cases (cfg : gmap string AuthEntry) (entry : string * string) :
  load_step cfg entry = cfg
  \/ exists ns ty k,
      classify (fst entry) = Some (ns, ty, k)
      /\ snd entry <> EmptyString
      /\ load_step cfg entry
         = <[ns := update_entry ty k (snd entry) (cfg !! ns)]> cfg.
Proof.
  destruct entry as [key value]. cbn [fst snd].
  destruct (is_empty value) eqn:Hv.
  { left. unfold load_step. cbn beta iota zeta. by rewrite Hv. }
  destruct (classify key) as [[[ns ty] k]|] eqn:Hc.
  - destruct (builtin_namespace ns) eqn:Hb; [destruct (cfg !! ns) as [e|] eqn:E |].
    + right. exists ns, ty, k. apply is_empty_false in Hv.
      split; [done |]. split; [done |].
      apply load_step_lookup; [done | done |]. right. by rewrite E.
    + left. by apply (load_step_builtin cfg key value ns ty k).
    + right. exists ns, ty, k. apply is_empty_false in Hv.
      split; [done |]. split; [done |]. apply load_step_lookup; auto.
  - left. unfold load_step. cbn beta iota zeta. by rewrite Hv, Hc.
Qed.

Lemma load_step_keeps_bearer (cfg : gmap string AuthEntry)
    (entry : string * string) (ns : string) (a : AuthEntry) :
  cfg !! ns = Some a -> type a = "bearer" ->
  exists a', load_step cfg entry !! ns = Some a' /\ type a' = "bearer".
Proof.
  intros Ha Hb.
  destruct (load_step_cases cfg entry) as [-> | (ns' & ty & k & _ & _ & ->)].
  - by exists a.
  - destruct (decide (ns' = ns)) as [->|Hne].
    + rewrite lookup_insert_eq. eexists. split; [done |].
      rewrite update_entry_type, Ha, Hb. by destruct (String.eqb ty "bearer").
    + rewrite lookup_insert_ne by done. by exists a.
Qed.

Lemma load_step_sets_bearer (cfg : gmap string AuthEntry)
    (key value ns : string) (k : ConfigKey) :
  value <> EmptyString ->
  classify key = Some (ns, "bearer", k) ->
  builtin_namespace ns = false ->
  exists a', load_step cfg (key, value) !! ns = Some a' /\ type a' = "bearer".
Proof.
  intros Hv Hc Hb. rewrite (load_step_lookup _ _ _ _ _ _ Hv Hc (or_introl Hb)).
  rewrite lookup_insert_eq. eexists. split; [done |].
  by rewrite update_entry_type.
Qed.

Lemma fold_keeps_bearer (env : list (string * string))
    (cfg : gmap string AuthEntry) (ns : string) (a : AuthEntry) :
  cfg !! ns = Some a -> type a = "bearer" ->
  exists a', fold_left load_step env cfg !! ns = Some a' /\ type a' = "bearer".
Proof.
  revert cfg a. induction env as [|entry env IH]; intros cfg a Ha Hb; simpl.
  - by exists a.
  - destruct (load_step_keeps_bearer cfg entry ns a Ha Hb) as (a' & Ha' & Hb').
    by apply (IH _ a').
Qed.

Lemma loadAuthConfig_bearer (env : list (string * string))
    (key value ns : string) (k : ConfigKey) :
  (key, value) ∈ env ->
  value <> EmptyString ->
  classify key = Some (ns, "bearer", k) ->
  builtin_namespace ns = false ->
  exists a, loadAuthConfig env !! ns = Some a /\ type a = "bearer".
Proof.
  intros Hin Hv Hc Hns. apply list_elem_of_split in Hin as (l1 & l2 & ->).
  unfold loadAuthConfig. rewrite fold_left_app. simpl.
  destruct (load_step_sets_bearer (fold_left load_step l1 ∅) key value ns k Hv Hc Hns)
    as (a & Ha & Hb).
  by apply (fold_keeps_bearer l2 _ ns a).
Qed.

Lemma last_char_differs (a b : string) (x y : ascii) :
  a +:+ str1 x = b +:+ str1 y -> x = y.
Proof.
  revert b. induction a as [|c a IH]; intros [|d b] H; simpl in H.
  - by injection H.
  - injection H as _ H. destruct b; discriminate.
  - injection H as _ H. destruct a; discriminate.
  - injection H as _ H. by apply IH in H.
Qed.

(** The keys that name a bearer token. *)
Lemma classify_bearer_token (name : string) :
  name <> EmptyString ->
  has_line_terminator name = false ->
  classify (name +:+ "_BEARER_TOKEN") = Some (toLowerCase name, "bearer", KToken).
Proof.
  intros Hn Hlt. unfold classify. by rewrite (match_suffix_app _ _ Hn Hlt).
Qed.

Lemma classify_plain_token (name : string) :
  name <> EmptyString ->
  has_line_terminator name = false ->
  includes "BEARER" (name +:+ "_TOKEN") = false ->
  classify (name +:+ "_TOKEN") = Some (toLowerCase name, "bearer", KToken).
Proof.
  intros Hn Hlt Hinc. unfold classify.
  destruct (match_suffix "_BEARER_TOKEN" (name +:+ "_TOKEN")) as [m|] eqn:E1.
  { apply match_suffix_inv in E1 as [E1 _].
    assert (includes "BEARER" (name +:+ "_TOKEN") = true); [| congruence].
    rewrite E1. change "_BEARER_TOKEN" with ("_" +:+ "BEARER" +:+ "_TOKEN").
    rewrite <- sapp_assoc. apply includes_mid. }
  destruct (match_suffix "_API_KEY" (name +:+ "_TOKEN")) as [m|] eqn:E2.
  { apply match_suffix_inv in E2 as [E2 _].
    change "_TOKEN" with ("_TOKE" +:+ str1 "N"%char) in E2.
    change "_API_KEY" with ("_API_KE" +:+ str1 "Y"%char) in E2.
    rewrite <- !sapp_assoc in E2. apply last_char_differs in E2. discriminate. }
  by rewrite Hinc, (match_suffix_app _ _ Hn Hlt).
Qed.

(** The keys that the chain of patterns takes for a bearer token, and
    no others. *)
Lemma classify_bearer_keys (key ns : string) (k : ConfigKey) :
  classify key = Some (ns, "bearer", k) ->
  exists name,
    name <> EmptyString /\ has_line_terminator name = false
    /\ ns = toLowerCase name /\ k = KToken
    /\ (key = name +:+ "_BEARER_TOKEN"
        \/ (key = name +:+ "_TOKEN" /\ includes "BEARER" key = false)).
Proof.
  unfold classify.
  destruct (match_suffix "_BEARER_TOKEN" key) as [m|] eqn:E1.
  { intros [= <- <-]. exists m.
    pose proof (match_suffix_terminators _ _ _ E1) as Hlt.
    apply match_suffix_inv in E1 as [E1 Hm]. auto 10. }
  destruct (match_suffix "_API_KEY" key) as [m|] eqn:E2; [done |].
  destruct (includes "BEARER" key) eqn:Hinc.
  { destruct (match_suffix "_USERNAME" key); [done |].
    by destruct (match_suffix "_PASSWORD" key). }
  destruct (match_suffix "_TOKEN" key) as [m|] eqn:E3.
  { intros [= <- <-]. exists m.
    pose proof (match_suffix_terminators _ _ _ E3) as Hlt.
    apply match_suffix_inv in E3 as [E3 Hm]. auto 10. }
  destruct (match_suffix "_USERNAME" key); [done |].
  by destruct (match_suffix "_PASSWORD" key).
Qed.

(** C8, the claim as worded fails: a plain [{NAME}_TOKEN] entry whose
    name holds [BEARER] is no bearer entry for the code, which passes it
    over; processed after an API key of its namespace it leaves the kind
    [apiKey]. *)
Lemma bearer_in_name_counterexample :
  classify "BEARER_X_TOKEN" = None
  /\ loadAuthConfig [("BEARER_X_API_KEY", "k"); ("BEARER_X_TOKEN", "t")]
     !! "bearer_x"
     = Some {| type := "apiKey"; token := Some "k";
               headerName := Some "X-API-Key";
               username := None; password := None |}.
Proof. split; reflexivity. Qed.

(** C8, amended: a descriptor of kind [bearer] keeps that kind whatever
    entry is processed next.  The entries that name a bearer token are
    those with a value, a key [{NAME}_BEARER_TOKEN], or [{NAME}_TOKEN]
    with no [BEARER] anywhere in the key, and a [NAME] that is not empty
    and holds no line terminator; the code takes no other key for a
    bearer token.  Such an entry, of a namespace other than
    [constructor] and [__proto__], leaves the descriptor of its
    namespace with kind [bearer] whatever kind it had; so an environment
    that holds such an entry, and none of the namespace [__proto__],
    resolves the namespace to kind [bearer], in whatever order the
    entries come. *)
Theorem bearer_kind_prevails :
  (forall (cfg : gmap string AuthEntry) entry ns a,
      cfg !! ns = Some a -> type a = "bearer" ->
      exists a', load_step cfg entry !! ns = Some a' /\ type a' = "bearer")
  /\ (forall (cfg : gmap string AuthEntry) NAME key value,
      key = NAME +:+ "_BEARER_TOKEN"
      \/ (key = NAME +:+ "_TOKEN" /\ includes "BEARER" key = false) ->
      NAME <> EmptyString -> has_line_terminator NAME = false ->
      value <> EmptyString ->
      builtin_namespace (toLowerCase NAME) = false ->
      exists a', load_step cfg (key, value) !! toLowerCase NAME = Some a'
                 /\ type a' = "bearer")
  /\ (forall (env env' : list (string * string)) NAME key value,
      key = NAME +:+ "_BEARER_TOKEN"
      \/ (key = NAME +:+ "_TOKEN" /\ includes "BEARER" key = false) ->
      NAME <> EmptyString -> has_line_terminator NAME = false ->
      value <> EmptyString ->
      builtin_namespace (toLowerCase NAME) = false ->
      prototype_untouched env = true ->
      (key, value) ∈ env ->
      env ≡ₚ env' ->
      (exists a, loadAuthConfig env !! toLowerCase NAME = Some a
                 /\ type a = "bearer")
      /\ (exists a', loadAuthConfig env' !! toLowerCase NAME = Some a'
                     /\ type a' = "bearer"))
  /\ (forall key ns k,
      classify key = Some (ns, "bearer", k) <->
      exists NAME,
        NAME <> EmptyString /\ has_line_terminator NAME = false
        /\ ns = toLowerCase NAME /\ k = KToken
        /\ (key = NAME +:+ "_BEARER_TOKEN"
            \/ (key = NAME +:+ "_TOKEN" /\ includes "BEARER" key = false))).
Proof.
  assert (Hkey : forall NAME key,
             key = NAME +:+ "_BEARER_TOKEN"
             \/ (key = NAME +:+ "_TOKEN" /\ includes "BEARER" key = false) ->
             NAME <> EmptyString -> has_line_terminator NAME = false ->
             classify key = Some (toLowerCase NAME, "bearer", KToken)).
  { intros NAME key [-> | [-> Hinc]] Hn Hlt;
      [by apply classify_bearer_token | by apply classify_plain_token]. }
  split; [| split; [| split]].
  - apply load_step_keeps_bearer.
  - intros cfg NAME key value Hk Hn Hlt Hv Hb.
    by apply (load_step_sets_bearer cfg key value _ KToken Hv (Hkey _ _ Hk Hn Hlt)).
  - intros env env' NAME key value Hk Hn Hlt Hv Hb _ Hin Hperm.
    pose proof (Hkey _ _ Hk Hn Hlt) as Hc. split.
    + by apply (loadAuthConfig_bearer env key value _ KToken).
    + apply (loadAuthConfig_bearer env' key value _ KToken); try done.
      by rewrite <- Hperm.
  - intros key ns k. split; [apply classify_bearer_keys |].
    intros (NAME & Hn & Hlt & -> & -> & Hk). by apply Hkey.
Qed.

Lemma bearer_kind_prevails_witness :
  (exists a, loadAuthConfig [("PET_API_KEY", "k"); ("PET_USERNAME", "u");
                             ("PET_TOKEN", "t"); ("PET_PASSWORD", "p")]
             !! toLowerCase "PET" = Some a /\ type a = "bearer")
  /\ (exists a', loadAuthConfig [("PET_TOKEN", "t"); ("PET_PASSWORD", "p");
                                 ("PET_USERNAME", "u"); ("PET_API_KEY", "k")]
                 !! toLowerCase "PET" = Some a' /\ type a' = "bearer").
Proof.
  apply (proj1 (proj2 (proj2 bearer_kind_prevails))
           [("PET_API_KEY", "k"); ("PET_USERNAME", "u");
            ("PET_TOKEN", "t"); ("PET_PASSWORD", "p")]
           [("PET_TOKEN", "t"); ("PET_PASSWORD", "p");
            ("PET_USERNAME", "u"); ("PET_API_KEY", "k")]
           "PET" "PET_TOKEN" "t").
  - right. split; reflexivity.
  - discriminate.
  - reflexivity.
  - discriminate.
  - reflexivity.
  - reflexivity.
  - do 2 apply list_elem_of_further. apply list_elem_of_here.
  - apply (Permutation_trans
             (l' := [("PET_USERNAME", "u"); ("PET_TOKEN", "t");
                     ("PET_PASSWORD", "p"); ("PET_API_KEY", "k")])).
    + apply (Permutation_cons_append
               [("PET_USERNAME", "u"); ("PET_TOKEN", "t"); ("PET_PASSWORD", "p")]).
    + apply (Permutation_trans
             (l' := [("PET_TOKEN", "t"); ("PET_USERNAME", "u");
                     ("PET_PASSWORD", "p"); ("PET_API_KEY", "k")])).
      * apply perm_swap.
      * apply perm_skip. apply perm_swap.
Defined.

End CredentialProperties.

Section AuthenticationProperties.
Import Js Auth.

Lemma update_entry_resolved (ty : string) (k : ConfigKey) (value : string)
    (old : option AuthEntry) :
  value <> EmptyString ->
  (ty = "bearer" /\ k = KToken) \/ (ty = "apiKey" /\ k = KToken)
  \/ (ty = "basic" /\ (k = KUsername \/ k = KPassword)) ->
  (forall e, old = Some e -> resolved e) ->
  resolved (update_entry ty k value old).
Proof.
  intros Hv Hcase Hold.
  assert (H0 : resolved (new_entry ty) \/ ty = "apiKey").
  { destruct Hcase as [[-> _] | [[-> _] | [-> _]]]; [left | by right | left];
      (split; [by left | done]). }
  unfold update_entry.
  set (e0 := match old with Some e => e | None => new_entry ty end).
  assert (He0 : (headerName e0 = None \/ headerName e0 = Some "X-API-Key")
                /\ (ty <> "apiKey" -> resolved e0)).
  { subst e0. destruct old as [e|].
    - split; [apply (Hold e eq_refl) | intros _; by apply Hold].
    - split; [by left |]. intros Hne. by destruct H0. }
  clearbody e0. destruct He0 as [Hh He0].
  destruct Hcase as [[-> ->] | [[-> ->] | [-> Hk]]]; simpl.
  - (* a bearer token *)
    destruct (negb (String.eqb (type e0) "bearer")); simpl;
      (split; [done | intros Ht]).
    + discriminate.
    + destruct (He0 ltac:(done)) as [_ Hapi]. destruct (Hapi Ht) as [Hhn _].
      split; [done |]. by exists value.
  - (* an API key *)
    destruct Hh as [Hh | Hh]; rewrite Hh; simpl;
      (split; [by right |]); intros _; (split; [done |]); by exists value.
  - (* one half of a basic credential *)
    destruct (He0 ltac:(done)) as [_ Hapi].
    destruct Hk as [-> | ->]; simpl; (split; [done | exact Hapi]).
Qed.

Lemma load_step_resolved (cfg : gmap string AuthEntry) (entry : string * string) :
  map_Forall (fun _ a => resolved a) cfg ->
  map_Forall (fun _ a => resolved a) (load_step cfg entry).
Proof.
  intros Hcfg.
  destruct (load_step_cases cfg entry) as [-> | (ns & ty & k & Hc & Hv & ->)];
    [done |].
  apply map_Forall_insert_2; [| done].
  apply classify_cases in Hc as [_ Hc].
  apply update_entry_resolved; try done.
  intros e He. by apply (Hcfg ns).
Qed.

Lemma loadAuthConfig_resolved (env : list (string * string)) (ns : string)
    (a : AuthEntry) :
  loadAuthConfig env !! ns = Some a -> resolved a.
Proof.
  unfold loadAuthConfig.
  assert (H : forall cfg : gmap string AuthEntry,
             map_Forall (fun _ a => resolved a) cfg ->
             map_Forall (fun _ a => resolved a) (fold_left load_step env cfg)).
  { induction env as [|entry env IH]; intros cfg Hcfg; simpl; [done |].
    by apply IH, load_step_resolved. }
  intros Ha. apply (H ∅ (map_Forall_empty _) ns a Ha).
Qed.

Lemma set_and_nonempty_Some (s : string) :
  s <> EmptyString -> set_and_nonempty (Some s) = true.
Proof. intros H. simpl. apply is_empty_false in H. by rewrite H. Qed.

(** C3: what [applyAuthentication] does to the headers.  A [bearer]
    descriptor with a token sets [Authorization] to [Bearer {token}]; an
    [apiKey] descriptor with a token sets its header name to the token,
    and a descriptor of kind [apiKey] that the resolver built carries
    the header name [X-API-Key]; a [basic] descriptor with a username
    and a password sets [Authorization] to [Basic ] followed by the
    base64 of [username:password]; with no descriptor, a kind that is
    none of the three, or a field of the kind missing, the headers come
    back as they were. *)
Theorem applyAuthentication_spec (headers : gmap string string) (a : AuthEntry) :
  (forall t, type a = "bearer" -> token a = Some t -> t <> EmptyString ->
     applyAuthentication headers (Some a)
     = <["Authorization" := "Bearer " +:+ t]> headers)
  /\ (forall t h, type a = "apiKey" -> token a = Some t -> t <> EmptyString ->
        headerName a = Some h -> h <> EmptyString ->
        applyAuthentication headers (Some a) = <[h := t]> headers)
  /\ (forall env ns, loadAuthConfig env !! ns = Some a -> type a = "apiKey" ->
        exists t, token a = Some t /\ t <> EmptyString
                  /\ headerName a = Some "X-API-Key"
                  /\ applyAuthentication headers (Some a)
                     = <["X-API-Key" := t]> headers)
  /\ (forall u p, type a = "basic" -> username a = Some u -> u <> EmptyString ->
        password a = Some p -> p <> EmptyString ->
        applyAuthentication headers (Some a)
        = <["Authorization" := "Basic " +:+ base64 (u +:+ ":" +:+ p)]> headers)
  /\ applyAuthentication headers None = headers
  /\ (type a <> "bearer" -> type a <> "apiKey" -> type a <> "basic" ->
      applyAuthentication headers (Some a) = headers)
  /\ (type a = "bearer" -> set_and_nonempty (token a) = false ->
      applyAuthentication headers (Some a) = headers)
  /\ (type a = "apiKey" ->
      set_and_nonempty (token a) = false
      \/ set_and_nonempty (headerName a) = false ->
      applyAuthentication headers (Some a) = headers)
  /\ (type a = "basic" ->
      set_and_nonempty (username a) = false
      \/ set_and_nonempty (password a) = false ->
      applyAuthentication headers (Some a) = headers).
Proof.
  assert (Hbearer : forall t, type a = "bearer" -> token a = Some t ->
            t <> EmptyString ->
            applyAuthentication headers (Some a)
            = <["Authorization" := "Bearer " +:+ t]> headers).
  { intros t Ht Htok Hne. unfold applyAuthentication.
    by rewrite Ht, Htok, (set_and_nonempty_Some _ Hne). }
  assert (Hapi : forall t h, type a = "apiKey" -> token a = Some t ->
            t <> EmptyString -> headerName a = Some h -> h <> EmptyString ->
            applyAuthentication headers (Some a) = <[h := t]> headers).
  { intros t h Ht Htok Hne Hh Hhne. unfold applyAuthentication.
    by rewrite Ht, Htok, Hh, !set_and_nonempty_Some. }
  split; [exact Hbearer |]. split; [exact Hapi |].
  split; [| split; [| split; [| split; [| split; [| split]]]]].
  - intros env ns Ha Ht.
    destruct (loadAuthConfig_resolved env ns a Ha) as [_ Hres].
    destruct (Hres Ht) as (Hh & t & Htok & Hne).
    exists t. repeat split; try done. by apply Hapi.
  - intros u p Ht Hu Hune Hp Hpne. unfold applyAuthentication.
    by rewrite Ht, Hu, Hp, !set_and_nonempty_Some.
  - reflexivity.
  - intros H1 H2 H3. unfold applyAuthentication.
    apply String.eqb_neq in H1, H2, H3. by rewrite H1, H2, H3.
  - intros Ht Hf. unfold applyAuthentication. by rewrite Ht, Hf.
  - intros Ht Hf. unfold applyAuthentication. rewrite Ht. simpl.
    destruct Hf as [-> | ->]; by rewrite ?andb_false_r.
  - intros Ht Hf. unfold applyAuthentication. rewrite Ht. simpl.
    destruct Hf as [-> | ->]; by rewrite ?andb_false_r.
Qed.

Lemma applyAuthentication_spec_witness :
  (exists t, token {| type := "apiKey"; token := Some "secret";
                      headerName := Some "X-API-Key";
                      username := None; password := None |} = Some t
             /\ t <> EmptyString
             /\ headerName {| type := "apiKey"; token := Some "secret";
                              headerName := Some "X-API-Key";
                              username := None; password := None |}
                = Some "X-API-Key"
             /\ applyAuthentication ∅
                  (Some {| type := "apiKey"; token := Some "secret";
                           headerName := Some "X-API-Key";
                           username := None; password := None |})
                = <["X-API-Key" := t]> ∅)
  /\ applyAuthentication ∅
       (Some {| type := "basic"; token := None; headerName := None;
                username := Some "u"; password := Some "p" |})
     = <["Authorization" := "Basic dTpw"]> ∅
  /\ applyAuthentication ∅
       (Some {| type := "bearer"; token := Some "ghp_x"; headerName := None;
                username := None; password := None |})
     = <["Authorization" := "Bearer ghp_x"]> ∅.
Proof.
  split; [| split].
  - apply (proj1 (proj2 (proj2 (applyAuthentication_spec ∅
             {| type := "apiKey"; token := Some "secret";
                headerName := Some "X-API-Key";
                username := None; password := None |})))
             [("PETSTORE_API_KEY", "secret")] "petstore");
      reflexivity.
  - apply (proj1 (proj2 (proj2 (proj2 (applyAuthentication_spec ∅
             {| type := "basic"; token := None; headerName := None;
                username := Some "u"; password := Some "p" |}))))
             "u" "p"); try reflexivity; discriminate.
  - apply (proj1 (applyAuthentication_spec ∅
             {| type := "bearer"; token := Some "ghp_x"; headerName := None;
                username := None; password := None |}) "ghp_x");
      try reflexivity; discriminate.
Defined.

End AuthenticationProperties.

(* ===================================================================== *)
(** ** The request builder and executor *)
(* ===================================================================== *)

Section RequestBodyProperties.
Import Js OpenapiParser Auth HttpClient Samples.

Lemma is_undefined_false (v : JsValue) : is_undefined v = false <-> v <> JUndefined.
Proof. destruct v; simpl; split; intros; done. Qed.

Lemma set_prop_fresh (k : string) (v : JsValue) (props : list (string * JsValue)) :
  k ∉ map fst props -> set_prop k v props = props ++ [(k, v)].
Proof.
  induction props as [|[k' v'] props IH]; intros Hk; simpl; [done |].
  simpl in Hk. apply not_elem_of_cons in Hk as [Hne Hk].
  destruct (String.eqb_spec k' k) as [->|_]; [done |].
  by rewrite IH.
Qed.

Lemma collect_fold (keep : string -> bool) (args acc : list (string * JsValue)) :
  NoDup (map fst acc ++ map fst args) ->
  fold_left
    (fun bodyArgs kv =>
       if keep (fst kv) then set_prop (fst kv) (snd kv) bodyArgs else bodyArgs)
    args acc
  = acc ++ List.filter (fun kv => keep (fst kv)) args.
Proof.
  revert acc. induction args as [|[k v] args IH]; intros acc Hnd; simpl.
  - by rewrite app_nil_r.
  - simpl in Hnd.
    assert (Hk : k ∉ map fst acc).
    { apply NoDup_app in Hnd as (_ & Hdisj & _). intros Hin.
      apply (Hdisj k Hin). apply list_elem_of_here. }
    destruct (keep k).
    + rewrite (set_prop_fresh _ _ _ Hk). rewrite IH.
      * by rewrite <- app_assoc.
      * rewrite map_app. simpl. by rewrite <- app_assoc.
    + apply IH. apply NoDup_app in Hnd as (Hacc & Hdisj & Hargs).
      apply NoDup_app. split; [done |]. split.
      * intros x Hx Hx'. apply (Hdisj x Hx). by apply list_elem_of_further.
      * by apply NoDup_cons in Hargs as [_ Hargs].
Qed.

(** The arguments of an object, each name once, that are gathered for
    the body are those that name no declared parameter, in their order. *)
Lemma collect_body_args_filter (tool : GeneratedTool)
    (args : list (string * JsValue)) :
  NoDup (map fst args) ->
  collect_body_args tool args
  = List.filter (fun kv => negb (is_param_name tool (fst kv))) args.
Proof.
  intros Hnd. unfold collect_body_args.
  by rewrite (collect_fold (fun k => negb (is_param_name tool k)) args []).
Qed.



End RequestBodyProperties.

Section ResponseProperties.
Import Js OpenapiParser Auth HttpClient.

(** An object is printed one member to a line, two spaces deeper than
    the line of its braces, and an array likewise. *)
Lemma serialize_object (indent : string) (props : list (string * JsValue)) :
  serialize indent (JObj props)
  = Some (pretty_2 "{" "}" indent (members_at (indent +:+ "  ") props)).
Proof.
  assert (Hm : (fix members (ps : list (string * JsValue)) : list string :=
                  match ps with
                  | [] => []
                  | (k, x) :: ps' =>
                      match serialize (indent +:+ gap) x with
                      | Some s => (quote k +:+ ": " +:+ s) :: members ps'
                      | None => members ps'
                      end
                  end) props = members_at (indent +:+ "  ") props).
  { induction props as [|[k v] props IH]; [done |].
    unfold members_at. cbn [omap list_omap fst snd].
    rewrite IH. unfold gap. by destruct (serialize (indent +:+ "  ") v). }
  cbn [serialize]. by rewrite Hm.
Qed.

Lemma serialize_array (indent : string) (items : list JsValue) :
  serialize indent (JArr items)
  = Some (pretty_2 "[" "]" indent
            (map (fun x => match serialize (indent +:+ "  ") x with
                           | Some s => s
                           | None => "null"
                           end) items)).
Proof. reflexivity. Qed.

(** C7: the rendering of a response is the status line, the headers one
    to a line, and the body: the line [(empty response)] for a payload
    that is null or absent, the text itself for a string, and for any
    other payload its JSON form, which for an object or an array has
    one member to a line, indented by two spaces a level. *)
Theorem formatResponse_layout (response : AxiosResponse) :
  exists body,
    formatResponse response = status_and_headers response +:+ body
    /\ match response_data response with
       | JNull | JUndefined => body = "(empty response)"
       | JStr s => body = s
       | JBool _ | JNum _ | JFun _ => body = stringify2 (response_data response)
       | JObj props =>
           body = pretty_2 "{" "}" EmptyString (members_at "  " props)
       | JArr items =>
           body = pretty_2 "[" "]" EmptyString
                    (map (fun x => match serialize "  " x with
                                   | Some s => s
                                   | None => "null"
                                   end) items)
       end.
Proof.
  exists (match response_data response with
          | JStr s => s
          | JNull | JUndefined => "(empty response)"
          | other => stringify2 other
          end).
  split.
  - unfold formatResponse, status_and_headers.
    by rewrite !sapp_assoc.
  - destruct (response_data response) as [| | | | |items|props|f]; try reflexivity.
    unfold stringify2. by rewrite serialize_object.
Qed.

(** A response whose payload is the object
    [{"id": 42, "tags": ["a"], "owner": {"name": "x"}}]. *)
Example formatResponse_object :
  formatResponse
    {| status := 200; statusText := "OK";
       response_headers := [("content-type", JStr "application/json");
                            ("x-rate", JNum 60)];
       response_data := JObj [("id", JNum 42); ("tags", JArr [JStr "a"]);
                              ("owner", JObj [("name", JStr "x")])] |}
  = join (str1 newline)
      ["Status: 200 OK"; ""; "Headers:"; "content-type: application/json";
       "x-rate: 60"; ""; "Body:"; "{";
       "  " +:+ quote "id" +:+ ": 42,";
       "  " +:+ quote "tags" +:+ ": [";
       "    " +:+ quote "a";
       "  ],";
       "  " +:+ quote "owner" +:+ ": {";
       "    " +:+ quote "name" +:+ ": " +:+ quote "x";
       "  }";
       "}"].
Proof. vm_compute. reflexivity. Qed.

Example formatResponse_null :
  formatResponse {| status := 204; statusText := "No Content";
                    response_headers := []; response_data := JNull |}
  = join (str1 newline)
      ["Status: 204 No Content"; ""; "Headers:"; ""; ""; "Body:";
       "(empty response)"].
Proof. vm_compute. reflexivity. Qed.

End ResponseProperties.

Section ExecutorProperties.
Import Js OpenapiParser Auth HttpClient Samples.




(** The failure of the design document: a 404 with the payload
    [{"message": "not found"}]. *)
Example executeRequest_not_found :
  executeRequest (fun _ => Threw (AxiosError (Some not_found)
                                    "Request failed with status code 404"))
    petstore_call [("petId", JNum 42)]
  = Returned (join (str1 newline)
                ["HTTP Error 404: {";
                 "  " +:+ quote "message" +:+ ": " +:+ quote "not found";
                 "}"]).
Proof. vm_compute. reflexivity. Qed.

(** The request of the design document: [getPetById] with [petId = 42]
    and no credential. *)
Example buildRequestConfig_getPetById :
  url (buildRequestConfig petstore_call [("petId", JNum 42)])
  = "https://petstore.example.com/v1/pet/42"
  /\ config_method (buildRequestConfig petstore_call [("petId", JNum 42)]) = "get"
  /\ headers (buildRequestConfig petstore_call [("petId", JNum 42)])
     !! "Authorization" = None
  /\ timeout (buildRequestConfig petstore_call [("petId", JNum 42)]) = 30000%Z.
Proof. repeat split; reflexivity. Qed.

End ExecutorProperties.

Section UrlProperties.
Import Js OpenapiParser Auth HttpClient Samples.

Lemma brace_free_no_open (s : string) :
  brace_free s = true -> sforall (fun c => negb (Ascii.eqb c "{")) s = true.
Proof.
  apply sforall_impl. intros c H. by apply andb_true_iff in H as [H _].
Qed.

Lemma brace_free_app (a b : string) :
  brace_free (a +:+ b) = brace_free a && brace_free b.
Proof. apply sforall_app. Qed.

Lemma brace_free_strip (s : string) :
  brace_free s = true -> brace_free (strip_trailing_slash s) = true.
Proof.
  unfold brace_free. induction s as [|c s IH]; [done |].
  cbn [strip_trailing_slash sforall]. intros H.
  apply andb_true_iff in H as [Hc Hs].
  destruct (Ascii.eqb c "/" && is_empty s); [done |].
  cbn [sforall]. by rewrite Hc, (IH Hs).
Qed.

Lemma brace_free_encoded (s : string) : brace_free (encodeURIComponent s) = true.
Proof.
  unfold brace_free. eapply sforall_impl; [| apply encodeURIComponent_safe].
  intros c Hc.
  rewrite (uri_safe_not "{" c eq_refl Hc), (uri_safe_not "}" c eq_refl Hc). done.
Qed.

(** A closing brace cannot be found in text that has none. *)
Lemma startsWith_close_absent (x q : string) :
  brace_free q = true -> startsWith (x +:+ "}") q = false.
Proof.
  intros Hq. destruct (startsWith (x +:+ "}") q) eqn:E; [| done].
  apply startsWith_inv in E as [t ->].
  rewrite !brace_free_app in Hq.
  apply andb_true_iff in Hq as [Hq _]. apply andb_true_iff in Hq as [_ Hq].
  discriminate.
Qed.

Lemma placeholder_name_unique (m n q : string) :
  brace_free n = true -> brace_free q = true ->
  startsWith (m +:+ "}") (n +:+ "}" +:+ q) = true -> m = n.
Proof.
  intros Hn Hq. revert n Hn.
  induction m as [|a m IH]; intros [|c n] Hn H.
  - done.
  - change (startsWith (String "}" EmptyString) (String c (n +:+ "}" +:+ q)) = true)
      in H.
    cbn [startsWith] in H. apply andb_true_iff in H as [H _].
    apply Ascii.eqb_eq in H. subst c. discriminate.
  - change (startsWith (String a (m +:+ "}")) (String "}" q) = true) in H.
    cbn [startsWith] in H. apply andb_true_iff in H as [_ H].
    by rewrite startsWith_close_absent in H.
  - change (startsWith (String a (m +:+ "}")) (String c (n +:+ "}" +:+ q)) = true)
      in H.
    cbn [startsWith] in H. apply andb_true_iff in H as [Hac H].
    apply Ascii.eqb_eq in Hac. subst c. f_equal. apply IH; [| done].
    unfold brace_free in Hn |- *. simpl in Hn.
    by apply andb_true_iff in Hn as [_ Hn].
Qed.

Lemma endsWith_app (suf p : string) : endsWith suf (p +:+ suf) = true.
Proof. unfold endsWith. by rewrite strip_suffix_app. Qed.

Lemma sapp_nil_end (a : string) : a +:+ EmptyString = a.
Proof. induction a as [|x a IH]; simpl; [done | by rewrite IH]. Qed.

(** The names under which a plain object answers without a property of
    its own. *)
Lemma object_prototype_undefined (k : string) :
  object_prototype k = JUndefined <->
  k ∉ ["constructor"; "toString"; "valueOf"; "hasOwnProperty";
       "isPrototypeOf"; "propertyIsEnumerable"; "toLocaleString";
       "__defineGetter__"; "__defineSetter__"; "__lookupGetter__";
       "__lookupSetter__"; "__proto__"].
Proof.
  unfold object_prototype. split.
  - intros H Hin.
    repeat (apply elem_of_cons in Hin as [-> | Hin]; [by vm_compute in H |]).
    by apply elem_of_nil in Hin.
  - intros Hn. cbn [existsb].
    repeat match goal with
           | |- context [String.eqb k ?x] =>
               destruct (String.eqb_spec k x) as [E|_];
               [exfalso; apply Hn; rewrite E;
                repeat (first [apply list_elem_of_here
                              | apply list_elem_of_further]) |]
           end.
    reflexivity.
Qed.

Lemma substitute_skips (args : list (string * JsValue)) (url : string)
    (q : ToolParameter) :
  is_str "path" (in_ q) = false \/ arg args q = JUndefined ->
  substitute args url q = url.
Proof.
  unfold substitute. intros [-> | ->]; [done |]. simpl.
  by rewrite andb_false_r.
Qed.

Lemma substitute_replaces (args : list (string * JsValue)) (url : string)
    (p : ToolParameter) :
  is_str "path" (in_ p) = true -> arg args p <> JUndefined ->
  substitute args url p
  = replace ("{" +:+ toString (name p) +:+ "}")
      (encodeURIComponent (toString (arg args p))) url.
Proof.
  intros Hp Ha. unfold substitute. apply is_undefined_false in Ha.
  by rewrite Hp, Ha.
Qed.

(** *** A URL with one placeholder *)

Section SinglePlaceholder.
Variables (args : list (string * JsValue)) (n before after : string).
Hypothesis before_free : brace_free before = true.
Hypothesis name_free : brace_free n = true.
Hypothesis after_free : brace_free after = true.

Let template : string := before +:+ "{" +:+ n +:+ "}" +:+ after.
Let filled : string :=
  before +:+ encodeURIComponent (toString (read args n)) +:+ after.

Lemma filled_brace_free : brace_free filled = true.
Proof.
  unfold filled. rewrite !brace_free_app.
  by rewrite before_free, brace_free_encoded, after_free.
Qed.

Lemma substitute_filled (q : ToolParameter) : substitute args filled q = filled.
Proof.
  unfold substitute. destruct (_ && _); [| done].
  apply (replace_absent "{"). apply brace_free_no_open, filled_brace_free.
Qed.

Lemma substitute_template (q : ToolParameter) :
  substitute args template q =
  if is_str "path" (in_ q) && negb (is_undefined (arg args q))
     && String.eqb (toString (name q)) n
  then filled else template.
Proof.
  unfold substitute.
  destruct (is_str "path" (in_ q) && negb (is_undefined (arg args q))) eqn:E;
    [| done].
  cbn [andb]. unfold template.
  change ("{" +:+ toString (name q) +:+ "}")
    with (String "{" (toString (name q) +:+ "}")).
  rewrite replace_skip by (by apply brace_free_no_open).
  change ("{" +:+ n +:+ "}" +:+ after) with (String "{" (n +:+ "}" +:+ after)).
  cbn [replace startsWith]. rewrite Ascii.eqb_refl. cbn [andb].
  destruct (startsWith (toString (name q) +:+ "}") (n +:+ "}" +:+ after)) eqn:Hs.
  - apply placeholder_name_unique in Hs; [| done..].
    rewrite Hs, String.eqb_refl. unfold filled, arg. rewrite Hs.
    assert (Hd : sdrop (String.length (String "{" (n +:+ "}")))
                   (String "{" (n +:+ "}" +:+ after)) = after).
    { cbn [String.length sdrop]. rewrite <- sapp_assoc. apply sdrop_app. }
    by rewrite Hd.
  - destruct (String.eqb_spec (toString (name q)) n) as [Heq|_].
    + rewrite Heq, <- sapp_assoc in Hs. by rewrite startsWith_app in Hs.
    + rewrite replace_absent; [done |].
      rewrite !sforall_app.
      by rewrite (brace_free_no_open _ name_free),
        (brace_free_no_open _ after_free).
Qed.

Lemma fold_filled (params : list ToolParameter) :
  fold_left (substitute args) params filled = filled.
Proof.
  induction params as [|q params IH]; simpl; [done |].
  by rewrite substitute_filled.
Qed.

Lemma fold_template (params : list ToolParameter) (p : ToolParameter) :
  p ∈ params ->
  is_str "path" (in_ p) = true -> toString (name p) = n ->
  read args n <> JUndefined ->
  fold_left (substitute args) params template = filled.
Proof.
  intros Hin Hp Hn Hv.
  induction params as [|q params IH]; [by apply elem_of_nil in Hin |].
  simpl. rewrite substitute_template.
  destruct (_ && _ && _) eqn:E; [apply fold_filled |].
  apply elem_of_cons in Hin as [<- | Hin]; [| by apply IH].
  unfold arg in E. rewrite Hp, Hn, String.eqb_refl in E.
  apply is_undefined_false in Hv. by rewrite Hv in E.
Qed.

End SinglePlaceholder.

End UrlProperties.

Section TemplateProperties.
Import Js OpenapiParser Auth HttpClient UrlTemplate Samples.

Lemma placeholder_name_same (n x q : string) :
  brace_free n = true -> brace_free x = true ->
  startsWith (n +:+ "}") (x +:+ "}" +:+ q) = true -> n = x.
Proof.
  revert x. induction n as [|a n IH]; intros [|c x] Hn Hx H.
  - done.
  - change (startsWith (String "}" EmptyString) (String c (x +:+ "}" +:+ q)) = true)
      in H.
    cbn [startsWith] in H. apply andb_true_iff in H as [H _].
    apply Ascii.eqb_eq in H. subst c. discriminate.
  - change (startsWith (String a (n +:+ "}")) (String "}" q) = true) in H.
    cbn [startsWith] in H. apply andb_true_iff in H as [H _].
    apply Ascii.eqb_eq in H. subst a. discriminate.
  - change (startsWith (String a (n +:+ "}")) (String c (x +:+ "}" +:+ q)) = true)
      in H.
    cbn [startsWith] in H. apply andb_true_iff in H as [Hac H].
    apply Ascii.eqb_eq in Hac. subst c.
    unfold brace_free in Hn, Hx. cbn [sforall] in Hn, Hx.
    apply andb_true_iff in Hn as [_ Hn]. apply andb_true_iff in Hx as [_ Hx].
    f_equal. by apply IH.
Qed.

(** On a flat URL, replacing a placeholder in the text is filling the
    first placeholder of that name. *)
Lemma replace_render (n v : string) (ts : list token) :
  flat ts = true -> brace_free n = true ->
  replace ("{" +:+ n +:+ "}") v (render ts) = render (fill_first n v ts).
Proof.
  intros Hts Hn. induction ts as [|[s|x] ts IH]; cbn [render fill_first render_token].
  - reflexivity.
  - cbn [flat forallb flat_token] in Hts. apply andb_true_iff in Hts as [Hs Hts].
    change ("{" +:+ n +:+ "}") with (String "{" (n +:+ "}")) in *.
    rewrite replace_skip by (by apply brace_free_no_open).
    by rewrite (IH Hts).
  - cbn [flat forallb flat_token] in Hts. apply andb_true_iff in Hts as [Hx Hts].
    change ("{" +:+ n +:+ "}") with (String "{" (n +:+ "}")) in *.
    change (("{" +:+ x +:+ "}") +:+ render ts)
      with (String "{" ((x +:+ "}") +:+ render ts)).
    cbn [replace startsWith]. rewrite Ascii.eqb_refl. cbn [andb].
    rewrite sapp_assoc.
    destruct (String.eqb_spec x n) as [->|Hne].
    + rewrite <- sapp_assoc, startsWith_app.
      assert (Hd : sdrop (String.length (String "{" (n +:+ "}")))
                     (String "{" ((n +:+ "}") +:+ render ts)) = render ts).
      { cbn [String.length sdrop]. apply sdrop_app. }
      by rewrite Hd.
    + destruct (startsWith (n +:+ "}") (x +:+ "}" +:+ render ts)) eqn:Hs.
      { apply placeholder_name_same in Hs; [congruence | done..]. }
      rewrite <- sapp_assoc.
      rewrite replace_skip.
      * rewrite (IH Hts). cbn [render render_token].
        change (("{" +:+ x +:+ "}") +:+ render (fill_first n v ts))
          with (String "{" ((x +:+ "}") +:+ render (fill_first n v ts))).
        done.
      * rewrite sforall_app. by rewrite (brace_free_no_open _ Hx).
Qed.

Lemma flat_fill_first (n v : string) (ts : list token) :
  flat ts = true -> brace_free v = true -> flat (fill_first n v ts) = true.
Proof.
  unfold flat. intros Hts Hv.
  induction ts as [|[s|x] ts IH]; cbn [fill_first]; [done | |];
    cbn [forallb flat_token] in Hts; apply andb_true_iff in Hts as [Hx Hts].
  - cbn [forallb flat_token]. by rewrite Hx, (IH Hts).
  - destruct (String.eqb x n); cbn [forallb flat_token].
    + by rewrite Hv, Hts.
    + by rewrite Hx, (IH Hts).
Qed.

Lemma flat_fill (args : list (string * JsValue)) (ts : list token)
    (p : ToolParameter) :
  flat ts = true -> flat (fill args ts p) = true.
Proof.
  intros Hts. unfold fill. destruct (substituted args p); [| done].
  apply flat_fill_first; [done | apply brace_free_encoded].
Qed.

Lemma substitute_render (args : list (string * JsValue)) (ts : list token)
    (p : ToolParameter) :
  flat ts = true ->
  (substituted args p = true -> brace_free (toString (name p)) = true) ->
  substitute args (render ts) p = render (fill args ts p).
Proof.
  intros Hts Hp. unfold substitute, fill, substituted in *.
  destruct (is_str "path" (in_ p) && negb (is_undefined (arg args p))); [| done].
  by apply replace_render; [| apply Hp].
Qed.

(** [buildUrl] on a flat URL is the filling of its tokens. *)
Lemma fold_substitute_render (args : list (string * JsValue))
    (params : list ToolParameter) (ts : list token) :
  flat ts = true ->
  (forall p, p ∈ params -> substituted args p = true ->
     brace_free (toString (name p)) = true) ->
  fold_left (substitute args) params (render ts)
  = render (fold_left (fill args) params ts).
Proof.
  revert ts. induction params as [|p params IH]; intros ts Hts Hnames; [done |].
  cbn [fold_left]. rewrite substitute_render; [| done |].
  - apply IH; [by apply flat_fill |].
    intros q Hq. by apply Hnames, list_elem_of_further.
  - apply Hnames, list_elem_of_here.
Qed.

Lemma fill_first_comm (n v m w : string) (ts : list token) :
  n <> m \/ v = w ->
  fill_first n v (fill_first m w ts) = fill_first m w (fill_first n v ts).
Proof.
  intros Hnm. induction ts as [|[s|x] ts IH]; cbn [fill_first]; [done | |].
  - by rewrite IH.
  - destruct (String.eqb x m) eqn:Hxm; destruct (String.eqb x n) eqn:Hxn;
      cbn [fill_first]; rewrite ?Hxm, ?Hxn; [| done | done | by rewrite IH].
    apply String.eqb_eq in Hxm, Hxn. subst m n.
    destruct Hnm as [Hnm | ->]; [done |]. reflexivity.
Qed.

Lemma fill_comm (args : list (string * JsValue)) (ts : list token)
    (a b : ToolParameter) :
  fill args (fill args ts a) b = fill args (fill args ts b) a.
Proof.
  unfold fill. destruct (substituted args a), (substituted args b); try done.
  apply fill_first_comm.
  destruct (decide (toString (name b) = toString (name a))) as [E|E]; [| by left].
  right. unfold arg. by rewrite E.
Qed.

Lemma fold_left_permutation {A B} (g : A -> B -> A) (l l' : list B) :
  (forall a x y, g (g a x) y = g (g a y) x) ->
  l ≡ₚ l' -> forall a, fold_left g l a = fold_left g l' a.
Proof.
  intros Hg Hperm. induction Hperm as [|x l l' _ IH|x y l|l l' l'' _ IH1 _ IH2];
    intros a; cbn [fold_left].
  - done.
  - apply IH.
  - by rewrite Hg.
  - by rewrite IH1.
Qed.

Lemma holes_fill_first_other (n m w : string) (ts : list token) :
  n <> m -> holes n (fill_first m w ts) = holes n ts.
Proof.
  intros Hnm. induction ts as [|[s|x] ts IH]; cbn [fill_first holes]; [done.. |].
  destruct (String.eqb x m) eqn:Hxm; cbn [holes].
  - apply String.eqb_eq in Hxm. subst m.
    apply not_eq_sym, String.eqb_neq in Hnm. by rewrite Hnm.
  - by rewrite IH.
Qed.

Lemma holes_fill_first_same (n v : string) (ts : list token) :
  holes n (fill_first n v ts) = Nat.pred (holes n ts).
Proof.
  induction ts as [|[s|x] ts IH]; cbn [fill_first holes]; [done.. |].
  destruct (String.eqb x n) eqn:Hxn; cbn [holes]; [done |].
  by rewrite Hxn, IH.
Qed.

Lemma holes_fold_others (args : list (string * JsValue)) (n : string)
    (params : list ToolParameter) (ts : list token) :
  (forall q, q ∈ params -> substituted args q = true -> toString (name q) <> n) ->
  holes n (fold_left (fill args) params ts) = holes n ts.
Proof.
  revert ts. induction params as [|q params IH]; intros ts Hq; [done |].
  cbn [fold_left]. rewrite IH.
  - unfold fill. destruct (substituted args q) eqn:E; [| done].
    apply holes_fill_first_other. intros Hn.
    by apply (Hq q (list_elem_of_here _ _) E).
  - intros q' Hq'. by apply Hq, list_elem_of_further.
Qed.

Lemma includes_render_hole (n : string) (ts : list token) :
  (0 < holes n ts)%nat -> includes ("{" +:+ n +:+ "}") (render ts) = true.
Proof.
  induction ts as [|[s|x] ts IH]; cbn [holes render render_token]; [lia | |].
  - intros H. by apply includes_app_r, IH.
  - destruct (String.eqb x n) eqn:Hxn.
    + intros _. apply String.eqb_eq in Hxn. subst x. apply includes_here.
    + intros H. by apply includes_app_r, IH.
Qed.

Lemma render_app (ts us : list token) :
  render (ts ++ us) = render ts +:+ render us.
Proof.
  induction ts as [|t ts IH]; cbn [app render]; [done |].
  by rewrite IH, sapp_assoc.
Qed.

Lemma holes_app (m : string) (ts us : list token) :
  holes m (ts ++ us) = (holes m ts + holes m us)%nat.
Proof.
  induction ts as [|[s|x] ts IH]; cbn [app holes]; [done | done |].
  rewrite IH. lia.
Qed.

Lemma fill_first_no_hole (m w : string) (ts : list token) :
  holes m ts = O -> fill_first m w ts = ts.
Proof.
  induction ts as [|[s|x] ts IH]; cbn [holes fill_first]; [done | |].
  - intros H. by rewrite IH.
  - destruct (String.eqb x m); [done |]. intros H. by rewrite IH.
Qed.

(** Filling the tokens that stand before pieces of plain text. *)
Lemma fill_first_before_text (m w b v a : string) (ts : list token) :
  fill_first m w (ts ++ [Lit b; Lit v; Lit a])
  = fill_first m w ts ++ [Lit b; Lit v; Lit a].
Proof.
  induction ts as [|[s|x] ts IH]; cbn [app fill_first]; [done | |].
  - by rewrite IH.
  - destruct (String.eqb x m); [done |]. by rewrite IH.
Qed.

(** Filling the tokens that stand before the one placeholder of a path:
    the placeholder is filled when no token before it is. *)
Lemma fill_first_before_hole (m w n b a : string) (ts : list token) :
  fill_first m w (ts ++ [Lit b; Hole n; Lit a])
  = if Nat.eqb (holes m ts) 0 && String.eqb n m
    then ts ++ [Lit b; Lit w; Lit a]
    else fill_first m w ts ++ [Lit b; Hole n; Lit a].
Proof.
  induction ts as [|[s|x] ts IH]; cbn [app fill_first holes].
  - cbn [Nat.eqb andb]. by destruct (String.eqb n m).
  - rewrite IH. by destruct (Nat.eqb (holes m ts) 0 && String.eqb n m).
  - destruct (String.eqb x m); cbn [Nat.add Nat.eqb andb]; [done |].
    rewrite IH. by destruct (Nat.eqb (holes m ts) 0 && String.eqb n m).
Qed.

Lemma fold_fill_before_text (args : list (string * JsValue))
    (params : list ToolParameter) (b v a : string) (ts : list token) :
  fold_left (fill args) params (ts ++ [Lit b; Lit v; Lit a])
  = fold_left (fill args) params ts ++ [Lit b; Lit v; Lit a].
Proof.
  revert ts. induction params as [|q params IH]; intros ts; cbn [fold_left];
    [done |].
  rewrite <- IH. f_equal. unfold fill. destruct (substituted args q); [| done].
  apply fill_first_before_text.
Qed.

(** [buildUrl] on a flat base URL without the placeholder of the path:
    the base URL is filled as it would be alone, and the placeholder of
    the path is filled when a path parameter of its name has an
    argument. *)
Lemma fold_fill_before_hole (args : list (string * JsValue))
    (params : list ToolParameter) (n b a : string) (ts : list token) :
  holes n ts = O ->
  fold_left (fill args) params (ts ++ [Lit b; Hole n; Lit a])
  = fold_left (fill args) params ts
    ++ match find (fun q => substituted args q
                            && String.eqb (toString (name q)) n) params with
       | Some q => [Lit b; Lit (encodeURIComponent (toString (arg args q))); Lit a]
       | None => [Lit b; Hole n; Lit a]
       end.
Proof.
  revert ts. induction params as [|q params IH]; intros ts Hn;
    cbn [fold_left find]; [done |].
  unfold fill at 2 4. destruct (substituted args q) eqn:Hq; cbn [andb];
    [| by apply IH].
  rewrite fill_first_before_hole.
  destruct (String.eqb_spec (toString (name q)) n) as [E|E].
  - rewrite E, Hn, String.eqb_refl. cbn [Nat.eqb andb].
    rewrite (fill_first_no_hole _ _ _ Hn). apply fold_fill_before_text.
  - assert (Hnm : String.eqb n (toString (name q)) = false)
      by (by apply String.eqb_neq, not_eq_sym).
    rewrite Hnm, andb_false_r. apply IH.
    rewrite holes_fill_first_other; [done |]. by apply not_eq_sym.
Qed.

Lemma holes_fill (args : list (string * JsValue)) (m : string)
    (ts : list token) (q : ToolParameter) :
  (holes m (fill args ts q) <= holes m ts)%nat
  /\ (substituted args q = true -> toString (name q) = m ->
      holes m (fill args ts q) = Nat.pred (holes m ts)).
Proof.
  unfold fill. destruct (substituted args q); [| split; [lia | done]].
  destruct (String.eqb_spec (toString (name q)) m) as [->|Hne].
  - rewrite holes_fill_first_same. split; [lia | done].
  - rewrite holes_fill_first_other by (by apply not_eq_sym). split; [lia | done].
Qed.

Lemma holes_fold_le (args : list (string * JsValue)) (m : string)
    (params : list ToolParameter) (ts : list token) :
  (holes m (fold_left (fill args) params ts) <= holes m ts)%nat.
Proof.
  revert ts. induction params as [|q params IH]; intros ts; cbn [fold_left];
    [lia |].
  etransitivity; [apply IH |]. apply holes_fill.
Qed.

(** A placeholder that occurs once is gone when a path parameter of its
    name has an argument. *)
Lemma holes_fold_member (args : list (string * JsValue))
    (params : list ToolParameter) (ts : list token) (q : ToolParameter) :
  q ∈ params -> substituted args q = true ->
  (holes (toString (name q)) (fold_left (fill args) params ts)
   <= Nat.pred (holes (toString (name q)) ts))%nat.
Proof.
  revert ts. induction params as [|q' params IH]; intros ts Hin Hq;
    [by apply elem_of_nil in Hin |].
  cbn [fold_left]. apply elem_of_cons in Hin as [<- | Hin].
  - etransitivity; [apply holes_fold_le |].
    by rewrite (proj2 (holes_fill args _ ts q) Hq eq_refl).
  - etransitivity; [by apply IH |].
    pose proof (proj1 (holes_fill args (toString (name q)) ts q')). lia.
Qed.

Lemma fold_fill_done (args : list (string * JsValue))
    (params : list ToolParameter) (ts : list token) :
  (forall q, q ∈ params -> substituted args q = true ->
     holes (toString (name q)) ts = O) ->
  fold_left (fill args) params ts = ts.
Proof.
  induction params as [|q params IH]; intros H; cbn [fold_left]; [done |].
  assert (Hq : fill args ts q = ts).
  { unfold fill. destruct (substituted args q) eqn:E; [| done].
    apply fill_first_no_hole, H; [apply list_elem_of_here | done]. }
  rewrite Hq. apply IH. intros q' Hq'. by apply H, list_elem_of_further.
Qed.

Lemma flat_fold_fill (args : list (string * JsValue))
    (params : list ToolParameter) (ts : list token) :
  flat ts = true -> flat (fold_left (fill args) params ts) = true.
Proof.
  revert ts. induction params as [|q params IH]; intros ts H; cbn [fold_left];
    [done |].
  by apply IH, flat_fill.
Qed.

End TemplateProperties.

Section UrlSubstitution.
Import Js OpenapiParser Auth HttpClient UrlTemplate Samples.




(** C10, the claim as worded fails: when the parameter is declared
    twice (at the path level and again at the operation level, the two
    lists being merged without de-duplication), the second entry
    replaces the second occurrence of the placeholder. *)
Lemma buildUrl_twice_declared_counterexample :
  buildUrl
    (get_tool "https://api.example.com" "/users/{id}/friends/{id}"
       [path_param "id"; path_param "id"])
    [("id", JNum 7)]
  = "https://api.example.com/users/7/friends/7"
  /\ includes "{id}" "https://api.example.com/users/7/friends/7" = false.
Proof. split; reflexivity. Qed.

(** C10, amended: each declared path parameter that has an argument
    replaces the first occurrence of its placeholder in the URL built so
    far, and that one only: what follows the occurrence, later
    occurrences of the placeholder included, is kept as it is.  So when
    the placeholder occurs more than once and the parameter is declared
    once, the built URL has the first occurrence filled and every later
    one left verbatim: this holds when no other path parameter is
    substituted, and, on a URL whose placeholders are not nested,
    whatever other path parameters are substituted. *)
Theorem buildUrl_first_occurrence_only (tool : GeneratedTool)
    (args : list (string * JsValue)) (p : ToolParameter) :
  substituted args p = true ->
  let n := toString (name p) in
  let v := encodeURIComponent (toString (arg args p)) in
  (forall before after,
      indexOf ("{" +:+ n +:+ "}") (before +:+ ("{" +:+ n +:+ "}") +:+ after)
      = Some (String.length before) ->
      substitute args (before +:+ ("{" +:+ n +:+ "}") +:+ after) p
      = before +:+ v +:+ after
      /\ (forall l1 l2,
            parameters tool = l1 ++ p :: l2 ->
            (forall q, q ∈ l1 ++ l2 -> substituted args q = false) ->
            strip_trailing_slash (baseUrl tool) +:+ path tool
            = before +:+ ("{" +:+ n +:+ "}") +:+ after ->
            buildUrl tool args = before +:+ v +:+ after
            /\ (includes ("{" +:+ n +:+ "}") after = true ->
                includes ("{" +:+ n +:+ "}") (buildUrl tool args) = true)))
  /\ (forall ts l1 l2,
        flat ts = true ->
        render ts = strip_trailing_slash (baseUrl tool) +:+ path tool ->
        parameters tool = l1 ++ p :: l2 ->
        (forall q, q ∈ parameters tool -> substituted args q = true ->
           brace_free (toString (name q)) = true) ->
        (forall q, q ∈ l1 ++ l2 -> substituted args q = true ->
           toString (name q) <> n) ->
        let rest := fold_left (fill args) (l1 ++ l2) (fill_first n v ts) in
        buildUrl tool args = render rest
        /\ holes n rest = Nat.pred (holes n ts)
        /\ ((2 <= holes n ts)%nat ->
            includes ("{" +:+ n +:+ "}") (buildUrl tool args) = true)).
Proof.
  intros Hsub n v.
  assert (Hp : is_str "path" (in_ p) = true /\ arg args p <> JUndefined).
  { unfold substituted in Hsub. apply andb_true_iff in Hsub as [H1 H2].
    split; [done |]. by apply is_undefined_false, negb_true_iff. }
  destruct Hp as [Hp Ha].
  split.
  - intros before after Hfirst.
    assert (Hstep : substitute args
                      (before +:+ ("{" +:+ n +:+ "}") +:+ after) p
                    = before +:+ v +:+ after).
    { rewrite (substitute_replaces _ _ _ Hp Ha). by apply replace_first. }
    split; [exact Hstep |].
    intros l1 l2 Hparams Hothers Hurl.
    assert (Hskip : forall l url,
               (forall q, q ∈ l -> substituted args q = false) ->
               fold_left (substitute args) l url = url).
    { induction l as [|q l IH]; intros url Hl; simpl; [done |].
      assert (Hq : substitute args url q = url).
      { unfold substitute. fold (substituted args q).
        by rewrite (Hl q (list_elem_of_here _ _)). }
      rewrite Hq. apply IH. intros q' Hq'. by apply Hl, list_elem_of_further. }
    assert (Hbuild : buildUrl tool args = before +:+ v +:+ after).
    { unfold buildUrl. rewrite Hparams, fold_left_app. simpl.
      rewrite (Hskip l1).
      - rewrite Hurl, Hstep. apply Hskip.
        intros q Hq. apply Hothers, elem_of_app. by right.
      - intros q Hq. apply Hothers, elem_of_app. by left. }
    split; [exact Hbuild |].
    intros Hlater. rewrite Hbuild.
    by apply includes_app_r, includes_app_r.
  - intros ts l1 l2 Hflat Hrender Hparams Hnames Hothers rest.
    assert (Hbuild : buildUrl tool args = render rest).
    { unfold buildUrl. rewrite <- Hrender.
      rewrite fold_substitute_render by done. f_equal.
      rewrite (fold_left_permutation (fill args) (parameters tool) (p :: l1 ++ l2)).
      - cbn [fold_left]. unfold rest, fill. by rewrite Hsub.
      - intros a x y. apply fill_comm.
      - rewrite Hparams. by rewrite Permutation_middle. }
    assert (Hholes : holes n rest = Nat.pred (holes n ts)).
    { unfold rest. rewrite holes_fold_others by done.
      apply holes_fill_first_same. }
    split; [done |]. split; [done |].
    intros H2. rewrite Hbuild. apply includes_render_hole. lia.
Qed.

Lemma buildUrl_first_occurrence_only_witness :
  buildUrl
    (get_tool "https://api.example.com" "/orgs/{org}/users/{id}/friends/{id}"
       [path_param "org"; query_param "limit"; path_param "id"])
    [("id", JNum 7); ("org", JStr "acme"); ("limit", JNum 10)]
  = "https://api.example.com/orgs/acme/users/7/friends/{id}"
  /\ includes "{id}"
       (buildUrl
          (get_tool "https://api.example.com"
             "/orgs/{org}/users/{id}/friends/{id}"
             [path_param "org"; query_param "limit"; path_param "id"])
          [("id", JNum 7); ("org", JStr "acme"); ("limit", JNum 10)]) = true.
Proof.
  pose proof (buildUrl_first_occurrence_only
                (get_tool "https://api.example.com"
                   "/orgs/{org}/users/{id}/friends/{id}"
                   [path_param "org"; query_param "limit"; path_param "id"])
                [("id", JNum 7); ("org", JStr "acme"); ("limit", JNum 10)]
                (path_param "id") eq_refl) as [_ H].
  destruct (H [Lit "https://api.example.com/orgs/"; Hole "org"; Lit "/users/";
               Hole "id"; Lit "/friends/"; Hole "id"]
              [path_param "org"; query_param "limit"] []
              eq_refl eq_refl eq_refl) as (H1 & _ & H3).
  - intros q Hq _. repeat (apply elem_of_cons in Hq as [-> | Hq]; [reflexivity |]).
    by apply elem_of_nil in Hq.
  - intros q Hq Hs.
    apply elem_of_cons in Hq as [-> | Hq]; [discriminate |].
    apply elem_of_cons in Hq as [-> | Hq]; [discriminate |].
    by apply elem_of_nil in Hq.
  - split; [exact H1 |]. apply H3. apply (bool_decide_unpack _). reflexivity.
Defined.

End UrlSubstitution.

(* ===================================================================== *)
(** ** File names and namespaces *)
(* ===================================================================== *)

Section FileNameProperties.
Import Js OpenapiParser Auth NodePath AuthFile OpenapiDocument.

Lemma sapp_nil_r (a : string) : a +:+ EmptyString = a.
Proof. induction a as [|x a IH]; simpl; [done | by rewrite IH]. Qed.

Lemma split_go_plain (sep : ascii) (cur s : string) :
  sforall (fun c => negb (Ascii.eqb c sep)) s = true ->
  split_go sep cur s = [cur +:+ s].
Proof.
  revert cur. induction s as [|c s IH]; intros cur H; cbn [split_go].
  - by rewrite sapp_nil_r.
  - cbn [sforall] in H. apply andb_true_iff in H as [Hc Hs].
    apply negb_true_iff in Hc. rewrite Hc, (IH _ Hs).
    by rewrite sapp_assoc.
Qed.

Lemma split_go_app (sep : ascii) (cur a b : string) :
  split_go sep cur (a +:+ String sep b)
  = split_go sep cur a ++ split_go sep EmptyString b.
Proof.
  revert cur. induction a as [|c a IH]; intros cur.
  - cbn [String.append split_go]. by rewrite Ascii.eqb_refl.
  - change (String c a +:+ String sep b) with (String c (a +:+ String sep b)).
    cbn [split_go]. destruct (Ascii.eqb c sep); by rewrite IH.
Qed.

Lemma last_nonempty_app (l : list string) (name : string) :
  name <> EmptyString -> last_nonempty (l ++ [name]) = name.
Proof.
  intros Hn. unfold last_nonempty. rewrite fold_left_app. cbn [fold_left].
  apply is_empty_false in Hn. by rewrite Hn.
Qed.

(** The base name of a file in a directory is the file's name. *)
Lemma basename_in_dir (dir name : string) :
  no_slash name = true -> name <> EmptyString ->
  basename (dir +:+ "/" +:+ name) = name /\ basename name = name.
Proof.
  intros Hs Hn. unfold basename, split. split.
  - change (dir +:+ "/" +:+ name) with (dir +:+ String "/" name).
    rewrite split_go_app, (split_go_plain _ _ _ Hs).
    by apply last_nonempty_app.
  - rewrite (split_go_plain _ _ _ Hs). by apply (last_nonempty_app []).
Qed.

Lemma last_dot_none (s : string) : no_dot s = true -> last_dot s = None.
Proof.
  unfold no_dot. induction s as [|c s IH]; cbn [sforall last_dot]; [done |].
  intros H. apply andb_true_iff in H as [Hc Hs].
  apply negb_true_iff in Hc. by rewrite (IH Hs), Hc.
Qed.

Lemma last_dot_app (stem ext : string) :
  no_dot ext = true ->
  last_dot (stem +:+ "." +:+ ext) = Some (stem, "." +:+ ext).
Proof.
  intros He. induction stem as [|c stem IH].
  - change (EmptyString +:+ "." +:+ ext) with (String "." ext).
    cbn [last_dot]. by rewrite (last_dot_none _ He).
  - change (String c stem +:+ "." +:+ ext) with (String c (stem +:+ "." +:+ ext)).
    cbn [last_dot]. by rewrite IH.
Qed.

Lemma no_slash_app (a b : string) : no_slash (a +:+ b) = no_slash a && no_slash b.
Proof. apply sforall_app. Qed.

(** The extension and the stem of [stem.ext]. *)
Lemma extname_stem_ext (p stem ext : string) :
  basename p = stem +:+ "." +:+ ext ->
  stem <> EmptyString -> no_dot ext = true -> ext <> EmptyString ->
  extname p = "." +:+ ext.
Proof.
  intros Hb Hstem Hext Hne. unfold extname. rewrite Hb, (last_dot_app _ _ Hext).
  apply is_empty_false in Hstem. rewrite Hstem.
  destruct (String.eqb_spec (stem +:+ "." +:+ ext) "..") as [E|_]; [| done].
  destruct stem as [|c [|c' stem]]; try done.
  - injection E as _ E. destruct ext; [done | discriminate].
  - injection E as _ _ E. by destruct stem.
Qed.

Lemma basename_without_stem_ext (p stem ext : string) :
  basename p = stem +:+ "." +:+ ext ->
  stem <> EmptyString ->
  (String.length (stem +:+ "." +:+ ext) <= String.length p)%nat ->
  basename_without p ("." +:+ ext) = stem.
Proof.
  intros Hb Hstem Hlen. unfold basename_without.
  assert (Hl : String.length (stem +:+ "." +:+ ext)
               = (String.length stem + String.length ("." +:+ ext))%nat)
    by apply length_sapp.
  assert (Hs : (0 < String.length stem)%nat) by (destruct stem; [done | simpl; lia]).
  cbn [is_empty orb String.append].
  change (String "." ext) with ("." +:+ ext).
  destruct (Nat.ltb_spec (String.length p) (String.length ("." +:+ ext))); [lia |].
  destruct (String.eqb_spec ("." +:+ ext) p) as [E|_].
  { rewrite <- E in Hlen. lia. }
  rewrite Hb.
  destruct (Nat.ltb_spec (String.length (stem +:+ "." +:+ ext))
              (String.length ("." +:+ ext))); [lia |].
  cbn [andb]. rewrite strip_suffix_app. apply is_empty_false in Hstem.
  by rewrite Hstem.
Qed.

Lemma lower_char_not_upper (c : ascii) : is_upper (lower_char c) = false.
Proof. destruct c as [[] [] [] [] [] [] [] []]; vm_compute; reflexivity. Qed.

Lemma sforall_smap (f : ascii -> bool) (g : ascii -> ascii) (s : string) :
  (forall c, f (g c) = true) -> sforall f (smap g s) = true.
Proof.
  intros H. induction s as [|c s IH]; cbn [smap sforall]; [done |].
  by rewrite H, IH.
Qed.

Lemma sforall_sfilter (f g : ascii -> bool) (s : string) :
  sforall f s = true ->
  sforall (fun c => f c && g c) (sfilter g s) = true.
Proof.
  induction s as [|c s IH]; cbn [sfilter sforall]; [done |].
  intros H. apply andb_true_iff in H as [Hc Hs].
  destruct (g c) eqn:Hg; cbn [sforall]; [| by apply IH].
  by rewrite Hc, Hg, (IH Hs).
Qed.

Lemma length_smap (g : ascii -> ascii) (s : string) :
  String.length (smap g s) = String.length s.
Proof. induction s as [|c s IH]; cbn [smap String.length]; [done | by rewrite IH]. Qed.

(** A namespace holds no capital letter, no [-] and no [_]. *)
Lemma namespace_chars (filePath : string) :
  sforall namespace_char (getApiNameFromFile filePath) = true.
Proof.
  unfold getApiNameFromFile.
  apply (sforall_sfilter (fun c => negb (is_upper c))
           (fun c => negb (is_separator c))).
  unfold toLowerCase. apply sforall_smap.
  intros c. by rewrite lower_char_not_upper.
Qed.

Lemma toLowerCase_fixed (s : string) :
  sforall (fun c => negb (is_upper c)) s = true -> toLowerCase s = s.
Proof.
  unfold toLowerCase. induction s as [|c s IH]; cbn [sforall smap]; [done |].
  intros H. apply andb_true_iff in H as [Hc Hs]. rewrite (IH Hs).
  unfold lower_char. apply negb_true_iff in Hc. by rewrite Hc.
Qed.

Lemma sfilter_fixed (g : ascii -> bool) (s : string) :
  sforall g s = true -> sfilter g s = s.
Proof.
  induction s as [|c s IH]; cbn [sforall sfilter]; [done |].
  intros H. apply andb_true_iff in H as [Hc Hs]. by rewrite Hc, (IH Hs).
Qed.

(** X1: a namespace is in normal form, whatever the file is called: it
    holds no capital letter, no [-] and no [_], so that lowering its case
    and removing the [-] and [_] from it, as [getApiNameFromFile] does
    to the file name, leave it as it is. *)
Theorem getApiNameFromFile_normal_form (filePath : string) :
  sforall namespace_char (getApiNameFromFile filePath) = true
  /\ toLowerCase (getApiNameFromFile filePath) = getApiNameFromFile filePath
  /\ sfilter (fun c => negb (is_separator c)) (getApiNameFromFile filePath)
     = getApiNameFromFile filePath.
Proof.
  pose proof (namespace_chars filePath) as H. split; [done |]. split.
  - apply toLowerCase_fixed. revert H. apply sforall_impl.
    intros c Hc. unfold namespace_char in Hc. by apply andb_true_iff in Hc as [Hc _].
  - apply sfilter_fixed. revert H. apply sforall_impl.
    intros c Hc. unfold namespace_char in Hc. by apply andb_true_iff in Hc as [_ Hc].
Qed.

(** X2: for a file [stem.ext], alone or in a directory, the namespace is
    the stem in lower case without its [-] and [_]: the directory and
    the extension play no part. *)
Theorem getApiNameFromFile_of_file (dir stem ext : string) :
  no_slash stem = true -> stem <> EmptyString ->
  no_slash ext = true -> no_dot ext = true -> ext <> EmptyString ->
  getApiNameFromFile (dir +:+ "/" +:+ stem +:+ "." +:+ ext)
  = sfilter (fun c => negb (is_separator c)) (toLowerCase stem)
  /\ getApiNameFromFile (stem +:+ "." +:+ ext)
     = sfilter (fun c => negb (is_separator c)) (toLowerCase stem).
Proof.
  intros Hstem Hne Hext Hdot Hene.
  assert (Hname : no_slash (stem +:+ "." +:+ ext) = true).
  { rewrite !no_slash_app. by rewrite Hstem, Hext. }
  assert (Hnn : stem +:+ "." +:+ ext <> EmptyString) by (by destruct stem).
  destruct (basename_in_dir dir _ Hname Hnn) as [Hb1 Hb2].
  unfold getApiNameFromFile.
  rewrite (extname_stem_ext _ stem ext Hb1), (extname_stem_ext _ stem ext Hb2);
    try done.
  rewrite (basename_without_stem_ext _ stem ext Hb1),
    (basename_without_stem_ext _ stem ext Hb2); try done.
  rewrite !length_sapp. lia.
Qed.

Lemma getApiNameFromFile_of_file_witness :
  getApiNameFromFile ("/home/me/specs" +:+ "/" +:+ "my-custom_Api" +:+ "." +:+ "yaml")
  = "mycustomapi"
  /\ getApiNameFromFile ("my-custom_Api" +:+ "." +:+ "yaml") = "mycustomapi".
Proof.
  apply (getApiNameFromFile_of_file "/home/me/specs" "my-custom_Api" "yaml");
    try reflexivity; discriminate.
Defined.

End FileNameProperties.

(* ===================================================================== *)
(** ** The compiled document *)
(* ===================================================================== *)

Section DocumentProperties.
Import Js OpenapiParser Auth HttpClient NodePath AuthFile OpenapiDocument Fixtures.

(** The operations of one path item that compile, in the order of the
    methods. *)
Lemma tools_of_path_spec (apiName baseUrl pathTemplate : string) (pathItem : JsValue)
    (acc : list GeneratedTool) :
  tools_of_path apiName baseUrl pathTemplate pathItem acc
  = acc ++ omap (fun method =>
                   if truthy (get pathItem method)
                   then createToolFromOperation apiName pathTemplate method
                          (get pathItem method) baseUrl (get pathItem "parameters")
                   else None) methods.
Proof.
  unfold tools_of_path. generalize methods. intros ms. revert acc.
  induction ms as [|m ms IH]; intros acc; cbn [fold_left omap list_omap].
  - by rewrite app_nil_r.
  - rewrite IH. destruct (truthy (get pathItem m)); cbn [negb]; [| done].
    destruct (createToolFromOperation _ _ _ _ _ _); [| done].
    by rewrite <- app_assoc.
Qed.

Lemma createToolFromOperation_fields (apiName pathTemplate method : string)
    (operation : JsValue) (baseUrl : string) (pathLevelParams : JsValue)
    (t : GeneratedTool) :
  createToolFromOperation apiName pathTemplate method operation baseUrl
    pathLevelParams = Some t ->
  tool_name t = generateToolName apiName operation pathTemplate method
  /\ OpenapiParser.method t = toUpperCase method
  /\ path t = pathTemplate
  /\ OpenapiParser.baseUrl t = baseUrl
  /\ requestBody t = get operation "requestBody"
  /\ exists pl ol,
       spread_or_empty pathLevelParams = Some pl
       /\ spread_or_empty (get operation "parameters") = Some ol
       /\ extractParameters (pl ++ ol) = Some (parameters t).
Proof.
  unfold createToolFromOperation.
  destruct (spread_or_empty pathLevelParams) as [pl|]; [| done].
  destruct (spread_or_empty (get operation "parameters")) as [ol|]; [| done].
  destruct (extractParameters (pl ++ ol)) as [ps|] eqn:E; [| done].
  intros [= <-]. cbn. repeat split; try done. by exists pl, ol.
Qed.

(** Every name starts with the namespace and an underscore. *)
Lemma generateToolName_prefix (apiName : string) (operation : JsValue)
    (pathTemplate method : string) :
  exists rest,
    generateToolName apiName operation pathTemplate method
    = apiName +:+ "_" +:+ rest.
Proof.
  unfold generateToolName. destruct (truthy _); eauto.
Qed.

Lemma prefix_before_underscore (a b x y : string) :
  sforall (fun c => negb (Ascii.eqb c "_")) a = true ->
  sforall (fun c => negb (Ascii.eqb c "_")) b = true ->
  a +:+ "_" +:+ x = b +:+ "_" +:+ y -> a = b.
Proof.
  revert b. induction a as [|c a IH]; intros [|d b] Ha Hb E.
  - done.
  - change (String "_" x = String d (b +:+ "_" +:+ y)) in E. injection E as <- _.
    discriminate.
  - change (String c (a +:+ "_" +:+ x) = String "_" y) in E. injection E as -> _.
    discriminate.
  - change (String c (a +:+ "_" +:+ x) = String d (b +:+ "_" +:+ y)) in E.
    injection E as <- E. cbn [sforall] in Ha, Hb.
    apply andb_true_iff in Ha as [_ Ha]. apply andb_true_iff in Hb as [_ Hb].
    f_equal. by apply IH.
Qed.

Lemma namespace_no_underscore (s : string) :
  sforall namespace_char s = true ->
  sforall (fun c => negb (Ascii.eqb c "_")) s = true.
Proof.
  apply sforall_impl. intros c H. unfold namespace_char, is_separator in H.
  apply andb_true_iff in H as [_ H]. apply negb_true_iff, orb_false_iff in H as [_ H].
  by rewrite H.
Qed.

Lemma generateToolsFromSpec_flat (spec : Document) (apiName : string) :
  generateToolsFromSpec spec apiName
  = match paths spec with
    | None => []
    | Some entries =>
        flat_map
          (fun entry =>
             if is_object (snd entry)
             then omap (fun method =>
                          if truthy (get (snd entry) method)
                          then createToolFromOperation apiName (fst entry) method
                                 (get (snd entry) method) (getBaseUrl spec)
                                 (get (snd entry) "parameters")
                          else None) methods
             else [])
          entries
    end.
Proof.
  unfold generateToolsFromSpec. destruct (paths spec) as [entries|]; [| done].
  assert (H : forall acc,
             fold_left
               (fun tools entry =>
                  if negb (is_object (snd entry)) then tools
                  else tools_of_path apiName (getBaseUrl spec) (fst entry)
                         (snd entry) tools) entries acc
             = acc ++ flat_map
                 (fun entry =>
                    if is_object (snd entry)
                    then omap (fun method =>
                                 if truthy (get (snd entry) method)
                                 then createToolFromOperation apiName (fst entry)
                                        method (get (snd entry) method)
                                        (getBaseUrl spec)
                                        (get (snd entry) "parameters")
                                 else None) methods
                    else []) entries).
  { induction entries as [|e entries IH]; intros acc; cbn [fold_left flat_map].
    - by rewrite app_nil_r.
    - rewrite IH. destruct (is_object (snd e)); cbn [negb].
      + by rewrite tools_of_path_spec, <- app_assoc.
      + done. }
  apply (H []).
Qed.

(** X3: where a tool of a compiled document comes from.  It is built from
    one path of the document and one of the seven methods; its name
    starts with the namespace and an underscore, its method is the
    method in capitals, its path is the path of the document, and its
    base URL is the first server of the document, or the placeholder
    [https://api.example.com] when the document names none. *)
Theorem generateToolsFromSpec_sound (spec : Document) (apiName : string)
    (t : GeneratedTool) :
  t ∈ generateToolsFromSpec spec apiName ->
  exists entries pathTemplate pathItem m,
    paths spec = Some entries
    /\ (pathTemplate, pathItem) ∈ entries
    /\ m ∈ methods
    /\ truthy (get pathItem m) = true
    /\ tool_name t = generateToolName apiName (get pathItem m) pathTemplate m
    /\ (exists rest, tool_name t = apiName +:+ "_" +:+ rest)
    /\ method t = toUpperCase m
    /\ path t = pathTemplate
    /\ baseUrl t = getBaseUrl spec
    /\ (forall url others, servers spec = Some (url :: others) -> baseUrl t = url)
    /\ (servers spec = None \/ servers spec = Some [] ->
        baseUrl t = "https://api.example.com").
Proof.
  rewrite generateToolsFromSpec_flat.
  destruct (paths spec) as [entries|] eqn:Hpaths; [| by intros H%elem_of_nil].
  intros Ht. apply list_elem_of_In, in_flat_map in Ht as ([pt item] & Hin & Ht).
  apply list_elem_of_In in Hin, Ht. cbn [fst snd] in Ht.
  destruct (is_object item); [| by apply elem_of_nil in Ht].
  apply list_elem_of_omap in Ht as (m & Hm & Hc).
  destruct (truthy (get item m)) eqn:Hop; [| done].
  apply createToolFromOperation_fields in Hc as (Hname & Hmeth & Hpath & Hbase & _).
  exists entries, pt, item, m. repeat split; try done.
  - rewrite Hname. apply generateToolName_prefix.
  - intros url others Hs. rewrite Hbase. unfold getBaseUrl. by rewrite Hs.
  - intros [Hs | Hs]; rewrite Hbase; unfold getBaseUrl; by rewrite Hs.
Qed.

Lemma generateToolsFromSpec_sound_witness :
  (exists rest, tool_name one_path_tool = "petstore" +:+ "_" +:+ rest)
  /\ baseUrl one_path_tool = "https://petstore.example.com/v1".
Proof.
  destruct (generateToolsFromSpec_sound one_path_document "petstore" one_path_tool)
    as (entries & pt & item & m & _ & _ & _ & _ & _ & Hrest & _ & _ & _ & Hurl & _).
  - apply list_elem_of_here.
  - split; [exact Hrest |]. by apply (Hurl _ ["https://backup.example.com"]).
Defined.

Lemma length_omap_le {A B} (f : A -> option B) (l : list A) :
  (length (omap f l) <= length l)%nat.
Proof.
  induction l as [|x l IH]; cbn [omap list_omap length]; [done |].
  destruct (f x); cbn [length]; lia.
Qed.

(** X4: what a document compiles to.  A document without paths, or with
    an empty [paths] object, compiles to no tool; a document compiles to
    at most seven tools a path; and every operation of a path item that
    is present and that [createToolFromOperation] accepts is among the
    tools. *)
Theorem generateToolsFromSpec_complete (spec : Document) (apiName : string) :
  (paths spec = None \/ paths spec = Some [] ->
   generateToolsFromSpec spec apiName = [])
  /\ (forall entries, paths spec = Some entries ->
        (length (generateToolsFromSpec spec apiName) <= 7 * length entries)%nat)
  /\ (forall entries pathTemplate pathItem m t,
        paths spec = Some entries ->
        (pathTemplate, pathItem) ∈ entries ->
        is_object pathItem = true ->
        m ∈ methods ->
        truthy (get pathItem m) = true ->
        createToolFromOperation apiName pathTemplate m (get pathItem m)
          (getBaseUrl spec) (get pathItem "parameters") = Some t ->
        t ∈ generateToolsFromSpec spec apiName).
Proof.
  rewrite generateToolsFromSpec_flat. split; [| split].
  - intros [-> | ->]; reflexivity.
  - intros entries ->. induction entries as [|e entries IH]; cbn [flat_map length].
    + lia.
    + rewrite length_app.
      assert (H : (length (if is_object (snd e)
                           then omap (fun method =>
                                        if truthy (get (snd e) method)
                                        then createToolFromOperation apiName (fst e)
                                               method (get (snd e) method)
                                               (getBaseUrl spec)
                                               (get (snd e) "parameters")
                                        else None) methods
                           else []) <= 7)%nat).
      { destruct (is_object (snd e)); [| cbn [length]; lia].
        apply (length_omap_le _ methods). }
      lia.
  - intros entries pt item m t -> Hin Hobj Hm Hop Hc.
    apply list_elem_of_In, in_flat_map. exists (pt, item).
    split; [by apply list_elem_of_In |]. cbn [fst snd]. rewrite Hobj.
    apply list_elem_of_In, list_elem_of_omap. exists m. by rewrite Hop.
Qed.

Lemma generateToolsFromSpec_complete_witness :
  store_delete_tool ∈ generateToolsFromSpec one_path_document "store"
  /\ (length (generateToolsFromSpec one_path_document "store") <= 7 * 1)%nat.
Proof.
  pose proof (generateToolsFromSpec_complete one_path_document "store")
    as (_ & Hlen & Hin).
  split.
  - apply (Hin _ "/pet/{petId}"
             (JObj [("get", JObj [("operationId", JStr "getPetById")]);
                    ("delete", JObj [])]) "delete" store_delete_tool eq_refl).
    + apply list_elem_of_here.
    + reflexivity.
    + do 4 apply list_elem_of_further. apply list_elem_of_here.
    + reflexivity.
    + reflexivity.
  - apply (Hlen _ eq_refl).
Defined.

Lemma generateToolsFromSpec_name (spec : Document) (apiName : string)
    (t : GeneratedTool) :
  t ∈ generateToolsFromSpec spec apiName ->
  exists rest, tool_name t = apiName +:+ "_" +:+ rest.
Proof.
  rewrite generateToolsFromSpec_flat.
  destruct (paths spec) as [entries|]; [| by intros H%elem_of_nil].
  intros Ht. apply list_elem_of_In, in_flat_map in Ht as ([pt item] & _ & Ht).
  apply list_elem_of_In in Ht. cbn [fst snd] in Ht.
  destruct (is_object item); [| by apply elem_of_nil in Ht].
  apply list_elem_of_omap in Ht as (m & _ & Hc).
  destruct (truthy (get item m)); [| done].
  apply createToolFromOperation_fields in Hc as (-> & _).
  apply generateToolName_prefix.
Qed.

(** X5: two documents whose files have different namespaces share no tool
    name: the namespace is what stands before the first underscore of a
    name, since a namespace holds no underscore itself. *)
Theorem tool_names_disjoint (validate : string -> Completion Document)
    (file1 file2 : string) (parsed1 parsed2 : ParsedSpec)
    (t1 t2 : GeneratedTool) :
  parseOpenAPISpec validate file1 = Parsed parsed1 ->
  parseOpenAPISpec validate file2 = Parsed parsed2 ->
  getApiNameFromFile file1 <> getApiNameFromFile file2 ->
  t1 ∈ tools parsed1 -> t2 ∈ tools parsed2 ->
  tool_name t1 <> tool_name t2.
Proof.
  unfold parseOpenAPISpec.
  destruct (validate file1) as [spec1|]; [| by destruct (_ || _)].
  destruct (validate file2) as [spec2|]; [| by destruct (_ || _)].
  intros [= <-] [= <-] Hns H1 H2 Heq. cbn [tools] in H1, H2.
  apply generateToolsFromSpec_name in H1 as [r1 E1], H2 as [r2 E2].
  rewrite E1, E2 in Heq. apply Hns.
  apply (prefix_before_underscore _ _ r1 r2);
    [apply namespace_no_underscore, namespace_chars ..| done].
Qed.

Lemma tool_names_disjoint_witness :
  tool_name one_path_tool <> tool_name store_delete_tool.
Proof.
  apply (tool_names_disjoint accept_all "specs/Pet-Store.json" "specs/store.yaml"
           {| spec_apiName := "petstore"; filePath := "specs/Pet-Store.json";
              spec := one_path_document;
              tools := generateToolsFromSpec one_path_document "petstore" |}
           {| spec_apiName := "store"; filePath := "specs/store.yaml";
              spec := one_path_document;
              tools := generateToolsFromSpec one_path_document "store" |}).
  - reflexivity.
  - reflexivity.
  - discriminate.
  - apply list_elem_of_here.
  - apply list_elem_of_further, list_elem_of_here.
Defined.

End DocumentProperties.

(* ===================================================================== *)
(** ** Description files and their credentials *)
(* ===================================================================== *)

Section SpecFileProperties.
Import Js OpenapiParser Auth HttpClient NodePath AuthFile OpenapiDocument Fixtures.

Lemma smap_app (g : ascii -> ascii) (a b : string) :
  smap g (a +:+ b) = smap g a +:+ smap g b.
Proof. induction a as [|c a IH]; simpl; [done | by rewrite IH]. Qed.

Lemma last_dot_inv (s pre ext : string) :
  last_dot s = Some (pre, ext) -> s = pre +:+ ext.
Proof.
  revert pre. induction s as [|c s IH]; intros pre; cbn [last_dot]; [done |].
  destruct (last_dot s) as [[pre' ext']|].
  - intros [= <- <-]. simpl. f_equal. by apply IH.
  - destruct (Ascii.eqb c "."); [| done]. by intros [= <- <-].
Qed.

(** The extension is the end of the base name. *)
Lemma extname_suffix (p : string) :
  exists pre, basename p = pre +:+ extname p.
Proof.
  unfold extname. destruct (last_dot (basename p)) as [[pre ext]|] eqn:E.
  - apply last_dot_inv in E.
    destruct (is_empty pre); [exists (basename p); by rewrite sapp_nil_r |].
    destruct (String.eqb (basename p) "..");
      [exists (basename p); by rewrite sapp_nil_r | by exists pre].
  - exists (basename p). by rewrite sapp_nil_r.
Qed.

Lemma isOpenAPIFile_basename (p q : string) :
  basename p = basename q -> isOpenAPIFile p = isOpenAPIFile q.
Proof. intros H. unfold isOpenAPIFile, extname. by rewrite H. Qed.

(** X6: which files are taken as description documents.  A file is
    accepted exactly when its extension, in lower case, is [.json],
    [.yaml] or [.yml] and its base name, in lower case, is none of the
    five JSON configuration names of the skip list (the two [.js] names
    of that list can never apply).  The directory plays no part.  A name
    without a dot, and a dot-file without a second dot such as [.env],
    are never accepted. *)
Theorem isOpenAPIFile_spec (filePath : string) :
  (isOpenAPIFile filePath = true <->
   toLowerCase (extname filePath) ∈ [".json"; ".yaml"; ".yml"]
   /\ toLowerCase (basename filePath)
      ∉ ["package.json"; "package-lock.json"; "tsconfig.json";
         ".eslintrc.json"; "jest.config.json"])
  /\ (forall dir name,
        no_slash name = true -> name <> EmptyString ->
        isOpenAPIFile (dir +:+ "/" +:+ name) = isOpenAPIFile name)
  /\ (forall name,
        no_slash name = true -> no_dot name = true ->
        isOpenAPIFile name = false /\ isOpenAPIFile ("." +:+ name) = false).
Proof.
  split; [| split].
  - unfold isOpenAPIFile.
    destruct (extname_suffix filePath) as [pre Hpre].
    set (ext := toLowerCase (extname filePath)).
    set (filename := toLowerCase (basename filePath)).
    assert (Hfile : filename = toLowerCase pre +:+ ext).
    { unfold filename, ext, toLowerCase. by rewrite Hpre at 1; rewrite smap_app. }
    assert (Hext : existsb (String.eqb ext) [".json"; ".yaml"; ".yml"] = true
                   <-> ext ∈ [".json"; ".yaml"; ".yml"]).
    { rewrite existsb_exists. split.
      - intros (x & Hx & E). apply String.eqb_eq in E. subst x.
        by apply list_elem_of_In.
      - intros H. exists ext. split; [by apply list_elem_of_In |].
        apply String.eqb_refl. }
    destruct (existsb (String.eqb ext) [".json"; ".yaml"; ".yml"]) eqn:He;
      cbn [negb].
    + assert (Hin : ext ∈ [".json"; ".yaml"; ".yml"]) by (by apply Hext).
      assert (Hjs : filename <> "webpack.config.js" /\ filename <> "rollup.config.js").
      { rewrite Hfile. split; intros E;
          pose proof (strip_suffix_app ext (toLowerCase pre)) as Hs;
          rewrite E in Hs;
          repeat (apply elem_of_cons in Hin as [-> | Hin]; [by vm_compute in Hs |]);
          by apply elem_of_nil in Hin. }
      destruct Hjs as [Hw Hr]. apply String.eqb_neq in Hw, Hr.
      cbn [existsb]. rewrite Hw, Hr, !orb_false_r.
      split.
      * intros H. split; [done |]. intros Hbad.
        repeat (apply elem_of_cons in Hbad as [E | Hbad];
                [rewrite E in H; by vm_compute in H |]).
        by apply elem_of_nil in Hbad.
      * intros [_ Hgood].
        repeat match goal with
               | |- context [String.eqb filename ?x] =>
                   destruct (String.eqb_spec filename x) as [E|_];
                   [exfalso; apply Hgood; rewrite E;
                    repeat (first [apply list_elem_of_here
                                  | apply list_elem_of_further]) |]
               end.
        reflexivity.
    + split; [done |]. intros [Hin _]. apply Hext in Hin. discriminate.
  - intros dir name Hs Hn. apply isOpenAPIFile_basename.
    destruct (basename_in_dir dir name Hs Hn) as [-> ->]. done.
  - intros name Hs Hd.
    assert (H1 : extname name = EmptyString).
    { unfold extname. destruct name as [|c name]; [done |].
      destruct (basename_in_dir EmptyString (String c name) Hs ltac:(done))
        as [_ ->].
      by rewrite (last_dot_none _ Hd). }
    assert (H2 : extname ("." +:+ name) = EmptyString).
    { unfold extname.
      destruct (basename_in_dir EmptyString ("." +:+ name)) as [_ ->]; [| done |].
      - change ("." +:+ name) with (String "." name). unfold no_slash.
        cbn [sforall]. exact Hs.
      - change ("." +:+ name) with (String "." name). cbn [last_dot].
        by rewrite (last_dot_none _ Hd). }
    unfold isOpenAPIFile. by rewrite H1, H2.
Qed.

Lemma isOpenAPIFile_spec_witness :
  isOpenAPIFile ("/home/me/specs" +:+ "/" +:+ "PetStore.YAML")
  = isOpenAPIFile "PetStore.YAML"
  /\ isOpenAPIFile ("." +:+ "env") = false.
Proof.
  pose proof (isOpenAPIFile_spec "PetStore.YAML") as (_ & Hdir & Hdot).
  split.
  - apply Hdir; [reflexivity | discriminate].
  - apply (Hdot "env"); reflexivity.
Defined.

Lemma classify_api_key (name : string) :
  name <> EmptyString ->
  has_line_terminator name = false ->
  classify (name +:+ "_API_KEY") = Some (toLowerCase name, "apiKey", KToken).
Proof.
  intros Hn Hlt. unfold classify.
  destruct (match_suffix "_BEARER_TOKEN" (name +:+ "_API_KEY")) as [m|] eqn:E1.
  { apply match_suffix_inv in E1 as [E1 _].
    change "_BEARER_TOKEN" with ("_BEARER_TOKE" +:+ str1 "N"%char) in E1.
    change "_API_KEY" with ("_API_KE" +:+ str1 "Y"%char) in E1.
    rewrite <- !sapp_assoc in E1. apply last_char_differs in E1. discriminate. }
  by rewrite (match_suffix_app _ _ Hn Hlt).
Qed.

Lemma lower_char_separator (c : ascii) :
  is_separator (lower_char c) = is_separator c.
Proof. destruct c as [[] [] [] [] [] [] [] []]; vm_compute; reflexivity. Qed.

Lemma sforall_toLowerCase_separator (s : string) :
  sforall (fun c => negb (is_separator c)) (toLowerCase s)
  = sforall (fun c => negb (is_separator c)) s.
Proof.
  unfold toLowerCase. induction s as [|c s IH]; cbn [smap sforall]; [done |].
  by rewrite lower_char_separator, IH.
Qed.

Lemma sforall_sfilter_self (g : ascii -> bool) (s : string) :
  sforall g (sfilter g s) = true.
Proof.
  induction s as [|c s IH]; cbn [sfilter sforall]; [done |].
  destruct (g c) eqn:Hg; cbn [sforall]; [by rewrite Hg | done].
Qed.

(** X7: which [API_KEY] variable configures a file.  For the file
    [stem.ext] of a directory, the variable [NAME_API_KEY] alone in the
    environment, with a [NAME] that is not [__PROTO__], makes the
    resolver create the descriptor of the namespace of the file (kind
    [apiKey], the value as token, the default header name) exactly when
    [NAME] in lower case is the stem in lower case without its [-] and
    [_], and is not [constructor]: for that namespace no descriptor is
    created.  So a [NAME] that holds a [-] or a [_] never configures the
    file, whatever the file is called. *)
Theorem api_key_variable_of_file (dir stem ext NAME value : string) :
  no_slash stem = true -> stem <> EmptyString ->
  no_slash ext = true -> no_dot ext = true -> ext <> EmptyString ->
  NAME <> EmptyString ->
  has_line_terminator NAME = false ->
  value <> EmptyString ->
  prototype_untouched [(NAME +:+ "_API_KEY", value)] = true ->
  let ns := getApiNameFromFile (dir +:+ "/" +:+ stem +:+ "." +:+ ext) in
  loadAuthConfig [(NAME +:+ "_API_KEY", value)] !! ns
  = (if String.eqb (toLowerCase NAME)
          (sfilter (fun c => negb (is_separator c)) (toLowerCase stem))
        && negb (String.eqb (toLowerCase NAME) "constructor")
     then Some {| type := "apiKey"; token := Some value;
                  headerName := Some "X-API-Key";
                  username := None; password := None |}
     else None)
  /\ (sforall (fun c => negb (is_separator c)) NAME = false ->
      loadAuthConfig [(NAME +:+ "_API_KEY", value)] !! ns = None).
Proof.
  intros Hstem Hne Hext Hdot Hene HN Hlt Hv Hproto ns.
  assert (Hns : ns = sfilter (fun c => negb (is_separator c)) (toLowerCase stem)).
  { unfold ns, getApiNameFromFile.
    assert (Hname : no_slash (stem +:+ "." +:+ ext) = true).
    { rewrite !no_slash_app. by rewrite Hstem, Hext. }
    assert (Hnn : stem +:+ "." +:+ ext <> EmptyString) by (by destruct stem).
    destruct (basename_in_dir dir _ Hname Hnn) as [Hb _].
    rewrite (extname_stem_ext _ stem ext Hb Hne Hdot Hene).
    rewrite (basename_without_stem_ext _ stem ext Hb Hne); [done |].
    rewrite !length_sapp. lia. }
  pose proof (classify_api_key _ HN Hlt) as Hc.
  assert (Hnp : String.eqb (toLowerCase NAME) "__proto__" = false).
  { unfold prototype_untouched in Hproto. cbn [forallb fst snd] in Hproto.
    rewrite Hc in Hproto. apply is_empty_false in Hv. rewrite Hv in Hproto.
    cbn [orb] in Hproto. rewrite andb_true_r in Hproto.
    by apply negb_true_iff in Hproto. }
  assert (Hload : loadAuthConfig [(NAME +:+ "_API_KEY", value)]
                  = if String.eqb (toLowerCase NAME) "constructor" then ∅
                    else {[ toLowerCase NAME :=
                              {| type := "apiKey"; token := Some value;
                                 headerName := Some "X-API-Key";
                                 username := None; password := None |} ]}).
  { unfold loadAuthConfig. cbn [fold_left].
    destruct (String.eqb (toLowerCase NAME) "constructor") eqn:Hctor.
    - apply (load_step_builtin _ _ _ _ _ _ Hc); [| apply lookup_empty].
      unfold builtin_namespace. by rewrite Hctor.
    - rewrite (load_step_lookup _ _ _ _ _ _ Hv Hc).
      + rewrite lookup_empty. reflexivity.
      + left. unfold builtin_namespace. by rewrite Hctor, Hnp. }
  assert (Hlook : loadAuthConfig [(NAME +:+ "_API_KEY", value)] !! ns
                  = if String.eqb (toLowerCase NAME) ns
                       && negb (String.eqb (toLowerCase NAME) "constructor")
                    then Some {| type := "apiKey"; token := Some value;
                                 headerName := Some "X-API-Key";
                                 username := None; password := None |}
                    else None).
  { rewrite Hload.
    destruct (String.eqb (toLowerCase NAME) "constructor");
      [by rewrite lookup_empty, andb_false_r |].
    rewrite andb_true_r.
    destruct (String.eqb_spec (toLowerCase NAME) ns) as [<-|Hq].
    - by rewrite lookup_singleton_eq.
    - by rewrite lookup_singleton_ne. }
  rewrite Hlook, Hns. split; [done |].
  intros Hsep.
  destruct (String.eqb_spec (toLowerCase NAME)
              (sfilter (fun c => negb (is_separator c)) (toLowerCase stem)))
    as [E|_]; [| done].
  rewrite <- sforall_toLowerCase_separator, E, sforall_sfilter_self in Hsep.
  discriminate.
Qed.

Lemma api_key_variable_of_file_witness :
  loadAuthConfig [("MYCUSTOMAPI" +:+ "_API_KEY", "k-1")]
  !! getApiNameFromFile ("/specs" +:+ "/" +:+ "my-custom_Api" +:+ "." +:+ "yaml")
  = Some {| type := "apiKey"; token := Some "k-1";
            headerName := Some "X-API-Key";
            username := None; password := None |}.
Proof.
  apply (api_key_variable_of_file "/specs" "my-custom_Api" "yaml" "MYCUSTOMAPI" "k-1");
    try reflexivity; discriminate.
Defined.

End SpecFileProperties.

(* ===================================================================== *)
(** ** The credential resolver on a whole environment *)
(* ===================================================================== *)

Section ResolverProperties.
Import Js OpenapiParser Auth HttpClient NodePath AuthFile OpenapiDocument Fixtures.

Lemma load_step_frame (cfg : gmap string AuthEntry) (entry : string * string)
    (ns : string) :
  concerns ns entry = false -> load_step cfg entry !! ns = cfg !! ns.
Proof.
  intros Hc.
  destruct (load_step_cases cfg entry) as [-> | (ns' & ty & k & Hcl & Hv & ->)];
    [done |].
  destruct (decide (ns' = ns)) as [->|Hne]; [| by rewrite lookup_insert_ne].
  unfold concerns in Hc. apply is_empty_false in Hv.
  by rewrite Hv, Hcl, String.eqb_refl in Hc.
Qed.

Lemma concerns_inv (ns : string) (entry : string * string) :
  concerns ns entry = true ->
  exists ty k,
    classify (fst entry) = Some (ns, ty, k) /\ snd entry <> EmptyString
    /\ forall cfg : gmap string AuthEntry,
        builtin_namespace ns = false \/ is_Some (cfg !! ns) ->
        load_step cfg entry
        = <[ns := update_entry ty k (snd entry) (cfg !! ns)]> cfg.
Proof.
  destruct entry as [key value]. unfold concerns. cbn [fst snd]. intros H.
  apply andb_true_iff in H as [Hv H]. apply negb_true_iff, is_empty_false in Hv.
  destruct (classify key) as [[[ns' ty] k]|] eqn:Hc; [| done].
  apply String.eqb_eq in H. subst ns'. exists ty, k.
  split; [done |]. split; [done |]. intros cfg Hns. by apply load_step_lookup.
Qed.

(** What an entry of a namespace does to its descriptor depends on that
    descriptor alone. *)
Lemma load_step_local (cfg cfg' : gmap string AuthEntry) (ns : string)
    (entry : string * string) :
  cfg !! ns = cfg' !! ns ->
  load_step cfg entry !! ns = load_step cfg' entry !! ns.
Proof.
  intros H. destruct (concerns ns entry) eqn:Hc;
    [| by rewrite !load_step_frame].
  destruct (concerns_inv ns entry Hc) as (ty & k & Hcl & Hv & Hstep).
  destruct (cfg !! ns) as [e|] eqn:E.
  - rewrite (Hstep cfg) by (right; by rewrite E).
    rewrite (Hstep cfg') by (right; by rewrite <- H).
    rewrite !lookup_insert_eq. by rewrite E, <- H.
  - destruct (builtin_namespace ns) eqn:Hb.
    + destruct entry as [key value]. cbn [fst] in Hcl.
      rewrite (load_step_builtin cfg key value ns ty k Hcl Hb E).
      rewrite (load_step_builtin cfg' key value ns ty k Hcl Hb (eq_sym H)).
      by rewrite E.
    + rewrite (Hstep cfg), (Hstep cfg') by (by left).
      rewrite !lookup_insert_eq. by rewrite E, <- H.
Qed.

(** No descriptor is ever created for a built-in namespace. *)
Lemma fold_builtin (env : list (string * string)) (cfg : gmap string AuthEntry)
    (ns : string) :
  builtin_namespace ns = true -> cfg !! ns = None ->
  fold_left load_step env cfg !! ns = None.
Proof.
  intros Hb. revert cfg. induction env as [|entry env IH]; intros cfg Hn;
    cbn [fold_left]; [done |].
  apply IH. destruct (concerns ns entry) eqn:Hc;
    [| by rewrite load_step_frame].
  destruct (concerns_inv ns entry Hc) as (ty & k & Hcl & _ & _).
  destruct entry as [key value]. cbn [fst] in Hcl.
  by rewrite (load_step_builtin _ key value ns ty k Hcl Hb).
Qed.

Lemma fold_frame (env : list (string * string)) (cfg cfg' : gmap string AuthEntry)
    (ns : string) :
  cfg !! ns = cfg' !! ns ->
  fold_left load_step env cfg !! ns
  = fold_left load_step (List.filter (concerns ns) env) cfg' !! ns.
Proof.
  revert cfg cfg'. induction env as [|entry env IH]; intros cfg cfg' H;
    cbn [List.filter fold_left]; [done |].
  destruct (concerns ns entry) eqn:Hc; cbn [fold_left].
  - apply IH. by apply load_step_local.
  - apply IH. by rewrite load_step_frame.
Qed.

Lemma fold_absent (env : list (string * string)) (cfg : gmap string AuthEntry)
    (ns : string) :
  existsb (concerns ns) env = false ->
  fold_left load_step env cfg !! ns = cfg !! ns.
Proof.
  revert cfg. induction env as [|entry env IH]; intros cfg H; cbn [fold_left]; [done |].
  cbn [existsb] in H. apply orb_false_iff in H as [Hc H].
  by rewrite (IH _ H), load_step_frame.
Qed.

Lemma fold_present (env : list (string * string)) (cfg : gmap string AuthEntry)
    (ns : string) :
  is_Some (cfg !! ns) -> is_Some (fold_left load_step env cfg !! ns).
Proof.
  revert cfg. induction env as [|entry env IH]; intros cfg H; cbn [fold_left]; [done |].
  apply IH.
  destruct (load_step_cases cfg entry) as [-> | (ns' & ty & k & _ & _ & ->)];
    [done |].
  destruct (decide (ns' = ns)) as [->|Hne];
    [by rewrite lookup_insert_eq | by rewrite lookup_insert_ne].
Qed.

(** X8: the descriptor of a namespace depends on the entries of that
    namespace alone.  In an environment without an entry of the
    namespace [__proto__], the descriptor that the resolver creates for
    a namespace is the one that it creates from the entries that concern
    the namespace (a value that is not empty, a key recognised with that
    namespace), the others left out; it creates none exactly when no
    entry concerns the namespace or the namespace is [constructor] or
    [__proto__]. *)
Theorem loadAuthConfig_frame (env : list (string * string)) (ns : string) :
  prototype_untouched env = true ->
  loadAuthConfig env !! ns = loadAuthConfig (List.filter (concerns ns) env) !! ns
  /\ (loadAuthConfig env !! ns = None <->
      existsb (concerns ns) env = false \/ builtin_namespace ns = true).
Proof.
  intros _. split; [unfold loadAuthConfig; by apply fold_frame |]. split.
  - intros Hnone. destruct (builtin_namespace ns) eqn:Hb; [by right | left].
    destruct (existsb (concerns ns) env) eqn:E; [| done].
    apply existsb_exists in E as (entry & Hin & Hc).
    apply in_split in Hin as (l1 & l2 & ->).
    unfold loadAuthConfig in Hnone. rewrite fold_left_app in Hnone.
    cbn [fold_left] in Hnone.
    destruct (concerns_inv ns entry Hc) as (ty & k & _ & _ & Hstep).
    rewrite Hstep in Hnone by (by left).
    assert (Hs : is_Some (fold_left load_step l2
                            (<[ns := update_entry ty k (snd entry)
                                       (fold_left load_step l1 ∅ !! ns)]>
                               (fold_left load_step l1 ∅)) !! ns)).
    { apply fold_present. by rewrite lookup_insert_eq. }
    rewrite Hnone in Hs. by destruct Hs.
  - intros [H | H]; unfold loadAuthConfig.
    + by rewrite fold_absent.
    + by apply fold_builtin.
Qed.

Lemma loadAuthConfig_frame_witness :
  loadAuthConfig [("GITHUB_TOKEN", "g"); ("CONSTRUCTOR_TOKEN", "c");
                  ("PETSTORE_API_KEY", "k")] !! "petstore"
  = loadAuthConfig [("PETSTORE_API_KEY", "k")] !! "petstore"
  /\ loadAuthConfig [("GITHUB_TOKEN", "g"); ("CONSTRUCTOR_TOKEN", "c");
                     ("PETSTORE_API_KEY", "k")] !! "constructor" = None.
Proof.
  split.
  - apply (loadAuthConfig_frame
             [("GITHUB_TOKEN", "g"); ("CONSTRUCTOR_TOKEN", "c");
              ("PETSTORE_API_KEY", "k")] "petstore"). reflexivity.
  - apply (loadAuthConfig_frame
             [("GITHUB_TOKEN", "g"); ("CONSTRUCTOR_TOKEN", "c");
              ("PETSTORE_API_KEY", "k")] "constructor"); [reflexivity |].
    by right.
Defined.

Lemma field_of_update_entry (ty : string) (k k' : ConfigKey) (value : string)
    (old : option AuthEntry) :
  field_of k (update_entry ty k' value old)
  = if ConfigKey_eqb k' k then Some value else old ≫= field_of k.
Proof.
  unfold update_entry. cbv zeta.
  set (e0 := match old with Some e => e | None => new_entry ty end).
  assert (He0 : field_of k e0 = old ≫= field_of k).
  { unfold e0. destruct old; [done |]. by destruct k. }
  set (e1 := if String.eqb ty "bearer" && negb (String.eqb (type e0) "bearer")
             then set_type ty e0 else e0).
  assert (He1 : field_of k e1 = old ≫= field_of k).
  { unfold e1. destruct (_ && _); [| done]. rewrite <- He0. by destruct k. }
  assert (He2 : field_of k (set_field k' value e1)
                = if ConfigKey_eqb k' k then Some value else old ≫= field_of k).
  { rewrite <- He1. by destruct k, k'. }
  destruct (String.eqb ty "apiKey" && _); [| exact He2].
  rewrite <- He2. by destruct k.
Qed.

Lemma fold_field_of (env : list (string * string)) (cfg : gmap string AuthEntry)
    (ns : string) (k : ConfigKey) :
  builtin_namespace ns = false ->
  (fold_left load_step env cfg !! ns) ≫= field_of k
  = fold_left (fun acc entry => if writes ns k entry then Some (snd entry) else acc)
      env ((cfg !! ns) ≫= field_of k).
Proof.
  intros Hb.
  revert cfg. induction env as [|entry env IH]; intros cfg; cbn [fold_left]; [done |].
  rewrite IH. f_equal.
  destruct (concerns ns entry) eqn:Hc.
  - destruct (concerns_inv ns entry Hc) as (ty & k' & Hcl & Hv & Hstep).
    rewrite Hstep, lookup_insert_eq by (by left). cbn [mbind option_bind].
    rewrite field_of_update_entry. unfold writes.
    apply is_empty_false in Hv. by rewrite Hv, Hcl, String.eqb_refl.
  - rewrite (load_step_frame _ _ _ Hc).
    assert (Hw : writes ns k entry = false); [| by rewrite Hw].
    unfold concerns in Hc. unfold writes.
    destruct (negb (is_empty (snd entry))); [| done]. cbn [andb] in *.
    destruct (classify (fst entry)) as [[[ns' ty] k']|]; [| done].
    by rewrite Hc.
Qed.

(** X9: the last write wins, field by field.  In an environment without
    an entry of the namespace [__proto__], each of the fields [token],
    [username] and [password] of the descriptor of a namespace other
    than [constructor] and [__proto__] holds the value of the last entry
    of the environment that writes it (a [{NAME}_API_KEY], [{NAME}_TOKEN]
    and [{NAME}_BEARER_TOKEN] entry all write [token]), and is not set
    when no entry writes it. *)
Theorem loadAuthConfig_last_write (env : list (string * string)) (ns : string)
    (k : ConfigKey) :
  prototype_untouched env = true ->
  builtin_namespace ns = false ->
  (loadAuthConfig env !! ns) ≫= field_of k = last_written ns k env.
Proof.
  intros _ Hb. unfold loadAuthConfig, last_written.
  by rewrite fold_field_of, lookup_empty.
Qed.

Lemma loadAuthConfig_last_write_witness :
  (loadAuthConfig [("PET_BEARER_TOKEN", "tok"); ("GITHUB_TOKEN", "g");
                   ("PET_API_KEY", "key")] !! "pet") ≫= field_of KToken
  = last_written "pet" KToken
      [("PET_BEARER_TOKEN", "tok"); ("GITHUB_TOKEN", "g"); ("PET_API_KEY", "key")]
  /\ last_written "pet" KToken
       [("PET_BEARER_TOKEN", "tok"); ("GITHUB_TOKEN", "g"); ("PET_API_KEY", "key")]
     = Some "key".
Proof.
  split; [| reflexivity].
  apply (loadAuthConfig_last_write
           [("PET_BEARER_TOKEN", "tok"); ("GITHUB_TOKEN", "g"); ("PET_API_KEY", "key")]
           "pet" KToken); reflexivity.
Defined.

Lemma last_written_nonempty (env : list (string * string)) (ns : string)
    (k : ConfigKey) (v : string) :
  last_written ns k env = Some v -> v <> EmptyString.
Proof.
  unfold last_written.
  assert (H : forall acc : option string,
             (forall x, acc = Some x -> x <> EmptyString) ->
             fold_left (fun acc entry =>
                          if writes ns k entry then Some (snd entry) else acc)
               env acc = Some v -> v <> EmptyString).
  { induction env as [|entry env IH]; intros acc Hacc; cbn [fold_left].
    - apply Hacc.
    - apply IH. destruct (writes ns k entry) eqn:Hw; [| done].
      intros x [= <-]. unfold writes in Hw. apply andb_true_iff in Hw as [Hv _].
      by apply negb_true_iff, is_empty_false in Hv. }
  by apply H.
Qed.

Lemma kind_stable (env : list (string * string)) (cfg : gmap string AuthEntry)
    (ns : string) (a : AuthEntry) :
  cfg !! ns = Some a ->
  existsb (bearer_entry ns) env = false ->
  exists a', fold_left load_step env cfg !! ns = Some a' /\ type a' = type a.
Proof.
  revert cfg a. induction env as [|entry env IH]; intros cfg a Ha Hb;
    cbn [fold_left]; [by exists a |].
  cbn [existsb] in Hb. apply orb_false_iff in Hb as [Hb1 Hb].
  destruct (concerns ns entry) eqn:Hc.
  - destruct (concerns_inv ns entry Hc) as (ty & k & Hcl & Hv & Hstep).
    assert (Hown : builtin_namespace ns = false \/ is_Some (cfg !! ns))
      by (right; by rewrite Ha).
    destruct (IH (load_step cfg entry)
                (update_entry ty k (snd entry) (cfg !! ns))) as (a' & Ha' & Ht);
      [by rewrite Hstep, lookup_insert_eq | done |].
    exists a'. split; [done |]. rewrite Ht, update_entry_type, Ha.
    unfold bearer_entry in Hb1. apply is_empty_false in Hv.
    rewrite Hv, Hcl, String.eqb_refl in Hb1. cbn [negb andb] in Hb1.
    by rewrite Hb1.
  - apply (IH _ a); [| done]. by rewrite load_step_frame.
Qed.

Lemma kind_first (env : list (string * string)) (cfg : gmap string AuthEntry)
    (ns : string) (entry : string * string) :
  builtin_namespace ns = false ->
  cfg !! ns = None ->
  existsb (bearer_entry ns) env = false ->
  find (concerns ns) env = Some entry ->
  exists a ns' k,
    fold_left load_step env cfg !! ns = Some a
    /\ classify (fst entry) = Some (ns', type a, k).
Proof.
  intros Hbn.
  revert cfg. induction env as [|e env IH]; intros cfg Hn Hb Hf; [done |].
  cbn [find] in Hf. cbn [existsb] in Hb. apply orb_false_iff in Hb as [Hb1 Hb].
  cbn [fold_left]. destruct (concerns ns e) eqn:Hc.
  - injection Hf as ->.
    destruct (concerns_inv ns entry Hc) as (ty & k & Hcl & Hv & Hstep).
    assert (Hown : builtin_namespace ns = false \/ is_Some (cfg !! ns))
      by (by left).
    destruct (kind_stable env (load_step cfg entry) ns
                (update_entry ty k (snd entry) (cfg !! ns))) as (a' & Ha' & Ht);
      [by rewrite Hstep, lookup_insert_eq | done |].
    exists a', ns, k. split; [done |].
    rewrite Ht, update_entry_type, Hn, Hcl.
    by destruct (String.eqb_spec ty "bearer") as [->|_].
  - apply IH; [| done | done]. by rewrite load_step_frame.
Qed.

(** X10: which kind a descriptor gets.  In an environment without an
    entry of the namespace [__proto__], and for a namespace other than
    [constructor] and [__proto__]: when no entry of the namespace names
    a bearer token, the kind is that of the first entry of the
    environment that concerns the namespace, whatever entries follow: a
    [{NAME}_API_KEY] that comes after a [{NAME}_USERNAME] leaves the
    kind [basic]. *)
Theorem loadAuthConfig_kind (env : list (string * string)) (ns : string)
    (entry : string * string) :
  prototype_untouched env = true ->
  builtin_namespace ns = false ->
  existsb (bearer_entry ns) env = false ->
  find (concerns ns) env = Some entry ->
  exists a ns' k,
    loadAuthConfig env !! ns = Some a
    /\ classify (fst entry) = Some (ns', type a, k).
Proof. intros _ Hn Hb Hf. unfold loadAuthConfig. by apply kind_first. Qed.

Lemma loadAuthConfig_kind_witness :
  exists a ns' k,
    loadAuthConfig [("PETSTORE_USERNAME", "u"); ("PETSTORE_API_KEY", "key")]
    !! "petstore" = Some a
    /\ classify "PETSTORE_USERNAME" = Some (ns', type a, k).
Proof.
  apply (loadAuthConfig_kind
           [("PETSTORE_USERNAME", "u"); ("PETSTORE_API_KEY", "key")] "petstore"
           ("PETSTORE_USERNAME", "u")); reflexivity.
Defined.

Lemma bearer_origin (env : list (string * string)) (cfg : gmap string AuthEntry)
    (ns : string) (a : AuthEntry) :
  builtin_namespace ns = false ->
  fold_left load_step env cfg !! ns = Some a -> type a = "bearer" ->
  existsb (bearer_entry ns) env = true
  \/ exists a0, cfg !! ns = Some a0 /\ type a0 = "bearer".
Proof.
  intros Hbn. revert cfg. induction env as [|entry env IH]; intros cfg Ha Hb; cbn [fold_left] in Ha.
  - right. by exists a.
  - cbn [existsb]. destruct (IH _ Ha Hb) as [H | (a0 & Ha0 & Hb0)];
      [left; by rewrite H, orb_true_r |].
    destruct (concerns ns entry) eqn:Hc.
    + destruct (concerns_inv ns entry Hc) as (ty & k & Hcl & Hv & Hstep).
      rewrite Hstep, lookup_insert_eq in Ha0 by (by left). injection Ha0 as <-.
      rewrite update_entry_type in Hb0.
      destruct (String.eqb_spec ty "bearer") as [->|Hty].
      * left. unfold bearer_entry. apply is_empty_false in Hv.
        by rewrite Hv, Hcl, String.eqb_refl.
      * right. destruct (cfg !! ns) as [a1|]; [by exists a1 | done].
    + right. exists a0. by rewrite <- (load_step_frame cfg entry ns Hc).
Qed.

Lemma bearer_entry_writes (env : list (string * string)) (ns : string) :
  existsb (bearer_entry ns) env = true ->
  exists t, last_written ns KToken env = Some t.
Proof.
  unfold last_written.
  assert (H : forall acc : option string,
             existsb (bearer_entry ns) env = true \/ is_Some acc ->
             is_Some (fold_left
                        (fun acc entry =>
                           if writes ns KToken entry then Some (snd entry) else acc)
                        env acc)).
  { induction env as [|entry env IH]; intros acc Hacc; cbn [fold_left].
    - destruct Hacc as [Hacc | Hacc]; [done | done].
    - apply IH. destruct Hacc as [Hacc | Hacc].
      + cbn [existsb] in Hacc. apply orb_true_iff in Hacc as [Hb | Hb]; [| by left].
        right. unfold bearer_entry in Hb. unfold writes.
        destruct (negb (is_empty (snd entry))); [| done]. cbn [andb] in *.
        destruct (classify (fst entry)) as [[[ns' ty] k]|] eqn:Hcl; [| done].
        apply andb_true_iff in Hb as [Hns Hty]. apply String.eqb_eq in Hty.
        subst ty. apply classify_cases in Hcl as [_ Hcl].
        destruct Hcl as [[_ ->] | [[? _] | [? _]]]; [| done | done].
        by rewrite Hns.
      + right. by destruct (writes ns KToken entry). }
  intros Hb. destruct (H None (or_introl Hb)) as [t Ht]. by exists t.
Qed.

(** X11: the header that the environment gives a call.  In an
    environment without an entry of the namespace [__proto__], for the
    descriptor that the resolver creates for a namespace: of kind
    [bearer], the builder sets [Authorization] to [Bearer] and the value
    of the last entry that writes the token, be it an API key; of kind
    [apiKey], it sets [X-API-Key] to that value; of kind [basic], it
    sets [Authorization] to the encoded pair when both a username and a
    password are written and adds nothing otherwise, a token of the
    namespace never being sent.  The kind of a descriptor that the
    resolver creates is one of the three, and it creates none for the
    namespaces [constructor] and [__proto__]. *)
Theorem applyAuthentication_of_environment (env : list (string * string))
    (ns : string) (a : AuthEntry) (headers : gmap string string) :
  prototype_untouched env = true ->
  loadAuthConfig env !! ns = Some a ->
  (type a = "bearer" ->
   exists t, last_written ns KToken env = Some t
     /\ applyAuthentication headers (Some a)
        = <["Authorization" := "Bearer " +:+ t]> headers)
  /\ (type a = "apiKey" ->
      exists t, last_written ns KToken env = Some t
        /\ applyAuthentication headers (Some a) = <["X-API-Key" := t]> headers)
  /\ (type a = "basic" ->
      applyAuthentication headers (Some a)
      = match last_written ns KUsername env, last_written ns KPassword env with
        | Some u, Some p =>
            <["Authorization" := "Basic " +:+ base64 (u +:+ ":" +:+ p)]> headers
        | _, _ => headers
        end)
  /\ type a ∈ ["bearer"; "apiKey"; "basic"]
  /\ builtin_namespace ns = false.
Proof.
  intros _ Ha.
  assert (Hbn : builtin_namespace ns = false).
  { destruct (builtin_namespace ns) eqn:Hb; [| done].
    unfold loadAuthConfig in Ha.
    by rewrite (fold_builtin env ∅ ns Hb (lookup_empty ns)) in Ha. }
  assert (Hfield : forall k, field_of k a = last_written ns k env).
  { intros k. pose proof (fold_field_of env ∅ ns k Hbn) as H.
    unfold loadAuthConfig in Ha. by rewrite Ha, lookup_empty in H. }
  pose proof (Hfield KToken) as Htok. pose proof (Hfield KUsername) as Huser.
  pose proof (Hfield KPassword) as Hpass. cbn [field_of] in Htok, Huser, Hpass.
  pose proof (loadAuthConfig_resolved env ns a Ha) as [_ Hres].
  split; [| split; [| split; [| split; [| exact Hbn]]]].
  - intros Hb.
    destruct (bearer_origin env ∅ ns a Hbn Ha Hb) as [Hex | (a0 & Ha0 & _)];
      [| by rewrite lookup_empty in Ha0].
    destruct (bearer_entry_writes env ns Hex) as [t Ht]. exists t.
    split; [done |]. pose proof (last_written_nonempty _ _ _ _ Ht) as Hne.
    unfold applyAuthentication. rewrite Hb, Htok, Ht. cbn [String.eqb set_and_nonempty field_text].
    change (String.eqb "bearer" "bearer") with true. cbv iota.
    apply is_empty_false in Hne. by rewrite Hne.
  - intros Hk. destruct (Hres Hk) as (Hh & t & Ht & Hne). exists t.
    split; [by rewrite <- Htok |].
    unfold applyAuthentication. rewrite Hk, Ht, Hh.
    change (String.eqb "apiKey" "bearer") with false.
    change (String.eqb "apiKey" "apiKey") with true. cbv iota.
    cbn [set_and_nonempty field_text is_empty negb andb].
    apply is_empty_false in Hne. by rewrite Hne.
  - intros Hk. unfold applyAuthentication. rewrite Hk, Huser, Hpass.
    change (String.eqb "basic" "bearer") with false.
    change (String.eqb "basic" "apiKey") with false.
    change (String.eqb "basic" "basic") with true. cbv iota.
    destruct (last_written ns KUsername env) as [u|] eqn:Eu; [| done].
    destruct (last_written ns KPassword env) as [p|] eqn:Ep;
      [| by cbn [set_and_nonempty]; rewrite andb_false_r].
    apply last_written_nonempty, is_empty_false in Eu, Ep.
    cbn [set_and_nonempty field_text]. by rewrite Eu, Ep.
  - unfold loadAuthConfig in Ha.
    assert (H : forall cfg : gmap string AuthEntry,
               map_Forall (fun _ e => type e ∈ ["bearer"; "apiKey"; "basic"]) cfg ->
               map_Forall (fun _ e => type e ∈ ["bearer"; "apiKey"; "basic"])
                 (fold_left load_step env cfg)).
    { clear. induction env as [|entry env IH]; intros cfg Hcfg; cbn [fold_left];
        [done |].
      apply IH.
      destruct (load_step_cases cfg entry) as [-> | (ns & ty & k & Hc & _ & ->)];
        [done |].
      apply map_Forall_insert_2; [| done].
      rewrite update_entry_type. apply classify_cases in Hc as [_ Hc].
      destruct (String.eqb_spec ty "bearer") as [_|_]; [apply list_elem_of_here |].
      destruct (cfg !! ns) as [e|] eqn:E; [by apply (Hcfg ns) |].
      destruct Hc as [[-> _] | [[-> _] | [-> _]]];
        repeat (first [apply list_elem_of_here | apply list_elem_of_further]). }
    apply (H ∅ (map_Forall_empty _) ns a Ha).
Qed.

Lemma applyAuthentication_of_environment_witness :
  exists t,
    last_written "petstore" KToken
      [("PETSTORE_BEARER_TOKEN", "tok"); ("PETSTORE_API_KEY", "key")] = Some t
    /\ applyAuthentication ∅
         (Some {| type := "bearer"; token := Some "key";
                  headerName := Some "X-API-Key";
                  username := None; password := None |})
       = <["Authorization" := "Bearer " +:+ t]> ∅.
Proof.
  apply (applyAuthentication_of_environment
           [("PETSTORE_BEARER_TOKEN", "tok"); ("PETSTORE_API_KEY", "key")]
           "petstore"); reflexivity.
Defined.

End ResolverProperties.

(* ===================================================================== *)
(** ** What a request carries *)
(* ===================================================================== *)

Section RequestProperties.
Import Js OpenapiParser Auth HttpClient NodePath AuthFile OpenapiDocument Server Request Samples Fixtures.

Lemma lookup_set_prop (k : string) (v : JsValue) (ps : list (string * JsValue))
    (h : string) :
  lookup_prop h (set_prop k v ps)
  = if String.eqb k h then v else lookup_prop h ps.
Proof.
  induction ps as [|[k' v'] ps IH]; cbn [set_prop lookup_prop]; [done |].
  destruct (String.eqb_spec k' k) as [->|Hne]; cbn [lookup_prop].
  - by destruct (String.eqb k h).
  - rewrite IH. destruct (String.eqb_spec k' h) as [->|]; [| done].
    destruct (String.eqb_spec k h) as [->|]; done.
Qed.

Lemma set_prop_not_nil (k : string) (v : JsValue) (ps : list (string * JsValue)) :
  set_prop k v ps <> [].
Proof. destruct ps as [|[k' v'] ps]; cbn [set_prop]; [done |]. by destruct (String.eqb k' k). Qed.

Lemma header_fold (args : list (string * JsValue)) (ps : list ToolParameter)
    (hs : gmap string string) (h : string) :
  fold_left
    (fun (hs : gmap string string) param =>
       if is_str "header" (in_ param) && negb (is_undefined (arg args param))
       then (if is_proto (toString (name param)) then hs
             else <[toString (name param) := toString (arg args param)]> hs)
       else hs) ps hs !! h
  = if existsb
         (fun p => is_str "header" (in_ p) && negb (is_undefined (arg args p))
                   && String.eqb (toString (name p)) h) ps
       && negb (is_proto h)
    then Some (toString (read args h)) else hs !! h.
Proof.
  revert hs. induction ps as [|p ps IH]; intros hs; cbn [fold_left existsb]; [done |].
  rewrite IH.
  destruct (is_str "header" (in_ p) && negb (is_undefined (arg args p))) eqn:Hp;
    cbn [andb orb]; [| done].
  destruct (String.eqb_spec (toString (name p)) h) as [E|Hne]; cbn [orb].
  - subst h. destruct (is_proto (toString (name p))) eqn:Hproto; cbn [negb].
    + by rewrite !andb_false_r.
    + rewrite !andb_true_r. destruct (existsb _ ps); [done |].
      by rewrite lookup_insert_eq.
  - destruct (existsb _ ps && negb (is_proto h)); [done |].
    destruct (is_proto (toString (name p))); [done |].
    by rewrite lookup_insert_ne.
Qed.

Lemma applyAuthentication_keeps (headers : gmap string string)
    (a : option AuthEntry) (h : string) :
  is_Some (headers !! h) -> is_Some (applyAuthentication headers a !! h).
Proof.
  intros H. unfold applyAuthentication. destruct a as [a|]; [| done].
  repeat match goal with
         | |- context [if ?b then _ else _] => destruct b
         end; try done;
    by apply lookup_insert_is_Some'; right.
Qed.



Lemma query_fold (args : list (string * JsValue)) (ps : list ToolParameter)
    (acc : list (string * JsValue)) (h : string) :
  lookup_prop h
    (fold_left
       (fun qs param =>
          if is_str "query" (in_ param) && negb (is_undefined (arg args param))
          then (if is_proto (toString (name param)) then qs
                else set_prop (toString (name param)) (arg args param) qs)
          else qs) ps acc)
  = if existsb
         (fun p => is_str "query" (in_ p) && negb (is_undefined (arg args p))
                   && String.eqb (toString (name p)) h) ps
       && negb (is_proto h)
    then read args h else lookup_prop h acc.
Proof.
  revert acc. induction ps as [|p ps IH]; intros acc; cbn [fold_left existsb]; [done |].
  rewrite IH.
  destruct (is_str "query" (in_ p) && negb (is_undefined (arg args p))) eqn:Hp;
    cbn [andb orb]; [| done].
  destruct (String.eqb_spec (toString (name p)) h) as [E|Hne]; cbn [orb].
  - subst h. destruct (is_proto (toString (name p))) eqn:Hproto; cbn [negb].
    + by rewrite !andb_false_r.
    + rewrite !andb_true_r. destruct (existsb _ ps); [done |].
      by rewrite lookup_set_prop, String.eqb_refl.
  - destruct (existsb _ ps && negb (is_proto h)); [done |].
    destruct (is_proto (toString (name p))); [done |].
    rewrite lookup_set_prop. by apply String.eqb_neq in Hne as ->.
Qed.

Lemma query_fold_nil (args : list (string * JsValue)) (ps : list ToolParameter)
    (acc : list (string * JsValue)) :
  fold_left
    (fun qs param =>
       if is_str "query" (in_ param) && negb (is_undefined (arg args param))
       then (if is_proto (toString (name param)) then qs
             else set_prop (toString (name param)) (arg args param) qs)
       else qs) ps acc = []
  <-> acc = []
      /\ existsb (fun p => is_str "query" (in_ p) && negb (is_undefined (arg args p))
                           && negb (is_proto (toString (name p))))
           ps = false.
Proof.
  revert acc. induction ps as [|p ps IH]; intros acc; cbn [fold_left existsb].
  - split; [by intros -> | by intros [-> _]].
  - rewrite IH.
    destruct (is_str "query" (in_ p) && negb (is_undefined (arg args p)));
      cbn [andb orb]; [| done].
    destruct (is_proto (toString (name p))); cbn [negb orb]; [done |].
    split; [intros [H _]; by apply set_prop_not_nil in H | by intros [_ ?]].
Qed.

(** X13: the query of a request.  A key [h] of the query, which is never
    [__proto__], is the name of a parameter declared in [query] for
    which [args[h]] is not [undefined], and its value is [args[h]] as it
    is: the argument of that name that the call gives, or, when it gives
    none, the member that every object inherits under that name, if
    there is one.  The request has no query at all exactly when
    [args[name]] is [undefined] for every parameter declared in [query]
    and not called [__proto__]. *)
Theorem request_query (context : ToolExecutionContext)
    (args : list (string * JsValue)) :
  (forall h,
     match params (buildRequestConfig context args) with
     | Some qs => lookup_prop h qs
     | None => JUndefined
     end
     = if supplied "query" (tool context) args h && negb (is_proto h)
       then read args h else JUndefined)
  /\ (forall h, has (JObj args) h = true -> read args h = lookup_prop h args)
  /\ (forall h, has (JObj args) h = false -> read args h = object_prototype h)
  /\ (params (buildRequestConfig context args) = None <->
      existsb (fun p => is_str "query" (in_ p) && negb (is_undefined (arg args p))
                        && negb (is_proto (toString (name p))))
        (parameters (tool context)) = false).
Proof.
  assert (Hnone : params (buildRequestConfig context args) = None <->
                  buildQueryParameters (tool context) args = []).
  { unfold buildRequestConfig. cbn [params].
    by destruct (buildQueryParameters (tool context) args). }
  split; [| split; [| split]].
  - intros h.
    assert (Hq : lookup_prop h (buildQueryParameters (tool context) args)
                 = if supplied "query" (tool context) args h && negb (is_proto h)
                   then read args h else JUndefined).
    { unfold buildQueryParameters. by rewrite query_fold. }
    rewrite <- Hq. unfold buildRequestConfig. cbn [params].
    by destruct (buildQueryParameters (tool context) args).
  - intros h. unfold read. cbn [has]. by intros ->.
  - intros h. unfold read. cbn [has]. by intros ->.
  - rewrite Hnone. unfold buildQueryParameters. rewrite query_fold_nil.
    split; [by intros [_ ?] | by intros ?].
Qed.

Lemma fold_left_filter_neutral {A B} (f : A -> B -> A) (keep : B -> bool)
    (l : list B) (acc : A) :
  (forall acc x, keep x = false -> f acc x = acc) ->
  fold_left f (List.filter keep l) acc = fold_left f l acc.
Proof.
  intros H. revert acc. induction l as [|x l IH]; intros acc;
    cbn [List.filter fold_left]; [done |].
  destruct (keep x) eqn:Hk; cbn [fold_left]; [apply IH |].
  by rewrite (H acc x Hk).
Qed.

Lemma set_prop_keys (k : string) (v : JsValue) (ps : list (string * JsValue))
    (x : string) :
  x ∈ map fst (set_prop k v ps) -> x = k \/ x ∈ map fst ps.
Proof.
  induction ps as [|[k' v'] ps IH]; cbn [set_prop map fst].
  - intros H. apply list_elem_of_singleton in H. by left.
  - destruct (String.eqb_spec k' k) as [->|_]; cbn [map fst]; [by right |].
    intros H. apply elem_of_cons in H as [-> | H].
    + right. apply list_elem_of_here.
    + destruct (IH H) as [-> | Hx]; [by left |].
      right. by apply list_elem_of_further.
Qed.

(** The keys of the collected body name no declared parameter. *)
Lemma collect_body_args_keys (tool : GeneratedTool) (args : list (string * JsValue))
    (x : string) :
  x ∈ map fst (collect_body_args tool args) -> is_param_name tool x = false.
Proof.
  unfold collect_body_args.
  assert (H : forall acc : list (string * JsValue),
             (forall y, y ∈ map fst acc -> is_param_name tool y = false) ->
             x ∈ map fst
                   (fold_left
                      (fun bodyArgs kv =>
                         if negb (is_param_name tool (fst kv))
                         then set_prop (fst kv) (snd kv) bodyArgs else bodyArgs)
                      args acc) ->
             is_param_name tool x = false).
  { induction args as [|[k v] args IH]; intros acc Hacc; cbn [fold_left fst snd].
    - apply Hacc.
    - apply IH. destruct (is_param_name tool k) eqn:Hk; cbn [negb]; [done |].
      intros y Hy. apply set_prop_keys in Hy as [-> | Hy]; [done | by apply Hacc]. }
  apply H. intros y Hy. by apply elem_of_nil in Hy.
Qed.

(** X14: a parameter that is declared in [cookie], or in any place other
    than [path], [query] and [header], changes neither the method, the
    URL, the headers nor the query of a request: they are those of the
    tool without such parameters.  Nor is the argument of a declared
    parameter, such a one included, part of a body that is collected
    from the arguments: it reaches the request only as the body itself,
    when the call gives an argument [body] or [requestBody], which a
    parameter of that name stands for. *)
Theorem unplaced_parameters_ignored (context : ToolExecutionContext)
    (args : list (string * JsValue)) :
  let context' :=
    {| apiName := apiName context;
       tool := with_parameters (tool context)
                 (List.filter placed (parameters (tool context)));
       authConfig := authConfig context |} in
  config_method (buildRequestConfig context args)
  = config_method (buildRequestConfig context' args)
  /\ url (buildRequestConfig context args) = url (buildRequestConfig context' args)
  /\ headers (buildRequestConfig context args)
     = headers (buildRequestConfig context' args)
  /\ params (buildRequestConfig context args)
     = params (buildRequestConfig context' args)
  /\ (forall p k,
        p ∈ parameters (tool context) -> name p = JStr k ->
        lookup_prop "body" args = JUndefined ->
        lookup_prop "requestBody" args = JUndefined ->
        match data (buildRequestConfig context args) with
        | Some body => exists rest, body = JObj rest /\ k ∉ map fst rest
        | None => True
        end).
Proof.
  intros context'.
  split; [| split; [| split; [| split]]].
  5: { intros p k Hp Hname Hb Hrb.
       unfold buildRequestConfig. cbn [data]. unfold buildRequestBody.
       rewrite Hb, Hrb. cbn [is_undefined negb].
       destruct (truthy (requestBody (tool context))); cbn [negb is_null];
         [| done].
       destruct (Nat.ltb 0 _); cbn [negb is_null]; [| done].
       exists (collect_body_args (tool context) args). split; [done |].
       intros Hk. apply collect_body_args_keys in Hk.
       assert (Ht : is_param_name (tool context) k = true); [| congruence].
       unfold is_param_name. apply existsb_exists. exists p.
       split; [by apply list_elem_of_In |].
       rewrite Hname. cbn [is_str]. apply String.eqb_refl. }
  all: unfold buildRequestConfig;
    cbn [config_method url headers params];
    unfold context'; cbn [tool authConfig].
  - done.
  - unfold buildUrl, with_parameters. cbn [parameters baseUrl path].
    symmetry. apply fold_left_filter_neutral. intros acc p Hp.
    apply substitute_skips. left.
    unfold placed in Hp. by apply orb_false_iff in Hp as [[? _]%orb_false_iff _].
  - unfold addHeaderParameters, with_parameters. cbn [parameters].
    symmetry. apply fold_left_filter_neutral. intros acc p Hp.
    unfold placed in Hp. apply orb_false_iff in Hp as [_ Hp]. by rewrite Hp.
  - assert (Hq : buildQueryParameters
                   (with_parameters (tool context)
                      (List.filter placed (parameters (tool context)))) args
                 = buildQueryParameters (tool context) args); [| by rewrite Hq].
    unfold buildQueryParameters, with_parameters. cbn [parameters].
    apply fold_left_filter_neutral. intros acc p Hp.
    unfold placed in Hp.
    apply orb_false_iff in Hp as [[_ Hp]%orb_false_iff _]. by rewrite Hp.
Qed.

Lemma unplaced_parameters_ignored_witness :
  match data (buildRequestConfig
                {| apiName := "petstore";
                   tool := with_parameters addPet
                             [{| name := JStr "session"; in_ := JStr "cookie";
                                 required := JBool false;
                                 schema := JObj [("type", JStr "string")];
                                 description := JUndefined |}];
                   authConfig := None |}
                [("session", JStr "s-1"); ("kind", JStr "dog")]) with
  | Some body => exists rest, body = JObj rest /\ "session" ∉ map fst rest
  | None => True
  end.
Proof.
  apply (proj2 (proj2 (proj2 (proj2
           (unplaced_parameters_ignored
              {| apiName := "petstore";
                 tool := with_parameters addPet
                           [{| name := JStr "session"; in_ := JStr "cookie";
                               required := JBool false;
                               schema := JObj [("type", JStr "string")];
                               description := JUndefined |}];
                 authConfig := None |}
              [("session", JStr "s-1"); ("kind", JStr "dog")]))))
           {| name := JStr "session"; in_ := JStr "cookie";
              required := JBool false;
              schema := JObj [("type", JStr "string")];
              description := JUndefined |} "session");
    [apply list_elem_of_here | reflexivity..].
Defined.

Lemma count_char_app (c : ascii) (a b : string) :
  count_char c (a +:+ b) = (count_char c a + count_char c b)%nat.
Proof.
  induction a as [|x a IH]; [done |].
  change (String x a +:+ b) with (String x (a +:+ b)). cbn [count_char].
  rewrite IH. lia.
Qed.

Lemma count_char_sdrop (c : ascii) (n : nat) (s : string) :
  (count_char c (sdrop n s) <= count_char c s)%nat.
Proof.
  revert s. induction n as [|n IH]; intros [|x s]; cbn [sdrop count_char]; try lia.
  specialize (IH s). lia.
Qed.

Lemma count_char_absent (f : ascii -> bool) (c : ascii) (s : string) :
  f c = false -> sforall f s = true -> count_char c s = O.
Proof.
  intros Hc. induction s as [|x s IH]; cbn [sforall count_char]; [done |].
  intros H. apply andb_true_iff in H as [Hx Hs]. rewrite (IH Hs).
  destruct (Ascii.eqb_spec x c) as [->|]; [congruence | done].
Qed.

Lemma count_char_replace (c : ascii) (pat rep s : string) :
  count_char c rep = O ->
  (count_char c (replace pat rep s) <= count_char c s)%nat.
Proof.
  intros Hrep. induction s as [|x s IH]; cbn [replace].
  - destruct (startsWith pat EmptyString); [| done].
    rewrite count_char_app, Hrep. apply count_char_sdrop.
  - destruct (startsWith pat (String x s)).
    + rewrite count_char_app, Hrep. apply count_char_sdrop.
    + cbn [count_char]. lia.
Qed.

(** X15: an argument adds no reserved character to the URL.  Whatever
    the arguments are, a character that [encodeURIComponent] does not
    write (a [/], a [?], a [#], a [&] ...) occurs in the URL of the
    request at most as often as in the base URL and the path template
    of the tool. *)
Theorem buildUrl_adds_no_reserved (tool : GeneratedTool)
    (args : list (string * JsValue)) (c : ascii) :
  uri_safe c = false ->
  (count_char c (buildUrl tool args)
   <= count_char c (strip_trailing_slash (baseUrl tool) +:+ path tool))%nat.
Proof.
  intros Hc. unfold buildUrl.
  generalize (strip_trailing_slash (baseUrl tool) +:+ path tool).
  induction (parameters tool) as [|p ps IH]; intros url0; cbn [fold_left]; [done |].
  etransitivity; [apply IH |].
  unfold substitute. destruct (_ && _); [| done].
  apply count_char_replace.
  apply (count_char_absent uri_safe); [done | apply encodeURIComponent_safe].
Qed.

Lemma buildUrl_adds_no_reserved_witness :
  (count_char "/" (buildUrl getPetById [("petId", JStr "../../admin?x=1")])
   <= count_char "/" (strip_trailing_slash (baseUrl getPetById)
                      +:+ path getPetById))%nat.
Proof. apply (buildUrl_adds_no_reserved getPetById); reflexivity. Defined.

Lemma method_round_trip (m : string) :
  m ∈ methods -> toLowerCase (toUpperCase m) = m.
Proof.
  intros H. unfold methods in H.
  repeat (apply elem_of_cons in H as [-> | H]; [reflexivity |]).
  by apply elem_of_nil in H.
Qed.

(** X16: a request for a compiled tool is one that the document
    declares.  For a tool of the list compiled from a document, the
    method of the request is one of the seven and the path of the tool
    is a key of [paths] under which the document has an operation for
    that method; the request carries a body only if that operation
    declares a request body. *)
Theorem compiled_tool_request (spec : Document) (ns : string) (t : GeneratedTool)
    (auth : option AuthEntry) (args : list (string * JsValue)) :
  t ∈ generateToolsFromSpec spec ns ->
  let config := buildRequestConfig {| apiName := ns; tool := t; authConfig := auth |}
                  args in
  config_method config ∈ methods
  /\ timeout config = 30000%Z
  /\ exists entries pathItem,
       paths spec = Some entries
       /\ (path t, pathItem) ∈ entries
       /\ truthy (get pathItem (config_method config)) = true
       /\ (data config <> None ->
           truthy (get (get pathItem (config_method config)) "requestBody") = true).
Proof.
  rewrite generateToolsFromSpec_flat.
  destruct (paths spec) as [entries|] eqn:Hpaths; [| by intros H%elem_of_nil].
  intros Ht. apply list_elem_of_In, in_flat_map in Ht as ([pt item] & Hin & Ht).
  apply list_elem_of_In in Hin, Ht. cbn [fst snd] in Ht.
  destruct (is_object item); [| by apply elem_of_nil in Ht].
  apply list_elem_of_omap in Ht as (m & Hm & Hc).
  destruct (truthy (get item m)) eqn:Hop; [| done].
  apply createToolFromOperation_fields in Hc as (_ & Hmeth & Hpath & _ & Hbody & _).
  intros config.
  assert (Hcm : config_method config = m).
  { unfold config, buildRequestConfig. cbn [config_method tool].
    rewrite Hmeth. by apply method_round_trip. }
  rewrite Hcm. split; [done |]. split; [done |].
  exists entries, item. split; [done |]. split; [by rewrite Hpath |].
  split; [done |]. intros Hdata. rewrite <- Hbody.
  destruct (truthy (requestBody t)) eqn:Hrb; [done |].
  exfalso. apply Hdata. unfold config, buildRequestConfig. cbn [data tool].
  unfold buildRequestBody. by rewrite Hrb.
Qed.

Lemma compiled_tool_request_witness :
  config_method
    (buildRequestConfig
       {| apiName := "store"; tool := store_delete_tool; authConfig := None |} [])
  ∈ methods
  /\ timeout
       (buildRequestConfig
          {| apiName := "store"; tool := store_delete_tool; authConfig := None |} [])
     = 30000%Z.
Proof.
  destruct (compiled_tool_request one_path_document "store" store_delete_tool None [])
    as (Hm & Ht & _).
  - apply list_elem_of_further, list_elem_of_here.
  - split; [exact Hm | exact Ht].
Defined.

End RequestProperties.

(* ===================================================================== *)
(** ** The input schemas and the parser *)
(* ===================================================================== *)

Section RegistryProperties.
Import Js OpenapiParser Auth HttpClient NodePath AuthFile OpenapiDocument Server Request Samples Fixtures.

Lemma extract_entry_kept (e : list (string * JsValue)) (p : ToolParameter) :
  extract_entry e = Some p ->
  truthy (name p) = true /\ truthy (in_ p) = true /\ truthy (schema p) = true
  /\ required p = js_or (get (JObj e) "required") (JBool (is_str "path" (in_ p))).
Proof.
  unfold extract_entry. destruct (has (JObj e) "$ref"); [discriminate |].
  destruct (truthy (get (JObj e) "in")) eqn:Hin; [| discriminate].
  destruct (truthy (get (JObj e) "name")) eqn:Hname; [| discriminate].
  destruct (truthy (get (JObj e) "schema")) eqn:Hschema; [| discriminate].
  intros [= <-]. cbn [name in_ schema required]. done.
Qed.

Lemma extract_loop_origin (l : list JsValue) (acc out : list ToolParameter)
    (p : ToolParameter) :
  extract_loop l acc = Some out -> p ∈ out ->
  p ∈ acc \/ exists e, JObj e ∈ l /\ extract_entry e = Some p.
Proof.
  revert acc. induction l as [|v l IH]; intros acc H Hp; cbn [extract_loop] in H.
  - injection H as <-. by left.
  - destruct v as [| | | | |items|e|f]; try done.
    + destruct (IH _ H Hp) as [Hacc | (e & He & Hx)]; [by left |].
      right. exists e. split; [by apply list_elem_of_further | done].
    + destruct (extract_entry e) as [q|] eqn:Hq.
      * destruct (IH _ H Hp) as [Hacc | (e' & He & Hx)].
        -- apply elem_of_app in Hacc as [Hacc | Hacc]; [by left |].
           apply list_elem_of_singleton in Hacc. subst q. right. exists e.
           split; [apply list_elem_of_here | done].
        -- right. exists e'. split; [by apply list_elem_of_further | done].
      * destruct (IH _ H Hp) as [Hacc | (e' & He & Hx)]; [by left |].
        right. exists e'. split; [by apply list_elem_of_further | done].
    + destruct (IH _ H Hp) as [Hacc | (e & He & Hx)]; [by left |].
      right. exists e. split; [by apply list_elem_of_further | done].
Qed.

Lemma openAPISchemaToZod_base (v : JsValue) (inner : Zod) :
  openAPISchemaToZod v <> ZOptional inner.
Proof.
  destruct v as [| | | | |items|props|f]; try done.
  cbn [openAPISchemaToZod].
  repeat match goal with
         | |- context [if ?b then _ else _] => destruct b; [done |]
         end.
  done.
Qed.

(** X17: a compiled tool is well formed.  Its description is truthy (the
    summary, else the description of the operation, else the method and
    the path).  Each of its parameters has a name, a location and a
    schema that are truthy; a parameter of the path is required
    whatever the document declares, and its rule in the input schema of
    the tool is not optional; the rule of a parameter is optional
    exactly when its [required] flag is falsy. *)
Theorem compiled_parameters (apiName pathTemplate method : string)
    (operation : JsValue) (baseUrl : string) (pathLevelParams : JsValue)
    (t : GeneratedTool) (p : ToolParameter) :
  createToolFromOperation apiName pathTemplate method operation baseUrl
    pathLevelParams = Some t ->
  p ∈ parameters t ->
  truthy (tool_description t) = true
  /\ truthy (name p) = true /\ truthy (in_ p) = true /\ truthy (schema p) = true
  /\ (is_str "path" (in_ p) = true ->
      truthy (required p) = true
      /\ forall inner, parameter_rule p <> ZOptional inner)
  /\ ((exists inner, parameter_rule p = ZOptional inner)
      <-> truthy (required p) = false).
Proof.
  intros Ht Hp. split.
  { unfold createToolFromOperation in Ht.
    destruct (spread_or_empty pathLevelParams); [| done].
    destruct (spread_or_empty (get operation "parameters")); [| done].
    destruct (extractParameters _); [| done].
    injection Ht as <-. cbn [tool_description]. unfold js_or.
    destruct (truthy (get operation "summary")) eqn:E1; [done |].
    destruct (truthy (get operation "description")) eqn:E2; [done |].
    cbn [truthy]. apply negb_true_iff, is_empty_false. intros E.
    apply sapp_is_empty in E as [_ E]. discriminate. }
  apply createToolFromOperation_fields in Ht
    as (_ & _ & _ & _ & _ & pl & ol & _ & _ & Hext).
  unfold extractParameters in Hext.
  destruct (extract_loop_origin _ _ _ p Hext Hp) as [Hnil | (e & _ & He)];
    [by apply elem_of_nil in Hnil |].
  apply extract_entry_kept in He as (Hname & Hin & Hschema & Hreq).
  assert (Hopt : (exists inner, parameter_rule p = ZOptional inner)
                 <-> truthy (required p) = false).
  { unfold parameter_rule. destruct (truthy (required p)); cbn [negb].
    - split; [| done]. intros [inner H].
      destruct (truthy (description p)); [done |].
      by apply openAPISchemaToZod_base in H.
    - split; [done |]. intros _. eauto. }
  split; [done |]. split; [done |]. split; [done |]. split; [| done].
  intros Hpath.
  assert (Hr : truthy (required p) = true).
  { rewrite Hreq, Hpath. unfold js_or. by destruct (truthy (get (JObj e) "required")) eqn:E. }
  split; [done |]. intros inner H.
  assert (truthy (required p) = false) by (apply Hopt; eauto). congruence.
Qed.

Lemma compiled_parameters_witness :
  truthy (required petId_param) = true
  /\ parameter_rule petId_param <> ZOptional ZString.
Proof.
  destruct (compiled_parameters "petstore" "/pet/{petId}" "get"
              (JObj [("parameters", JArr [JObj (petId_entry (JBool false))])])
              "https://petstore.example.com/v1" JUndefined
              {| tool_name := "petstore_get_pet";
                 tool_description := JStr "GET /pet/{petId}";
                 operationId := JUndefined; method := "GET"; path := "/pet/{petId}";
                 parameters := [petId_param]; requestBody := JUndefined;
                 responses := JUndefined; security := JArr [];
                 baseUrl := "https://petstore.example.com/v1" |}
              petId_param) as (_ & _ & _ & _ & Hpath & _).
  - reflexivity.
  - apply list_elem_of_here.
  - destruct Hpath as [Hr Hn]; [reflexivity |]. split; [exact Hr | apply Hn].
Defined.

Lemma find_snoc {A} (f : A -> bool) (l : list A) (x : A) :
  find f (l ++ [x])
  = match find f l with
    | Some y => Some y
    | None => if f x then Some x else None
    end.
Proof.
  induction l as [|y l IH]; cbn [app find]; [done |].
  destruct (f y); [done | apply IH].
Qed.

Lemma schema_fold (ps : list ToolParameter) (fields : gmap string Zod) (k : string) :
  fold_left
    (fun fields param =>
       if is_proto (toString (name param)) then fields
       else <[toString (name param) := parameter_rule param]> fields)
    ps fields !! k
  = match find (fun p => String.eqb (toString (name p)) k) (rev ps) with
    | Some p => if is_proto k then fields !! k else Some (parameter_rule p)
    | None => fields !! k
    end.
Proof.
  revert fields. induction ps as [|p ps IH]; intros fields; cbn [fold_left rev];
    [done |].
  rewrite IH, find_snoc.
  destruct (String.eqb_spec (toString (name p)) k) as [E|Hne].
  - subst k. destruct (is_proto (toString (name p))) eqn:Hproto.
    + by destruct (find _ (rev ps)).
    + destruct (find _ (rev ps)); [done |]. by rewrite lookup_insert_eq.
  - destruct (find _ (rev ps)) as [q|].
    + destruct (is_proto k); [| done].
      destruct (is_proto (toString (name p))); [done |].
      by rewrite lookup_insert_ne.
    + destruct (is_proto (toString (name p))); [done |].
      by rewrite lookup_insert_ne.
Qed.

(** X18: the fields of the input schema of a tool.  The field [body] of
    a tool that declares a request body is the optional rule of the
    body, be there a parameter of that name; any other field is the rule
    of the parameter of that name that is declared last, and there is no
    field for a name that no parameter has, nor for the name
    [__proto__]. *)
Theorem buildZodSchema_fields (tool : GeneratedTool) (k : string) :
  buildZodSchema tool !! k
  = if truthy (requestBody tool) && String.eqb k "body" then Some body_rule
    else if is_proto k then None
    else parameter_rule
           <$> find (fun p => String.eqb (toString (name p)) k)
                 (rev (parameters tool)).
Proof.
  unfold buildZodSchema.
  assert (H : fold_left
                (fun fields param =>
                   if is_proto (toString (name param)) then fields
                   else <[toString (name param) := parameter_rule param]> fields)
                (parameters tool) (∅ : gmap string Zod) !! k
              = if is_proto k then None
                else parameter_rule
                       <$> find (fun p => String.eqb (toString (name p)) k)
                             (rev (parameters tool))).
  { rewrite schema_fold, lookup_empty.
    destruct (find _ _); by destruct (is_proto k). }
  destruct (truthy (requestBody tool)); cbn [andb]; [| done].
  destruct (String.eqb_spec k "body") as [->|Hne].
  - by rewrite lookup_insert_eq.
  - by rewrite lookup_insert_ne.
Qed.

Lemma lookup_prop_skip (h k : string) (v : JsValue) (l1 l2 : list (string * JsValue)) :
  k <> h -> lookup_prop h (l1 ++ (k, v) :: l2) = lookup_prop h (l1 ++ l2).
Proof.
  intros Hne. induction l1 as [|[k' v'] l1 IH]; cbn [app lookup_prop].
  - by destruct (String.eqb_spec k h).
  - by rewrite IH.
Qed.

Lemma openAPISchemaToZod_object (props : list (string * JsValue)) :
  openAPISchemaToZod (JObj props)
  = let type := lookup_prop "type" props in
    if is_str "string" type then ZString
    else if is_str "number" type then ZNumber
    else if is_str "integer" type then ZInt
    else if is_str "boolean" type then ZBoolean
    else if is_str "array" type then
      ZArray (if truthy (lookup_prop "items" props)
              then openAPISchemaToZod (lookup_prop "items" props) else ZAny)
    else if is_str "object" type then ZRecordAny
    else ZAny.
Proof.
  cbn [openAPISchemaToZod]. cbv zeta.
  repeat match goal with
         | |- (if ?b then _ else _) = (if ?b then _ else _) => destruct b; [done |]
         end.
  destruct (is_str "array" (lookup_prop "type" props)); [| done].
  f_equal. induction props as [|[k v] props IH]; [done |].
  cbn [lookup_prop]. destruct (String.eqb k "items"); [done | apply IH].
Qed.

(** X19: the rule of a schema reads its [type] and, for an array, its
    [items], and nothing else: a schema with one more property of any
    other name ([format], [enum], [minimum], [required] ...) has the
    same rule. *)
Theorem openAPISchemaToZod_reads_type_and_items (l1 l2 : list (string * JsValue))
    (k : string) (v : JsValue) :
  k <> "type" -> k <> "items" ->
  openAPISchemaToZod (JObj (l1 ++ (k, v) :: l2))
  = openAPISchemaToZod (JObj (l1 ++ l2)).
Proof.
  intros Ht Hi. rewrite !openAPISchemaToZod_object. cbv zeta.
  by rewrite !(lookup_prop_skip "type" k v), !(lookup_prop_skip "items" k v).
Qed.

Lemma openAPISchemaToZod_reads_type_and_items_witness :
  openAPISchemaToZod
    (JObj ([("type", JStr "string")]
           ++ ("enum", JArr [JStr "available"; JStr "sold"]) :: []))
  = openAPISchemaToZod (JObj ([("type", JStr "string")] ++ [])).
Proof.
  apply (openAPISchemaToZod_reads_type_and_items [("type", JStr "string")] []
           "enum" (JArr [JStr "available"; JStr "sold"])); discriminate.
Defined.

Lemma includes_cons (pat : string) (c : ascii) (s : string) :
  includes pat s = true -> includes pat (String c s) = true.
Proof. intros H. cbn [includes]. rewrite H. by destruct (startsWith _ _). Qed.

Lemma includes_openapi (s : string) :
  includes "openapi" s = true -> includes "api" s = true.
Proof.
  induction s as [|c s IH]; intros H.
  - by vm_compute in H.
  - cbn [includes] in H. destruct (startsWith "openapi" (String c s)) eqn:E.
    + apply startsWith_inv in E as [t E]. rewrite E.
      change ("openapi" +:+ t) with ("open" +:+ "api" +:+ t). apply includes_mid.
    + apply includes_cons. by apply IH.
Qed.

(** X20: what [parseOpenAPISpec] answers.  A file that the validator
    accepts is parsed, with the namespace of its name and the tools
    compiled under that namespace.  A file that it rejects is reported
    as an error exactly when its base name, in lower case, holds [api]
    or [swagger] (the test for [openapi] adds nothing, [api] being part
    of it), and as skipped otherwise; the directory of the file plays
    no part in that. *)
Theorem parseOpenAPISpec_outcome (validate : string -> Completion Document)
    (file : string) :
  (forall spec, validate file = Returned spec ->
     exists parsed,
       parseOpenAPISpec validate file = Parsed parsed
       /\ spec_apiName parsed = getApiNameFromFile file
       /\ filePath parsed = file
       /\ tools parsed = generateToolsFromSpec spec (getApiNameFromFile file))
  /\ (forall error, validate file = Threw error ->
        parseOpenAPISpec validate file
        = NotParsed
            (if includes "api" (toLowerCase (basename file))
                || includes "swagger" (toLowerCase (basename file))
             then LoggedAsError else LoggedAsSkipped))
  /\ (forall error dir name,
        file = dir +:+ "/" +:+ name ->
        no_slash name = true -> name <> EmptyString ->
        validate file = Threw error ->
        includes "api" (toLowerCase name) = false ->
        includes "swagger" (toLowerCase name) = false ->
        parseOpenAPISpec validate file = NotParsed LoggedAsSkipped).
Proof.
  assert (H : forall error, validate file = Threw error ->
                parseOpenAPISpec validate file
                = NotParsed
                    (if includes "api" (toLowerCase (basename file))
                        || includes "swagger" (toLowerCase (basename file))
                     then LoggedAsError else LoggedAsSkipped)).
  { intros error Hv. unfold parseOpenAPISpec. rewrite Hv.
    destruct (includes "openapi" (toLowerCase (basename file))) eqn:E1.
    - by rewrite (includes_openapi _ E1).
    - cbn [orb].
      destruct (includes "swagger" (toLowerCase (basename file))),
               (includes "api" (toLowerCase (basename file))); done. }
  split; [| split; [exact H |]].
  - intros spec Hv. unfold parseOpenAPISpec. rewrite Hv. by eexists.
  - intros error dir name -> Hs Hn Hv Ha Hsw. rewrite (H error Hv).
    destruct (basename_in_dir dir name Hs Hn) as [-> _]. by rewrite Ha, Hsw.
Qed.

Lemma parseOpenAPISpec_outcome_witness :
  exists parsed,
    parseOpenAPISpec accept_all "specs/Pet-Store.json" = Parsed parsed
    /\ spec_apiName parsed = getApiNameFromFile "specs/Pet-Store.json"
    /\ filePath parsed = "specs/Pet-Store.json"
    /\ tools parsed
       = generateToolsFromSpec one_path_document
           (getApiNameFromFile "specs/Pet-Store.json").
Proof.
  apply (parseOpenAPISpec_outcome accept_all "specs/Pet-Store.json"). reflexivity.
Defined.

End RegistryProperties.
